(** * Jovo build hooks: a shallow embedding and its properties

    The development follows the build hooks of the Alexa and Google
    Conversational Actions platform plugins
    ([platform-alexa/src/cli/hooks/BuildHook.ts],
    [platform-googleassistantconv/src/cli/hooks/BuildHook.ts]) and the
    framework's [JovoUser] class.

    The hooks are written against lodash ([lodash.get], [lodash.has],
    [lodash.set], [lodash.merge], [lodash.mergewith]) over plain JavaScript
    data.  The first part of the file gives these values and operations; the
    hooks come next, properties last. *)

From stdpp Require Import gmap strings list fin_maps.
From Stdlib Require Import Ascii DecimalString DecimalNat Decimal.

Set Warnings "-register-all".
Set Default Proof Using "Type".

(** ** JavaScript data *)

(** The data handled by the hooks: what [JSON.parse] yields, and
    [undefined].  An array carries, next to its elements, the named (non
    index) properties JavaScript lets code attach to it; [lodash.set] and
    [lodash.merge] create such properties when a path or a source object
    meets an array.  A hole of a sparse array is an [VUndef] element.
    Numbers are integers here: the hooks only copy and compare them. *)
Inductive jsval :=
  | VUndef
  | VNull
  | VBool (b : bool)
  | VNum (n : Z)
  | VStr (s : string)
  | VArr (xs : list jsval) (ps : gmap string jsval)
  | VObj (ps : gmap string jsval).

(** An array literal [[x; y; ...]]. *)
Definition arr (xs : list jsval) : jsval := VArr xs ∅.

(** lodash [isObject]: arrays and objects. *)
Definition isObject (v : jsval) : bool :=
  match v with VArr _ _ | VObj _ => true | _ => false end.

Definition isUndef (v : jsval) : bool :=
  match v with VUndef => true | _ => false end.

(** A value that is neither a container nor [undefined]. *)
Definition isScalar (v : jsval) : bool :=
  match v with VNull | VBool _ | VNum _ | VStr _ => true | _ => false end.

(** JavaScript truthiness, as used by [if (x)], [!x] and [a || b]. *)
Definition truthy (v : jsval) : bool :=
  match v with
  | VUndef | VNull => false
  | VBool b => b
  | VNum n => negb (n =? 0)%Z
  | VStr s => negb (String.eqb s "")
  | VArr _ _ | VObj _ => true
  end.

(** [a || b] *)
Definition jsOr (a b : jsval) : jsval := if truthy a then a else b.

(** *** Property keys *)

(** The key [String(i)] of index [i]. *)
Definition keyOfIndex (i : nat) : string :=
  NilEmpty.string_of_uint (Nat.to_uint i).

(** lodash [reIsUint] (a single 0, or a digit from 1 to 9 followed by any
    digits): the key is the decimal numeral, without leading zeros, of a
    natural number.  It is also the test
    JavaScript applies to decide that a key of an array is an element index
    (the bound of 2^32 - 1 on array indices is left out: no array here comes
    near it). *)
Definition arrayIndex (k : string) : option nat :=
  match NilEmpty.uint_of_string k with
  | Some d => if uint_beq (unorm d) d then Some (Nat.of_uint d) else None
  | None => None
  end.

(** lodash [isIndex(value)] on a path segment: [reIsUint] and
    [value < MAX_SAFE_INTEGER]. *)
Definition MAX_SAFE_INTEGER : N := 9007199254740991.

Definition isIndex (k : string) : bool :=
  match NilEmpty.uint_of_string k with
  | Some d => uint_beq (unorm d) d && (N.of_uint d <? MAX_SAFE_INTEGER)%N
  | None => false
  end.

(** [object[key]]: own properties of arrays and objects.  Properties of
    primitives (a string's [length] and characters), the [length] of an
    array and inherited properties are outside the model and read as
    [undefined]. *)
Definition getKey (object : jsval) (key : string) : jsval :=
  match object with
  | VObj ps => default VUndef (ps !! key)
  | VArr xs ps =>
      match arrayIndex key with
      | Some i => default VUndef (xs !! i)
      | None => default VUndef (ps !! key)
      end
  | _ => VUndef
  end.

(** [hasOwnProperty.call(object, key)] for arrays and objects; every index
    below the length of an array counts (for a hole, lodash [hasPath] falls
    back on [isIndex(key, length)] with the same answer at the last segment,
    and fails on the next segment otherwise). *)
Definition hasKey (object : jsval) (key : string) : bool :=
  match object with
  | VObj ps => bool_decide (is_Some (ps !! key))
  | VArr xs ps =>
      match arrayIndex key with
      | Some i => bool_decide (i < length xs)
      | None => bool_decide (is_Some (ps !! key))
      end
  | _ => false
  end.

(** [object[key] = value].  Writing past the end of an array extends it,
    leaving holes; a key that is no index becomes a named property.
    Assigning to a property of a primitive does nothing. *)
Definition setKey (object : jsval) (key : string) (value : jsval) : jsval :=
  match object with
  | VObj ps => VObj (<[key := value]> ps)
  | VArr xs ps =>
      match arrayIndex key with
      | Some i =>
          if decide (i < length xs) then VArr (<[i := value]> xs) ps
          else VArr (xs ++ replicate (i - length xs) VUndef ++ [value]) ps
      | None => VArr xs (<[key := value]> ps)
      end
  | _ => object
  end.

(** *** Paths

    lodash takes a path as a string ([a.b["c.d"].e]) and splits it with
    [stringToPath].  Paths are kept here in their split form, a list of
    keys; each path constant of the hooks is given split the way
    [stringToPath] splits it.  (lodash reads a path string as one key when
    the object holds a property of that very name; no tree here has a
    property named like a whole path.) *)
Definition path := list string.

(** A key that [stringToPath] leaves in one piece when a template puts it
    between the dots of a path string: it holds no dot and no bracket.  The
    hooks build paths from locales this way. *)
Definition plainKey (key : string) : bool :=
  forallb (λ c, negb (bool_decide (c ∈ ["."; "["; "]"]%char)))
    (String.list_ascii_of_string key).

(** [lodash.get]: [baseGet] walks the path while the object is neither
    [null] nor [undefined]; an empty path yields [undefined]. *)
Fixpoint baseGet (object : jsval) (p : path) : jsval :=
  match p with
  | [] => object
  | key :: rest =>
      match object with
      | VUndef | VNull => VUndef
      | _ => baseGet (getKey object key) rest
      end
  end.

Definition _get (object : jsval) (p : path) (defaultValue : jsval) : jsval :=
  let result := match p with [] => VUndef | _ => baseGet object p end in
  if isUndef result then defaultValue else result.

(** [lodash.has]: [hasPath] with [baseHas]; every key of the path has to be
    an own property of the value reached so far. *)
Fixpoint _has (object : jsval) (p : path) : bool :=
  match p with
  | [] => false
  | key :: rest =>
      hasKey object key &&
      match rest with
      | [] => true
      | _ => _has (getKey object key) rest
      end
  end.

(** [lodash.set]: [baseSet].  On the way down a value that is not an object
    is replaced by a fresh array or object, depending on the next key. *)
Fixpoint baseSet (nested : jsval) (p : path) (value : jsval) : jsval :=
  match p with
  | [] => nested
  | key :: rest =>
      match rest with
      | [] => setKey nested key value
      | next :: _ =>
          let objValue := getKey nested key in
          let newValue :=
            if isObject objValue then objValue
            else if isIndex next then VArr [] ∅ else VObj ∅ in
          setKey nested key (baseSet newValue rest value)
      end
  end.

Definition _set (object : jsval) (p : path) (value : jsval) : jsval :=
  if isObject object then baseSet object p value else object.

(** *** Deep merge *)

(** lodash [assignMergeValue]: an [undefined] value is only assigned when
    the key is missing. *)
Definition assignMergeValue (object : jsval) (key : string) (value : jsval)
  : jsval :=
  if isUndef value && hasKey object key then object
  else setKey object key value.

(** The customizer of [mergeWith]: called with the destination value and the
    source value of a key, it returns [undefined] to leave the key to the
    default merge. *)
Definition customizer := jsval → jsval → jsval.

(** [lodash.merge] passes no customizer. *)
Definition noCustomizer : customizer := λ _ _, VUndef.

(** The value [baseMerge] / [baseMergeDeep] assign at one key, from the
    value [objValue] the destination holds there and the source's
    [srcValue].

    - a customizer result other than [undefined] is taken as it is;
    - a source array is merged, key by key, into the destination's array,
      or into a fresh [[]] when the destination holds no array;
    - a source object is merged, key by key, into the destination's value
      when that is an object or an array, or into a fresh [{}];
    - any other source value replaces the destination's.

    The keys of a source array are its indices in increasing order and then
    its named properties.  Destination objects that lodash takes for
    array-like (a numeric [length] property) are treated as plain objects,
    and the [__proto__] key is treated as any other key. *)
Fixpoint baseMergeValue (c : customizer) (objValue srcValue : jsval)
  {struct srcValue} : jsval :=
  if isUndef (c objValue srcValue) then
    match srcValue with
    | VArr sxs sps =>
        let newValue :=
          match objValue with VArr _ _ => objValue | _ => VArr [] ∅ end in
        let elems :=
          (fix go (i : nat) (ss : list jsval) (acc : jsval) : jsval :=
             match ss with
             | [] => acc
             | s :: ss' =>
                 go (S i) ss'
                   (assignMergeValue acc (keyOfIndex i)
                      (baseMergeValue c (getKey acc (keyOfIndex i)) s))
             end) 0 sxs newValue in
        map_fold
          (λ key s acc,
             match arrayIndex key with
             | Some _ => acc
             | None =>
                 assignMergeValue acc key
                   (baseMergeValue c (getKey acc key) s)
             end)
          elems sps
    | VObj sps =>
        let newValue := if isObject objValue then objValue else VObj ∅ in
        map_fold
          (λ key s acc,
             assignMergeValue acc key (baseMergeValue c (getKey acc key) s))
          newValue sps
    | _ => srcValue
    end
  else c objValue srcValue.

(** One step of [baseMerge]: key [key] of the source, holding [srcValue], is
    merged into [object]. *)
Definition mergeKey (c : customizer) (key : string) (srcValue object : jsval)
  : jsval :=
  assignMergeValue object key (baseMergeValue c (getKey object key) srcValue).

(** The elements of a source array, from index [i] on. *)
Fixpoint mergeElems (c : customizer) (i : nat) (ss : list jsval)
  (object : jsval) : jsval :=
  match ss with
  | [] => object
  | s :: ss' => mergeElems c (S i) ss' (mergeKey c (keyOfIndex i) s object)
  end.

(** The named properties of a source array. *)
Definition mergeNamed (c : customizer) (sps : gmap string jsval)
  (object : jsval) : jsval :=
  map_fold
    (λ key s acc,
       match arrayIndex key with Some _ => acc | None => mergeKey c key s acc end)
    object sps.

(** lodash [baseMerge(object, source)]: every key of the source is merged
    into the object.  A source that is no container has no keys here. *)
Definition baseMerge (c : customizer) (object source : jsval) : jsval :=
  match source with
  | VObj sps => map_fold (mergeKey c) object sps
  | VArr sxs sps => mergeNamed c sps (mergeElems c 0 sxs object)
  | _ => object
  end.

(** [_.merge(object, source)] and [_.mergeWith(object, source, customizer)].
    The destination is mutated and returned; the hooks only pass objects. *)
Definition _mergeWith (object source : jsval) (c : customizer) : jsval :=
  if isObject object then baseMerge c object source else object.

Definition _merge (object source : jsval) : jsval :=
  _mergeWith object source noCustomizer.

(** *** Equality of values and JSON text *)

(** Structural equality of two values. *)
Fixpoint jsval_eqb (a b : jsval) {struct a} : bool :=
  match a, b with
  | VUndef, VUndef => true
  | VNull, VNull => true
  | VBool x, VBool y => Bool.eqb x y
  | VNum x, VNum y => (x =? y)%Z
  | VStr x, VStr y => String.eqb x y
  | VArr xs xp, VArr ys yp =>
      (fix go (xs ys : list jsval) : bool :=
         match xs, ys with
         | [], [] => true
         | x :: xs', y :: ys' => jsval_eqb x y && go xs' ys'
         | _, _ => false
         end) xs ys
      && (size xp =? size yp)
      && map_fold
           (λ key x acc,
              acc && match yp !! key with
                     | Some y => jsval_eqb x y
                     | None => false
                     end) true xp
  | VObj xp, VObj yp =>
      (size xp =? size yp)
      && map_fold
           (λ key x acc,
              acc && match yp !! key with
                     | Some y => jsval_eqb x y
                     | None => false
                     end) true xp
  | _, _ => false
  end.

(** [JSON.parse(JSON.stringify(v))] for a value other than [undefined]:
    inside an array [undefined] is written as [null], a key holding
    [undefined] is left out, and the named properties of an array are not
    written. *)
Fixpoint jsonValue (v : jsval) : jsval :=
  match v with
  | VArr xs _ =>
      VArr (map (λ x, if isUndef x then VNull else jsonValue x) xs) ∅
  | VObj ps =>
      VObj (omap (λ x, if isUndef x then None else Some (jsonValue x)) ps)
  | _ => v
  end.

(** ** Errors and effects *)

(** [JovoCliError(message, module, hint?)] of [@jovotech/cli-core]. *)
Record JovoCliError := {
  message : string;
  module : string;
  hint : option string;
}.

(** What a hook can throw: a [JovoCliError], or any other JavaScript [Error]
    with its message (a [TypeError], an error of [fs], an error thrown by a
    collaborator). *)
Inductive exn :=
  | CliError (e : JovoCliError)
  | JsError (msg : string).

Definition exn_message (e : exn) : string :=
  match e with CliError e => message e | JsError msg => msg end.

Inductive result (A : Type) :=
  | Ok (a : A)
  | Throws (e : exn).
Arguments Ok {A} a.
Arguments Throws {A} e.

(** The content of a file on disk: JSON text (kept as the value it parses
    to), YAML text (kept as the value it was printed from) or a string
    written as it is. *)
Inductive fileData :=
  | JsonText (v : jsval)
  | YamlText (v : jsval)
  | RawText (s : string).

(** [JSON.stringify(v, null, 2)]; [undefined] has no JSON text and
    [JSON.stringify] returns [undefined] for it. *)
Definition JSON_stringify (v : jsval) : option fileData :=
  if isUndef v then None else Some (JsonText (jsonValue v)).

(** What the hooks read and write: the files and directories on disk and the
    project's model files, one per locale ([jovo.$project.getModel] and
    [saveModel]). *)
Record World := {
  files : gmap path fileData;
  dirs : gset path;
  models : gmap string jsval;
}.

(** A hook action: it runs on a world, leaves a world behind and returns or
    throws.  The effects made before a throw stay. *)
Definition M (A : Type) : Type := World → World * result A.

Definition ret {A} (a : A) : M A := λ w, (w, Ok a).
Definition throw {A} (e : exn) : M A := λ w, (w, Throws e).
Definition bind {A B} (m : M A) (k : A → M B) : M B :=
  λ w, match m w with
       | (w', Ok a) => k a w'
       | (w', Throws e) => (w', Throws e)
       end.
Definition lift {A} (r : result A) : M A := λ w, (w, r).

(** [try { m } catch (error) { handler(error) }] *)
Definition tryCatch {A} (m : M A) (handler : exn → M A) : M A :=
  λ w, match m w with
       | (w', Ok a) => (w', Ok a)
       | (w', Throws e) => handler e w'
       end.

#[global] Instance M_ret : MRet M := @ret.
#[global] Instance M_bind : MBind M := λ A B k m, bind m k.

(** [for (const x of xs) { body(x) }] *)
Fixpoint forEach {A} (xs : list A) (body : A → M unit) : M unit :=
  match xs with
  | [] => ret tt
  | x :: xs' => body x;; forEach xs' body
  end.

(** *** The file system calls of the hooks *)

Definition existsSync (p : path) : M bool :=
  λ w, (w, Ok (bool_decide (p ∈ dirs w) || bool_decide (is_Some (files w !! p)))).

(** Every prefix of a path, the path itself included. *)
Fixpoint prefixes (p : path) : list path :=
  match p with
  | [] => [[]]
  | s :: p' => [] :: map (cons s) (prefixes p')
  end.

(** [mkdirSync(p, { recursive: true })] *)
Definition mkdirSync (p : path) : M unit :=
  λ w, ({| files := files w; dirs := list_to_set (prefixes p) ∪ dirs w;
           models := models w |}, Ok tt).

(** [writeFileSync(p, data)]; the hooks create the directory first, so the
    directory is not looked at again. *)
Definition writeFileSync (p : path) (data : fileData) : M unit :=
  λ w, ({| files := <[p := data]> (files w); dirs := dirs w;
           models := models w |}, Ok tt).

(** [deleteFolderRecursive(p)] of [@jovotech/cli-core]: the folder and all
    that is below it. *)
Definition deleteFolderRecursive (p : path) : M unit :=
  λ w, ({| files := filter (λ kv, ¬ p `prefix_of` kv.1) (files w);
           dirs := filter (λ d, ¬ p `prefix_of` d) (dirs w);
           models := models w |}, Ok tt).

(** ** The plugin, the project and the collaborators *)

(** [NativeFileInformation] of [jovo-model]. *)
Record NativeFileInformation := {
  nf_path : list string;
  content : jsval;
}.

(** What a hook reads through [this.$plugin] and [this.$config], and the
    project's table that resolves a locale such as [en] to the locales to
    build. *)
Record Plugin := {
  plugin_id : string;                       (* this.$plugin.id *)
  plugin_name : string;                     (* this.$plugin.constructor.name *)
  supportedLocales : list string;           (* this.$plugin.supportedLocales *)
  config : jsval;                           (* this.$config *)
  localeTable : gmap string (list string);
}.

(** What a hook reads through [JovoCli.getInstance().$project]. *)
Record Project := {
  projectConfig : jsval;                    (* $project.$config.get() *)
  projectName : string;                     (* $project.getProjectName() *)
  hasPlatform : bool;     (* $project.hasPlatform(getPlatformDirectory()) *)
}.

(** [jovo.$project.$config.getParameter(path)] *)
Definition getParameter (project : Project) (p : path) : jsval :=
  _get (projectConfig project) p VUndef.

Record Flags := {
  clean : bool;
  force : bool;
  flag_locale : option (list string);
  flag_platform : option (list string);
  flag_project_id : jsval;
}.

(** [this.$context] *)
Record Context := {
  command : string;
  locales : list string;
  platforms : list string;
  flags : Flags;
  defaultLocale : jsval;
  projectId : jsval;
}.

(** The collaborators the hooks call and the constants they import, none of
    which is part of the hooks: the model converters of [jovo-model-alexa]
    and [jovo-model-google], helpers of [@jovotech/cli-core] and
    [@jovotech/filebuilder], the plugins' [utils] and JSON tables. *)
Class Externals := {
  (** [printHighlight] of [@jovotech/cli-core] *)
  printHighlight : string → string;
  (** [new JovoModelAlexa(model, locale).exportNative()] *)
  alexaExportNative :
    jsval → string → result (option (list NativeFileInformation));
  (** [importNative(files, locale)] on a fresh [JovoModelAlexa], followed by
      [exportJovoModel()]; [undefined] when there is no model data *)
  alexaImportNative : list NativeFileInformation → string → result jsval;
  (** [new JovoModelGoogle(model, locale, defaultLocale).exportNative()] *)
  googleExportNative :
    jsval → string → jsval → result (option (list NativeFileInformation));
  (** [jovo.resolveEndpoint(endpoint)] *)
  resolveEndpoint : jsval → string;
  (** [FileBuilder.normalizeFileObject] *)
  normalizeFileObject : jsval → jsval;
  (** [jovo.$project.validateModel(locale, validator)] *)
  validateModel : string → M unit;
  (** the error [jovo.$project.getModel(locale)] throws without a model file *)
  modelNotFound : string → exn;
  (** the error of [readFileSync] for a missing file *)
  fileNotFound : path → exn;
  (** how the [TypeError]s of Node name a value of the wrong type that is
      neither [undefined] nor [null] ([an instance of Object],
      [type number (5)]) *)
  determineSpecificType : jsval → string;
  (** [utils/DefaultFiles.json] of the two plugins *)
  alexaDefaultFiles : jsval;
  googleDefaultFiles : jsval;
  (** [utils/SupportedLocales.json] of the Google plugin *)
  SUPPORTED_LOCALES : list string;
  (** [getPlatformPath()], [getModelsPath()], [getModelPath(locale)] *)
  alexaPlatformPath : path;
  alexaModelsPath : path;
  alexaModelPath : string → path;
  googlePlatformPath : path;
}.

(** [jovo.$project.getModel(locale)] and [saveModel(model, locale)] *)
Definition project_getModel `{Externals} (locale : string) : M jsval :=
  λ w, (w, match models w !! locale with
           | Some model => Ok model
           | None => Throws (modelNotFound locale)
           end).

Definition project_saveModel (model : jsval) (locale : string) : M unit :=
  λ w, ({| files := files w; dirs := dirs w;
           models := <[locale := model]> (models w) |}, Ok tt).

(** [readFileSync(p, 'utf-8')] *)
Definition readFileSync `{Externals} (p : path) : M fileData :=
  λ w, (w, match files w !! p with
           | Some data => Ok data
           | None => Throws (fileNotFound p)
           end).

(** [JSON.parse(text)] *)
Definition JSON_parse (text : fileData) : result jsval :=
  match text with
  | JsonText v => Ok v
  | _ => Throws (JsError "Unexpected token in JSON")
  end.

(** *** Parts of [@jovotech/cli-core] the hooks rely on *)

(** Modelled from the spec: [PluginHook.getResolvedLocales] of
    [@jovotech/cli-core] is not among the sources.  Section 4.3, step 1:
    for a requested token, look up the resolution table; if present, the
    resolved locales are that entry's array, otherwise the token alone. *)
Definition getResolvedLocales (plugin : Plugin) (locale : string)
  : list string :=
  default [locale] (localeTable plugin !! locale).

(** The first occurrence of each element, in order. *)
Fixpoint uniqFrom (seen : list jsval) (xs : list jsval) : list jsval :=
  match xs with
  | [] => []
  | x :: xs' =>
      if existsb (jsval_eqb x) seen then uniqFrom seen xs'
      else x :: uniqFrom (x :: seen) xs'
  end.

Definition uniq (xs : list jsval) : list jsval := uniqFrom [] xs.

(** Modelled from the spec: [mergeArrayCustomizer] of [@jovotech/cli-core]
    is not among the sources.  Section 4.4: when both sides of a key are
    arrays, the arrays are concatenated and exact-duplicate elements
    removed (first-seen order, section 8); any other pair is left to the
    standard deep merge. *)
Definition mergeArrayCustomizer : customizer :=
  λ target source,
    match target, source with
    | VArr txs _, VArr sxs _ => VArr (uniq (txs ++ sxs)) ∅
    | _, _ => VUndef
    end.

(** Modelled from the spec: the event bus of [@jovotech/cli-core] is not
    among the sources.  Section 4.1, [emit]: the handlers of an event run in
    order, each to completion before the next; a handler that throws stops
    the remaining ones and the error surfaces to the driver. *)
Fixpoint emit (handlers : list (M unit)) : M unit :=
  match handlers with
  | [] => ret tt
  | handler :: rest => handler;; emit rest
  end.

(** Modelled from the spec: the driver is not among the sources.
    Section 6: it fires [before.build] and then [build]; an error of the
    first ends the run. *)
Definition runBuild (beforeBuild build : list (M unit)) : M unit :=
  emit beforeBuild;; emit build.

(** The double quote, for messages that quote a locale. *)
Definition dquote : string := String "034"%char "".

(** The end of the message of a [TypeError] of Node: what it received. *)
Definition received `{Externals} (value : jsval) : string :=
  match value with
  | VUndef => "undefined"
  | VNull => "null"
  | _ => determineSpecificType value
  end.

(** The message of the [TypeError] that [writeFileSync] throws for data
    that is no string. *)
Definition invalidDataMessage `{Externals} (data : jsval) : string :=
  "The " +:+ dquote +:+ "data" +:+ dquote +:+
  " argument must be of type string or an instance of Buffer, TypedArray,"
  +:+ " or DataView. Received " +:+ received data.

(** The message of the [TypeError] that [path.join] throws for a segment
    that is [undefined]. *)
Definition invalidPathMessage : string :=
  "The " +:+ dquote +:+ "path" +:+ dquote +:+
  " argument must be of type string. Received undefined".

(** The guarded write both hooks use for every generated value:
    [if (!_has(projectFiles, p)) _set(projectFiles, p, value)] *)
Definition setIfMissing (projectFiles : jsval) (p : path) (value : jsval)
  : jsval :=
  if negb (_has projectFiles p) then _set projectFiles p value
  else projectFiles.

(** A loop that carries a value through its iterations. *)
Fixpoint foldM {A S} (body : S → A → M S) (s : S) (xs : list A) : M S :=
  match xs with
  | [] => ret s
  | x :: xs' => s' ← body s x; foldM body s' xs'
  end.

(** [s.includes(sub)] *)
Fixpoint includes (sub s : string) : bool :=
  String.prefix sub s ||
  match s with
  | EmptyString => false
  | String _ s' => includes sub s'
  end.

(** [s.replace(pattern, replacement)] with a string pattern: the first
    occurrence is replaced. *)
Fixpoint replaceFirst (pattern replacement s : string) : string :=
  if String.prefix pattern s
  then replacement +:+
       String.substring (String.length pattern)
         (String.length s - String.length pattern) s
  else match s with
       | EmptyString => EmptyString
       | String c s' => String c (replaceFirst pattern replacement s')
       end.

(** [xs.pop()]: the last element and what is left of the array. *)
Definition pop (xs : list string) : option (list string * string) :=
  match reverse xs with
  | [] => None
  | x :: rest => Some (reverse rest, x)
  end.

(** The hints of the locale errors: the pointers to the platforms'
    documentation, and what Alexa says of a two-letter locale. *)
Definition alexaLanguagesDoc : string :=
  "For more information on multiple language support: https://developer.amazon.com/en-US/docs/alexa/custom-skills/develop-skills-in-multiple-languages.html".

Definition alexaGenericLocalesHint : string :=
  "Alexa does not support generic locales, please specify locales in your project configuration.".

Definition googleLanguagesDoc : string :=
  "For more information on multiple language support: https://developers.google.com/assistant/console/languages-locales".

(** ** The Alexa build hook ([platform-alexa/src/cli/hooks/BuildHook.ts]) *)

Module Alexa.
Section hook.
Context `{Externals}.
Variable plugin : Plugin.
Variable project : Project.
Variable ctx : Context.

(** The error of [validateLocales]. *)
Definition unsupportedLocale (resolvedLocale : string) : JovoCliError :=
  {| message :=
       "Locale " +:+ printHighlight resolvedLocale +:+
       " is not supported by Amazon Alexa.";
     module := plugin_id plugin;
     hint :=
       Some (if String.length resolvedLocale =? 2
             then alexaGenericLocalesHint
             else alexaLanguagesDoc) |}.

(** The inner loop of [validateLocales], over the locales one requested
    locale resolves to. *)
Fixpoint validateResolvedLocales (resolvedLocales : list string)
  : result unit :=
  match resolvedLocales with
  | [] => Ok tt
  | resolvedLocale :: rest =>
      if bool_decide (resolvedLocale ∈ supportedLocales plugin)
      then validateResolvedLocales rest
      else Throws (CliError (unsupportedLocale resolvedLocale))
  end.

(** The outer loop of [validateLocales]. *)
Fixpoint validateLocalesOf (locales : list string) : result unit :=
  match locales with
  | [] => Ok tt
  | locale :: rest =>
      match validateResolvedLocales (getResolvedLocales plugin locale) with
      | Ok _ => validateLocalesOf rest
      | Throws e => Throws e
      end
  end.

Definition validateLocales : result unit :=
  validateLocalesOf (locales ctx).

(** [validateModels]: one task per locale, run in order. *)
Definition validateModels : M unit :=
  forEach (locales ctx) validateModel.

Definition checkForCleanBuild : M unit :=
  if clean (flags ctx) then deleteFolderRecursive alexaPlatformPath
  else ret tt.

(** The handlers [install] registers for [before.build]. *)
Definition beforeBuild : list (M unit) :=
  [checkForCleanBuild; lift validateLocales; validateModels].

(** [getJovoModel(locale)] *)
Definition getJovoModel (locale : string) : M jsval :=
  model ← project_getModel locale;
  let model :=
    _mergeWith model
      (jsOr (getParameter project ["languageModel"; locale]) (VObj ∅))
      mergeArrayCustomizer in
  let model :=
    _mergeWith model
      (_get (config plugin) ["options"; "languageModel"; locale] (VObj ∅))
      mergeArrayCustomizer in
  ret model.

Definition couldNotBuild (locale : string) : JovoCliError :=
  {| message :=
       "Could not build Alexa files for locale " +:+ dquote +:+ locale +:+
       dquote +:+ "!";
     module := plugin_name plugin;
     hint := None |}.

(** The body of the loop of [buildLanguageModel]. *)
Definition buildLocale (model : jsval) (locale : string) : M unit :=
  alexaModelFiles ← lift (alexaExportNative model locale);
  match alexaModelFiles with
  | None | Some [] => throw (CliError (couldNotBuild locale))
  | Some (file :: _) =>
      dirExists ← existsSync alexaModelsPath;
      (if negb dirExists then mkdirSync alexaModelsPath else ret tt);;
      match JSON_stringify (content file) with
      | Some text => writeFileSync (alexaModelPath locale) text
      | None =>
          (* [JSON.stringify] gave [undefined] *)
          throw (JsError (invalidDataMessage VUndef))
      end
  end.

(** [buildLanguageModel(modelLocale, resolvedLocales)] *)
Definition buildLanguageModel (modelLocale : string)
  (resolvedLocales : list string) : M unit :=
  model ← getJovoModel modelLocale;
  tryCatch (forEach resolvedLocales (buildLocale model))
    (λ error,
       match error with
       | CliError _ => throw error
       | _ =>
           throw (CliError {| message := exn_message error;
                              module := plugin_name plugin;
                              hint := None |})
       end).

(** [getPlatformModel(locale)] *)
Definition getPlatformModel (locale : string) : M jsval :=
  text ← readFileSync (alexaModelPath locale);
  lift (JSON_parse text).

Definition noValidData : JovoCliError :=
  {| message := "Alexa files did not contain any valid data.";
     module := plugin_name plugin;
     hint := None |}.

(** The task [buildReverse] creates for one locale. *)
Definition buildReverseLocale (locale : string) : M unit :=
  platformModel ← getPlatformModel locale;
  let alexaModelFiles :=
    [ {| nf_path := []; content := platformModel |} ] in
  nativeData ← lift (alexaImportNative alexaModelFiles locale);
  modelFile ← tryCatch (project_getModel locale)
                (λ _, ret (VObj {[ "invocation" := VStr "" ]}));
  if negb (truthy nativeData) then throw (CliError noValidData)
  else project_saveModel (_merge modelFile nativeData) locale.

(** [getPluginEndpoint()] *)
Definition getPluginEndpoint : string :=
  resolveEndpoint
    (jsOr (_get (config plugin) ["options"; "endpoint"] VUndef)
       (getParameter project ["endpoint"])).

(** The paths of [createAlexaProjectFiles], split as [stringToPath] splits
    them; the locale is one key (it holds no dot or bracket). *)
Definition endpointPath : path :=
  ["skill-package/"; "skill.json"; "manifest"; "apis"; "custom"; "endpoint"].
Definition skillIdPath : path :=
  [".ask/"; "ask-states.json"; "profiles"; "default"; "skillId"].
Definition publishingInformationPath (locale : string) : path :=
  ["skill-package/"; "skill.json"; "manifest"; "publishingInformation";
   "locales"; locale].
Definition privacyAndCompliancePath (locale : string) : path :=
  ["skill-package/"; "skill.json"; "manifest"; "privacyAndCompliance";
   "locales"; locale].

Definition endpointValue (endpoint : string) : jsval :=
  VObj {[ "sslCertificateType" :=
            (if negb (String.prefix "arn" endpoint)
             then VStr "Wildcard" else VNull);
          "uri" := VStr endpoint ]}.

Definition publishingInformation (skillName : string) : jsval :=
  VObj {[ "summary" := VStr "Sample Short Description";
          "examplePhrases" := arr [VStr "Alexa open hello world"];
          "keywords" := arr [VStr "hello"; VStr "world"];
          "name" := VStr skillName;
          "description" := VStr "Sample Full Description";
          "smallIconUri" := VStr "https://via.placeholder.com/108/09f/09f.png";
          "largeIconUri" := VStr "https://via.placeholder.com/512/09f/09f.png" ]}.

Definition privacyAndCompliance : jsval :=
  VObj {[ "privacyPolicyUrl" := VStr "http://example.com/policy";
          "termsOfUseUrl" := VStr "" ]}.

(** The body of the loop over the resolved locales. *)
Definition localeFiles (skillName : string) (projectFiles : jsval)
  (locale : string) : jsval :=
  let projectFiles :=
    setIfMissing projectFiles (publishingInformationPath locale)
      (publishingInformation skillName) in
  setIfMissing projectFiles (privacyAndCompliancePath locale)
    privacyAndCompliance.

(** [createAlexaProjectFiles()]: the tree handed to
    [FileBuilder.buildDirectory]. *)
Definition createAlexaProjectFiles : jsval :=
  let files :=
    normalizeFileObject (_get (config plugin) ["files"] (VObj ∅)) in
  let projectFiles :=
    if hasPlatform project then files else _merge alexaDefaultFiles files in
  let endpoint := getPluginEndpoint in
  let projectFiles :=
    if negb (String.eqb endpoint "") && negb (_has projectFiles endpointPath)
    then _set projectFiles endpointPath (endpointValue endpoint)
    else projectFiles in
  let skillId := _get (config plugin) ["options"; "skillId"] VUndef in
  let projectFiles :=
    if truthy skillId && negb (_has projectFiles skillIdPath)
    then _set projectFiles skillIdPath skillId
    else projectFiles in
  let skillName := projectName project in
  let locales := flat_map (getResolvedLocales plugin) (locales ctx) in
  fold_left (localeFiles skillName) locales projectFiles.
End hook.
End Alexa.

(** ** The Google Conversational Actions build hook
    ([platform-googleassistantconv/src/cli/hooks/BuildHook.ts]) *)

Module Google.
Section hook.
Context `{Externals}.
Variable plugin : Plugin.
Variable project : Project.
Variable ctx : Context.

Definition noProjectId : JovoCliError :=
  {| message := "Could not find projectId.";
     module := plugin_name plugin;
     hint := Some ("Please provide a project id by using the flag " +:+
                   dquote +:+ "--project-id" +:+ dquote +:+
                   " or in your project configuration.") |}.

(** [updatePluginContext()]: the context it leaves. *)
Definition updatePluginContext : result Context :=
  if negb (String.eqb (command ctx) "build") then Ok ctx
  else
    let projectId :=
      jsOr (flag_project_id (flags ctx))
        (_get (config plugin) ["projectId"] VUndef) in
    if negb (truthy projectId) then Throws (CliError noProjectId)
    else Ok {| command := command ctx; locales := locales ctx;
               platforms := platforms ctx; flags := flags ctx;
               defaultLocale := defaultLocale ctx;
               projectId := projectId |}.

Definition checkForCleanBuild : M unit :=
  if clean (flags ctx) then deleteFolderRecursive googlePlatformPath
  else ret tt.

(** The two errors of [validateLocales]. *)
Definition genericLocaleRequired (locale genericLocale : string)
  : JovoCliError :=
  {| message :=
       "Locale " +:+ printHighlight locale +:+
       " requires a generic locale " +:+ printHighlight genericLocale +:+
       ".";
     module := plugin_name plugin;
     hint := None |}.

Definition unsupportedLocale (locale : string) : JovoCliError :=
  {| message :=
       "Locale " +:+ printHighlight locale +:+
       " is not supported by Google Conversational Actions.";
     module := plugin_name plugin;
     hint := Some googleLanguagesDoc |}.

(** The body of the loop of [validateLocales]; [locales] are all the
    resolved locales. *)
Definition checkLocale (locales : list string) (locale : string)
  : result unit :=
  let genericLocale := String.substring 0 2 locale in
  if bool_decide (genericLocale ∈ SUPPORTED_LOCALES)
     && negb (bool_decide (genericLocale ∈ locales))
  then Throws (CliError (genericLocaleRequired locale genericLocale))
  else if negb (bool_decide (locale ∈ SUPPORTED_LOCALES))
  then Throws (CliError (unsupportedLocale locale))
  else Ok tt.

Fixpoint checkLocales (locales : list string) (rest : list string)
  : result unit :=
  match rest with
  | [] => Ok tt
  | locale :: rest' =>
      match checkLocale locales locale with
      | Ok _ => checkLocales locales rest'
      | Throws e => Throws e
      end
  end.

Definition validateLocales : result unit :=
  let locales := flat_map (getResolvedLocales plugin) (locales ctx) in
  checkLocales locales locales.

Definition validateModels : M unit :=
  forEach (locales ctx) validateModel.

(** The handlers [install] registers for [before.build]. *)
Definition beforeBuild : list (M unit) :=
  [ lift (match updatePluginContext with
          | Ok _ => Ok tt
          | Throws e => Throws e
          end);
    checkForCleanBuild; lift validateLocales; validateModels ].

Definition noDefaultLocale : JovoCliError :=
  {| message := "Could not find a default locale.";
     module := plugin_name plugin;
     hint := Some ("Try adding the property " +:+ dquote +:+
                   "defaultLocale" +:+ dquote +:+ " to your project.js.") |}.

(** [getDefaultLocale(locales?)]; [None] is a call without the array.
    [locales[0]] of an empty array is [undefined]. *)
Definition getDefaultLocale (locales : option (list string))
  : result jsval :=
  let defaultLocale :=
    jsOr (_get (config plugin)
            ["files"; "settings/"; "settings.yaml"; "defaultLocale"] VUndef)
      (_get (config plugin) ["defaultLocale"] VUndef) in
  match locales with
  | Some locales =>
      if negb (truthy defaultLocale) then
        match find (includes "en") locales with
        | Some locale => Ok (VStr locale)
        | None =>
            Ok (match locales with
                | locale :: _ => VStr locale
                | [] => VUndef
                end)
        end
      else Ok defaultLocale
  | None =>
      if negb (truthy defaultLocale) then Throws (CliError noDefaultLocale)
      else Ok defaultLocale
  end.

(** [getPluginEndpoint()] *)
Definition getPluginEndpoint : string :=
  resolveEndpoint
    (jsOr (_get (config plugin) ["endpoint"] VUndef)
       (_get (projectConfig project) ["endpoint"] VUndef)).

(** [getProjectActions()] *)
Definition getProjectActions : jsval :=
  _get (config plugin) ["options"; "actions/"] VUndef.

(** [getModel(locale)] *)
Definition getModel (locale : string) : M jsval :=
  model ← project_getModel locale;
  let model :=
    _mergeWith model
      (jsOr (getParameter project ["languageModel"; locale]) (VObj ∅))
      mergeArrayCustomizer in
  let model :=
    _mergeWith model
      (_get (config plugin) ["languageModel"; locale] (VObj ∅))
      mergeArrayCustomizer in
  ret model.

Definition noInvocationName (locale : string) : JovoCliError :=
  {| message := "Can't find invocation name for locale " +:+ locale +:+ ".";
     module := plugin_name plugin;
     hint := None |}.

(** [getInvocationName(locale)].  [typeof invocation === 'object'] holds
    of objects, arrays and [null]; reading a property of [null] throws. *)
Definition getInvocationName (locale : string) : M jsval :=
  model ← getModel locale;
  let invocation := getKey model "invocation" in
  match invocation with
  | VNull => throw (JsError "Cannot read properties of null")
  | VObj _ | VArr _ _ =>
      let platformInvocation := getKey invocation (plugin_name plugin) in
      if negb (truthy platformInvocation)
      then throw (CliError (noInvocationName locale))
      else ret platformInvocation
  | _ => ret invocation
  end.

(** The paths of [createGoogleProjectFiles], split as [stringToPath]
    splits them; a locale holds no dot or bracket. *)
Definition webhookPath : path :=
  ["webhooks/"; "ActionsOnGoogleFulfillment.yaml"].

Definition settingsPath (resolvedLocale : string) : path :=
  ["settings/"] ++
  (if negb (jsval_eqb (VStr resolvedLocale) (defaultLocale ctx))
   then [resolvedLocale +:+ "/"] else []) ++
  ["settings.yaml"].

Definition defaultHandler : jsval :=
  VObj {[ "handlers" := arr [VObj {[ "name" := VStr "Jovo" ]}];
          "httpsEndpoint" := VObj {[ "baseUrl" := VStr getPluginEndpoint ]} ]}.

(** The body of the inner loop of [createGoogleProjectFiles]; [locale] is
    the requested locale [resolvedLocale] comes from. *)
Definition localeSettings (locale : string) (projectFiles : jsval)
  (resolvedLocale : string) : M jsval :=
  let settingsPath := settingsPath resolvedLocale in
  let projectFiles :=
    if jsval_eqb (VStr resolvedLocale) (defaultLocale ctx) then
      let projectFiles :=
        setIfMissing projectFiles (settingsPath ++ ["defaultLocale"])
          (defaultLocale ctx) in
      setIfMissing projectFiles (settingsPath ++ ["projectId"])
        (projectId ctx)
    else projectFiles in
  let localizedSettingsPath := settingsPath ++ ["localizedSettings"] in
  invocationName ← getInvocationName locale;
  let projectFiles :=
    setIfMissing projectFiles (localizedSettingsPath ++ ["displayName"])
      invocationName in
  ret (setIfMissing projectFiles (localizedSettingsPath ++ ["pronunciation"])
         invocationName).

(** [createGoogleProjectFiles()]: the tree handed to
    [FileBuilder.buildDirectory]. *)
Definition createGoogleProjectFiles : M jsval :=
  let files :=
    normalizeFileObject (_get (config plugin) ["files"] (VObj ∅)) in
  let projectFiles :=
    if hasPlatform project then files else _merge googleDefaultFiles files in
  let endpoint := getPluginEndpoint in
  let projectFiles :=
    if negb (String.eqb endpoint "") && negb (_has projectFiles webhookPath)
    then _set projectFiles webhookPath defaultHandler
    else projectFiles in
  foldM
    (λ projectFiles locale,
       foldM (localeSettings locale) projectFiles
         (getResolvedLocales plugin locale))
    projectFiles (locales ctx).

(** [actions] before any intent is registered. *)
Definition mainActions : jsval :=
  VObj {[ "custom" := VObj {[ "actions.intent.MAIN" := VObj ∅ ]} ]}.

Definition ensureDir (p : path) : M unit :=
  dirExists ← existsSync p;
  if negb dirExists then mkdirSync p else ret tt.

(** The body of the loop over the files of one locale: the file is
    written and, if it is an intent, registered in [actions]. *)
Definition buildFile (actions : jsval) (file : NativeFileInformation)
  : M jsval :=
  match pop (nf_path file) with
  | None =>
      (* [fileName] is [undefined]: [joinPaths(modelPath, fileName)]
         throws after the directory has been looked after *)
      ensureDir googlePlatformPath;;
      throw (JsError invalidPathMessage)
  | Some (filePath, fileName) =>
      let modelPath := googlePlatformPath ++ filePath in
      ensureDir modelPath;;
      let actions :=
        if bool_decide ("intents" ∈ filePath)
        then setKey actions "custom"
               (setKey (getKey actions "custom")
                  (replaceFirst ".yaml" "" fileName) (VObj ∅))
        else actions in
      match content file with
      | VStr text =>
          writeFileSync (modelPath ++ [fileName]) (RawText text);;
          ret actions
      | data => throw (JsError (invalidDataMessage data))
      end
  end.

(** The body of the loop of [buildLanguageModel]. *)
Definition buildLocale (model : jsval) (locale : string) : M unit :=
  modelFiles ← lift (googleExportNative model locale (defaultLocale ctx));
  match modelFiles with
  | None => throw (JsError "modelFiles is not iterable")
  | Some modelFiles =>
      actions ← foldM buildFile mainActions modelFiles;
      let actions := _merge actions getProjectActions in
      let actionsPath := googlePlatformPath ++ ["actions"] in
      ensureDir actionsPath;;
      writeFileSync (actionsPath ++ ["actions.yaml"]) (YamlText actions)
  end.

(** [buildLanguageModel(modelLocale, resolvedLocales)] *)
Definition buildLanguageModel (modelLocale : string)
  (resolvedLocales : list string) : M unit :=
  model ← getModel modelLocale;
  forEach resolvedLocales (buildLocale model).
End hook.
End Google.

(** ** [JovoUser] ([framework/src/JovoUser.ts]) *)

Module JovoUser.
Section user.
(** The request-scoped [Jovo] object and the representation of [Date]. *)
Variables Jovo Date : Type.

(** [UserData] is a plain object. *)
Record PersistableUserData := { data : jsval }.

(** The fields of a user; [id] is abstract in [JovoUser] and given by the
    platform's subclass. *)
Record JovoUser := {
  createdAt : Date;
  updatedAt : Date;
  _data : jsval;                          (* $data *)
  jovo : Jovo;
  id : string;
  isNew : bool;
}.

Definition getPersistableData (user : JovoUser) : PersistableUserData :=
  {| data := _data user |}.

(** [this.$data = data.data; return this] *)
Definition setPersistableData (user : JovoUser) (d : PersistableUserData)
  : JovoUser :=
  {| createdAt := createdAt user;
     updatedAt := updatedAt user;
     _data := data d;
     jovo := jovo user;
     id := id user;
     isNew := isNew user |}.

Definition getDefaultPersistableData (user : JovoUser)
  : PersistableUserData :=
  {| data := VObj ∅ |}.
End user.
End JovoUser.

(** ** The locales of the reverse build of Alexa
    ([platform-alexa/src/cli/hooks/BuildHook.ts]) *)

(** A line terminator, which the dot of a regular expression does not
    match.  Strings here hold one character per code unit below 256, so the
    line and paragraph separators do not occur. *)
Definition isLineTerminator (c : ascii) : bool :=
  bool_decide (c ∈ ["010"; "013"]%char).

(** [[^.]+$]: one or more characters other than a dot, up to the end. *)
Fixpoint noDot (s : string) : bool :=
  match s with
  | EmptyString => true
  | String c s' => negb (Ascii.eqb c ".") && noDot s'
  end.

Definition isExtension (s : string) : bool :=
  negb (String.eqb s "") && noDot s.

(** [localeRegex] tried at the start of [s], with what its group captures.
    The expression is a greedy group of any characters but line terminators,
    a dot, and one or more characters other than a dot up to the end.  The
    group takes the next character if it can and the rest matches, and gives
    way to the dot and the extension otherwise. *)
Fixpoint matchHere (s : string) : option string :=
  match s with
  | EmptyString => None
  | String c s' =>
      match (if isLineTerminator c then None else matchHere s') with
      | Some group => Some (String c group)
      | None =>
          if Ascii.eqb c "." && isExtension s' then Some EmptyString
          else None
      end
  end.

(** [localeRegex.exec(file)]: the match that starts first. *)
Fixpoint exec (file : string) : option string :=
  match matchHere file with
  | Some group => Some group
  | None =>
      match file with
      | EmptyString => None
      | String _ file' => exec file'
      end
  end.

Module AlexaReverse.
Section hook.
Context `{Externals}.
Variable plugin : Plugin.
Variable ctx : Context.
(** [readdirSync] of [fs]: the names of the entries of a directory, in the
    order the file system gives them. *)
Variable readdirSync : path → M (list string).

(** The callback of [getPlatformLocales]: a file name without its
    extension. *)
Definition localeOfFile (file : string) : string :=
  match exec file with
  | None => file
  | Some group => group
  end.

(** [getPlatformLocales()] *)
Definition getPlatformLocales : M (list string) :=
  files ← readdirSync alexaModelsPath;
  ret (map localeOfFile files).

(** The error of [buildReverse] for a locale without platform files. *)
Definition platformModelsNotFound (locale : string)
  (platformLocales : list string) : JovoCliError :=
  {| message :=
       "Could not find platform models for locale: " +:+
       printHighlight locale;
     module := plugin_name plugin;
     hint := Some ("Available locales include: " +:+
                   String.concat ", " platformLocales) |}.

(** The loop of [buildReverse] over [flags.locale]; [locales] is the array
    filled so far. *)
Fixpoint pushLocales (platformLocales locales flagLocales : list string)
  : result (list string) :=
  match flagLocales with
  | [] => Ok locales
  | locale :: rest =>
      if bool_decide (locale ∈ platformLocales)
      then pushLocales platformLocales (locales ++ [locale]) rest
      else Throws (CliError (platformModelsNotFound locale platformLocales))
  end.

(** The locales [buildReverse] builds from. *)
Definition reverseLocales (platformLocales : list string)
  : result (list string) :=
  match flag_locale (flags ctx) with
  | None => Ok ([] ++ platformLocales)
  | Some flagLocales => pushLocales platformLocales [] flagLocales
  end.
End hook.
End AlexaReverse.

(** ** [AlexaUser] ([platform-alexa/src/AlexaUser.ts]) *)
Module AlexaUser.
(** [get id()]: [request] is [this.jovo.$request]. *)
Definition id (request : jsval) : jsval :=
  jsOr (getKey (getKey (getKey request "session") "user") "userId")
    (VStr "AlexaUser").
End AlexaUser.

(** ** Vocabulary of the statements *)

(** The own property of a container under a key. *)
Definition ownProp (o : jsval) (k : string) : option jsval :=
  match o with
  | VObj ps => ps !! k
  | VArr xs ps =>
      match arrayIndex k with Some i => xs !! i | None => ps !! k end
  | _ => None
  end.

(** What a key holds after a source value was merged into it: an
    [undefined] result leaves the key as it was. *)
Definition pick (old new : jsval) : jsval :=
  if isUndef new then old else new.

(** Two paths part ways: after a common prefix they go on with different
    keys. *)
Definition diverge (p q : path) : Prop :=
  ∃ c k1 k2 p' q', p = c ++ k1 :: p' ∧ q = c ++ k2 :: q' ∧ k1 ≠ k2.


(** The size of a value, for induction on values. *)
Fixpoint jsize (v : jsval) : nat :=
  match v with
  | VArr xs ps =>
      S (foldr (λ x n, jsize x + n) 0 xs
         + map_fold (λ _ x n, jsize x + n) 0 ps)
  | VObj ps => S (map_fold (λ _ x n, jsize x + n) 0 ps)
  | _ => 1
  end.

(** The source and every value met along the keys is an object. *)
Fixpoint objectsAlong (source : jsval) (keys : path) : Prop :=
  match source with
  | VObj _ =>
      match keys with
      | [] => True
      | key :: rest => objectsAlong (getKey source key) rest
      end
  | _ => False
  end.

(** [s] contains the substring [sub]. *)
Definition contains (sub s : string) : Prop :=
  ∃ before after, s = before +:+ sub +:+ after.

(** The first element of a list that satisfies [P]. *)
Definition firstSuch {A} (P : A → Prop) (xs : list A) (x : A) : Prop :=
  ∃ before after, xs = before ++ x :: after ∧ P x ∧ Forall (λ y, ¬ P y) before.

(** The paths at which [createAlexaProjectFiles] writes a generated value
    unless one is there: the endpoint, the skill id and, for every resolved
    locale, the publishing information and the privacy and compliance
    information. *)
Definition alexaGeneratedPaths (plugin : Plugin) (ctx : Context)
  : list path :=
  Alexa.endpointPath :: Alexa.skillIdPath ::
  flat_map
    (λ locale, [Alexa.publishingInformationPath locale;
                Alexa.privacyAndCompliancePath locale])
    (flat_map (getResolvedLocales plugin) (locales ctx)).


(** No character is a line terminator. *)
Fixpoint noLineTerminator (s : string) : bool :=
  match s with
  | EmptyString => true
  | String c s' => negb (isLineTerminator c) && noLineTerminator s'
  end.


(** The text [buildLanguageModel] of Alexa writes for a locale: the JSON of
    the content of the first file the converter yields, if there is one. *)
Definition alexaModelText `{Externals} (model : jsval) (locale : string)
  : option fileData :=
  match alexaExportNative model locale with
  | Ok (Some (file :: _)) => JSON_stringify (content file)
  | _ => None
  end.

(** The files once the model files of the locales are written, one locale
    after the other. *)
Definition alexaModelFilesWritten `{Externals} (model : jsval)
  (locales : list string) (fs : gmap path fileData) : gmap path fileData :=
  fold_left
    (λ fs locale,
       match alexaModelText model locale with
       | Some text => <[alexaModelPath locale := text]> fs
       | None => fs
       end)
    locales fs.

(** The error with which [buildLanguageModel] of Alexa ends at a locale
    that gets no file: the converter's own error, made a [JovoCliError] if
    it is none, the error of a content that has no JSON text, or the error
    of a converter that yields no file. *)
Definition alexaBuildError `{Externals} (plugin : Plugin) (model : jsval)
  (locale : string) : JovoCliError :=
  match alexaExportNative model locale with
  | Throws (CliError e) => e
  | Throws (JsError msg) =>
      {| message := msg; module := plugin_name plugin; hint := None |}
  | Ok (Some (_ :: _)) =>
      {| message := invalidDataMessage VUndef;
         module := plugin_name plugin; hint := None |}
  | Ok _ => Alexa.couldNotBuild plugin locale
  end.


(** What one round of the inner loop of [createGoogleProjectFiles] writes
    for a resolved locale, once the invocation name is known. *)
Definition googleLocaleWrites (ctx : Context) (resolvedLocale : string)
  (invocationName projectFiles : jsval) : jsval :=
  let settingsPath := Google.settingsPath ctx resolvedLocale in
  setIfMissing
    (setIfMissing
       (if jsval_eqb (VStr resolvedLocale) (defaultLocale ctx)
        then setIfMissing
               (setIfMissing projectFiles
                  (settingsPath ++ ["defaultLocale"]) (defaultLocale ctx))
               (settingsPath ++ ["projectId"]) (projectId ctx)
        else projectFiles)
       ((settingsPath ++ ["localizedSettings"]) ++ ["displayName"])
       invocationName)
    ((settingsPath ++ ["localizedSettings"]) ++ ["pronunciation"])
    invocationName.

(** The invocation name [getInvocationName] finds for a locale in a world,
    [undefined] if it throws. *)
Definition googleInvocationOf `{Externals} (plugin : Plugin)
  (project : Project) (w : World) (locale : string) : jsval :=
  match (Google.getInvocationName plugin project locale w).2 with
  | Ok name => name
  | Throws _ => VUndef
  end.

(** The writes of the inner loop of [createGoogleProjectFiles], over the
    resolved locales of one requested locale. *)
Definition googleResolvedWritten (ctx : Context) (invocationName : jsval)
  (resolvedLocales : list string) (projectFiles : jsval) : jsval :=
  fold_left
    (λ projectFiles resolvedLocale,
       googleLocaleWrites ctx resolvedLocale invocationName projectFiles)
    resolvedLocales projectFiles.

(** The writes of [createGoogleProjectFiles] for the requested locales, one
    resolved locale after the other, with the invocation names [nameOf]
    gives. *)
Definition googleLocalesWritten (plugin : Plugin) (ctx : Context)
  (nameOf : string → jsval) (locales : list string) (projectFiles : jsval)
  : jsval :=
  fold_left
    (λ projectFiles locale,
       googleResolvedWritten ctx (nameOf locale)
         (getResolvedLocales plugin locale) projectFiles)
    locales projectFiles.

(** What [buildLanguageModel] of Google registers in [actions] for a file:
    a file below [intents] is registered under its name without the first
    [.yaml]. *)
Definition googleRegistered (actions : jsval) (file : NativeFileInformation)
  : jsval :=
  match pop (nf_path file) with
  | Some (filePath, fileName) =>
      if bool_decide ("intents" ∈ filePath)
      then setKey actions "custom"
             (setKey (getKey actions "custom")
                (replaceFirst ".yaml" "" fileName) (VObj ∅))
      else actions
  | None => actions
  end.

(** The names under which the intent files among the files are
    registered. *)
Definition googleIntentNames (files : list NativeFileInformation)
  : list string :=
  flat_map
    (λ file,
       match pop (nf_path file) with
       | Some (filePath, fileName) =>
           if bool_decide ("intents" ∈ filePath)
           then [replaceFirst ".yaml" "" fileName] else []
       | None => []
       end)
    files.

(** ** Example collaborators and inputs

    A small stand-in for the collaborators, used where a statement is
    exercised on concrete input: highlighting leaves a locale as it is, the
    Alexa converter wraps the invocation name and the intents into an
    interaction model and unwraps them again, the Google converter yields one
    file per intent. *)

Definition exampleAlexaExport (model : jsval) (locale : string)
  : result (option (list NativeFileInformation)) :=
  Ok (Some
    [ {| nf_path := [locale +:+ ".json"];
         content :=
           VObj {[ "interactionModel" :=
             VObj {[ "languageModel" :=
               VObj {[ "invocationName" := getKey model "invocation";
                       "intents" := getKey model "intents" ]} ]} ]} |} ]).

Definition exampleAlexaImport (files : list NativeFileInformation)
  (locale : string) : result jsval :=
  Ok (match files with
      | file :: _ =>
          let languageModel :=
            baseGet (content file) ["interactionModel"; "languageModel"] in
          if isObject languageModel
          then VObj {[ "invocation" := getKey languageModel "invocationName";
                       "intents" := getKey languageModel "intents" ]}
          else VUndef
      | [] => VUndef
      end).

Definition exampleGoogleExport (model : jsval) (locale : string)
  (defaultLocale : jsval) : result (option (list NativeFileInformation)) :=
  Ok (Some
    (match getKey model "intents" with
     | VArr intents _ =>
         map (λ intent,
                {| nf_path :=
                     ["custom"; "intents";
                      (match getKey intent "name" with
                       | VStr name => name
                       | _ => "intent"
                       end) +:+ ".yaml"];
                   content := VStr "trainingPhrases: []" |}) intents
     | _ => []
     end)).

(** The example collaborators, for a Google plugin with the given
    supported locales. *)
Definition exampleExternalsFor (supported : list string) : Externals := {|
  printHighlight := id;
  alexaExportNative := exampleAlexaExport;
  alexaImportNative := exampleAlexaImport;
  googleExportNative := exampleGoogleExport;
  resolveEndpoint := λ endpoint,
    match endpoint with VStr url => url | _ => "" end;
  normalizeFileObject := id;
  validateModel := λ _, ret tt;
  modelNotFound := λ locale,
    JsError ("Could not find model file for locale: " +:+ locale);
  fileNotFound := λ _, JsError "ENOENT: no such file or directory";
  determineSpecificType := λ value,
    match value with
    | VBool b =>
        "type boolean (" +:+ (if b then "true" else "false") +:+ ")"
    | VNum n => "type number (" +:+ NilZero.string_of_int (Z.to_int n) +:+ ")"
    | VStr s => "type string ('" +:+ s +:+ "')"
    | VArr _ _ => "an instance of Array"
    | _ => "an instance of Object"
    end;
  alexaDefaultFiles := VObj ∅;
  googleDefaultFiles := VObj ∅;
  SUPPORTED_LOCALES := supported;
  alexaPlatformPath := ["build"; "platform.alexa"];
  alexaModelsPath :=
    ["build"; "platform.alexa"; "skill-package"; "interactionModels";
     "custom"];
  alexaModelPath := λ locale,
    ["build"; "platform.alexa"; "skill-package"; "interactionModels";
     "custom"; locale +:+ ".json"];
  googlePlatformPath := ["build"; "platform.googleAssistantConversational"];
|}.

Definition exampleExternals : Externals :=
  exampleExternalsFor ["en"; "en-US"; "en-GB"; "de"; "de-DE"].

(** The same collaborators with other default files for the two plugins. *)
Definition withDefaultFiles (E : Externals) (alexa google : jsval)
  : Externals := {|
  printHighlight := @printHighlight E;
  alexaExportNative := @alexaExportNative E;
  alexaImportNative := @alexaImportNative E;
  googleExportNative := @googleExportNative E;
  resolveEndpoint := @resolveEndpoint E;
  normalizeFileObject := @normalizeFileObject E;
  validateModel := @validateModel E;
  modelNotFound := @modelNotFound E;
  fileNotFound := @fileNotFound E;
  determineSpecificType := @determineSpecificType E;
  alexaDefaultFiles := alexa;
  googleDefaultFiles := google;
  SUPPORTED_LOCALES := @SUPPORTED_LOCALES E;
  alexaPlatformPath := @alexaPlatformPath E;
  alexaModelsPath := @alexaModelsPath E;
  alexaModelPath := @alexaModelPath E;
  googlePlatformPath := @googlePlatformPath E;
|}.

(** A project whose platform folder has not been built yet. *)
Definition freshProject : Project :=
  {| projectConfig := VObj ∅; projectName := "hello-world";
     hasPlatform := false |}.

(** A skill manifest that lists the countries of distribution. *)
Definition manifestWithCountries (countries : list string) : jsval :=
  VObj {[ "skill-package/" := VObj {[ "skill.json" := VObj {[ "manifest" :=
    VObj {[ "publishingInformation" :=
      VObj {[ "distributionCountries" := arr (VStr <$> countries) ]} ]} ]} ]} ]}.

Definition distributionCountriesPath : path :=
  ["skill-package/"; "skill.json"; "manifest"; "publishingInformation";
   "distributionCountries"].


(** User files that set the publishing information of one locale. *)
Definition filesWithPublishingInformation (locale name : string) : jsval :=
  VObj {[ "skill-package/" := VObj {[ "skill.json" := VObj {[ "manifest" :=
    VObj {[ "publishingInformation" := VObj {[ "locales" :=
      VObj {[ locale := VObj {[ "name" := VStr name ]} ]} ]} ]} ]} ]} ]}.


(** A world with one model file. *)
Definition worldWithModel (locale : string) (model : jsval) : World :=
  {| files := ∅; dirs := ∅; models := {[ locale := model ]} |}.

Definition exampleFlags : Flags :=
  {| clean := false; force := false; flag_locale := None;
     flag_platform := None; flag_project_id := VUndef |}.

(** A build context for the requested locales. *)
Definition exampleContext (locales : list string) : Context :=
  {| command := "build"; locales := locales; platforms := [];
     flags := exampleFlags; defaultLocale := VUndef; projectId := VUndef |}.

(** A plugin with the given supported locales, configuration and locale
    table. *)
Definition examplePlugin (supported : list string) (config : jsval)
  (table : gmap string (list string)) : Plugin :=
  {| plugin_id := "example"; plugin_name := "ExampleCli";
     supportedLocales := supported; config := config;
     localeTable := table |}.

Definition exampleProject : Project :=
  {| projectConfig := VObj ∅; projectName := "hello-world";
     hasPlatform := true |}.

Definition emptyWorld : World := {| files := ∅; dirs := ∅; models := ∅ |}.



(** The same collaborators with another Alexa converter. *)
Definition withAlexaExport (E : Externals)
  (export : jsval → string → result (option (list NativeFileInformation)))
  : Externals := {|
  printHighlight := @printHighlight E;
  alexaExportNative := export;
  alexaImportNative := @alexaImportNative E;
  googleExportNative := @googleExportNative E;
  resolveEndpoint := @resolveEndpoint E;
  normalizeFileObject := @normalizeFileObject E;
  validateModel := @validateModel E;
  modelNotFound := @modelNotFound E;
  fileNotFound := @fileNotFound E;
  determineSpecificType := @determineSpecificType E;
  alexaDefaultFiles := @alexaDefaultFiles E;
  googleDefaultFiles := @googleDefaultFiles E;
  SUPPORTED_LOCALES := @SUPPORTED_LOCALES E;
  alexaPlatformPath := @alexaPlatformPath E;
  alexaModelsPath := @alexaModelsPath E;
  alexaModelPath := @alexaModelPath E;
  googlePlatformPath := @googlePlatformPath E;
|}.



(** * Properties *)

(** ** Keys *)

Lemma unorm_to_uint (i : nat) : unorm (Nat.to_uint i) = Nat.to_uint i.
Proof.
  rewrite <- (Unsigned.of_to i) at 2. by rewrite Unsigned.to_of.
Qed.

Lemma uint_beq_refl (d : uint) : uint_beq d d = true.
Proof. by apply internal_uint_dec_lb. Qed.

Lemma arrayIndex_keyOfIndex (i : nat) : arrayIndex (keyOfIndex i) = Some i.
Proof.
  unfold arrayIndex, keyOfIndex. rewrite NilEmpty.usu, unorm_to_uint.
  by rewrite uint_beq_refl, Unsigned.of_to.
Qed.

Lemma arrayIndex_Some (k : string) (i : nat) :
  arrayIndex k = Some i → k = keyOfIndex i.
Proof.
  unfold arrayIndex, keyOfIndex.
  destruct (NilEmpty.uint_of_string k) as [d|] eqn:Hd; [|done].
  destruct (uint_beq (unorm d) d) eqn:Hn; [|done].
  intros [= <-]. apply internal_uint_dec_bl in Hn.
  rewrite Unsigned.to_of, Hn. symmetry. by apply NilEmpty.sus.
Qed.

Lemma arrayIndex_inj (k k' : string) (i : nat) :
  arrayIndex k = Some i → arrayIndex k' = Some i → k = k'.
Proof. intros ->%arrayIndex_Some ->%arrayIndex_Some. done. Qed.

Lemma keyOfIndex_inj (i j : nat) : keyOfIndex i = keyOfIndex j → i = j.
Proof.
  intros Heq. apply (inj Some).
  by rewrite <- (arrayIndex_keyOfIndex i), Heq, arrayIndex_keyOfIndex.
Qed.

(** ** Reading and writing one key *)

Lemma isObject_setKey (o : jsval) (k : string) (v : jsval) :
  isObject (setKey o k v) = isObject o.
Proof.
  destruct o; simpl; try done.
  destruct (arrayIndex k); [case_decide|]; done.
Qed.

Lemma getKey_setKey_eq (o : jsval) (k : string) (v : jsval) :
  isObject o = true → getKey (setKey o k v) k = v.
Proof.
  destruct o as [| | | | |xs ps|ps]; try done; intros _; simpl.
  - destruct (arrayIndex k) as [i|] eqn:Hk.
    + case_decide; simpl; rewrite Hk.
      * by rewrite list_lookup_insert_eq.
      * rewrite lookup_app_r by lia.
        rewrite lookup_app_r by (rewrite length_replicate; lia).
        rewrite length_replicate.
        by replace (i - length xs - (i - length xs)) with 0 by lia.
    + simpl. rewrite Hk. by rewrite lookup_insert_eq.
  - by rewrite lookup_insert_eq.
Qed.

Lemma getKey_setKey_ne (o : jsval) (k k' : string) (v : jsval) :
  k ≠ k' → getKey (setKey o k v) k' = getKey o k'.
Proof.
  intros Hne. destruct o as [| | | | |xs ps|ps]; try done; simpl.
  - destruct (arrayIndex k) as [i|] eqn:Hk.
    + case_decide; simpl; destruct (arrayIndex k') as [i'|] eqn:Hk'; try done.
      * rewrite list_lookup_insert_ne; [done|].
        intros ->. by apply Hne, (arrayIndex_inj _ _ i').
      * assert (i ≠ i') by (intros ->; by apply Hne, (arrayIndex_inj _ _ i')).
        destruct (decide (i' < length xs)).
        { by rewrite lookup_app_l. }
        rewrite lookup_app_r by lia.
        rewrite (lookup_ge_None_2 xs) by lia. simpl.
        destruct (decide (i' < i)).
        { rewrite lookup_app_l by (rewrite length_replicate; lia).
          rewrite lookup_replicate_2; [done|lia]. }
        rewrite lookup_app_r by (rewrite length_replicate; lia).
        rewrite length_replicate.
        rewrite lookup_ge_None_2; [done|]. simpl. lia.
    + simpl. destruct (arrayIndex k'); [done|].
      by rewrite lookup_insert_ne.
  - by rewrite lookup_insert_ne.
Qed.

Lemma getKey_hasKey (o : jsval) (k : string) :
  getKey o k ≠ VUndef → hasKey o k = true.
Proof.
  destruct o as [| | | | |xs ps|ps]; simpl; try done.
  - destruct (arrayIndex k).
    + intros Hx. apply bool_decide_eq_true.
      destruct (xs !! n) eqn:E; [by eapply lookup_lt_Some|done].
    + intros Hx. apply bool_decide_eq_true.
      destruct (ps !! k); [eauto|done].
  - intros Hx. apply bool_decide_eq_true. destruct (ps !! k); [eauto|done].
Qed.

Lemma hasKey_isObject (o : jsval) (k : string) :
  hasKey o k = true → isObject o = true.
Proof. by destruct o. Qed.

Lemma hasKey_setKey_eq (o : jsval) (k : string) (v : jsval) :
  isObject o = true → hasKey (setKey o k v) k = true.
Proof.
  destruct o as [| | | | |xs ps|ps]; try done; intros _; simpl.
  - destruct (arrayIndex k) as [i|] eqn:Hk.
    + case_decide; simpl; rewrite Hk; apply bool_decide_eq_true.
      * by rewrite length_insert.
      * rewrite !length_app, length_replicate. simpl. lia.
    + simpl. rewrite Hk. apply bool_decide_eq_true.
      by rewrite lookup_insert_eq.
  - apply bool_decide_eq_true. by rewrite lookup_insert_eq.
Qed.

Lemma hasKey_setKey_mono (o : jsval) (k k' : string) (v : jsval) :
  hasKey o k' = true → hasKey (setKey o k v) k' = true.
Proof.
  destruct o as [| | | | |xs ps|ps]; try done; simpl.
  - destruct (arrayIndex k) as [i|] eqn:Hk.
    + case_decide; simpl; destruct (arrayIndex k') as [i'|] eqn:Hk'; try done.
      * by rewrite length_insert.
      * intros Hlt%bool_decide_eq_true. apply bool_decide_eq_true.
        rewrite length_app. lia.
    + simpl. destruct (arrayIndex k') as [i'|] eqn:Hk'; [done|].
      intros Hs%bool_decide_eq_true. apply bool_decide_eq_true.
      destruct (decide (k = k')) as [->|].
      * by rewrite lookup_insert_eq.
      * by rewrite lookup_insert_ne.
  - intros Hs%bool_decide_eq_true. apply bool_decide_eq_true.
    destruct (decide (k = k')) as [->|].
    + by rewrite lookup_insert_eq.
    + by rewrite lookup_insert_ne.
Qed.

(** ** Paths *)

Lemma baseGet_undef (p : path) : baseGet VUndef p = VUndef.
Proof. by destruct p. Qed.

Lemma baseGet_not_object (o : jsval) (p : path) :
  isObject o = false → p ≠ [] → baseGet o p = VUndef.
Proof.
  intros Ho Hp. destruct p as [|k p]; [done|].
  destruct o; try done; simpl; apply baseGet_undef.
Qed.

Lemma baseGet_cons (o : jsval) (k : string) (p : path) :
  baseGet o (k :: p) = baseGet (getKey o k) p.
Proof. destruct o; try done; simpl; by rewrite baseGet_undef. Qed.

Lemma baseGet_app (o : jsval) (p q : path) :
  baseGet o (p ++ q) = baseGet (baseGet o p) q.
Proof.
  revert o. induction p as [|k p IH]; intros o; [done|].
  rewrite <- app_comm_cons, !baseGet_cons. apply IH.
Qed.



Lemma setKey_not_object (o : jsval) (k : string) (v : jsval) :
  isObject o = false → setKey o k v = o.
Proof. by destruct o. Qed.

Lemma baseGet_setKey_ne (o : jsval) (k k' : string) (v : jsval) (p : path) :
  k ≠ k' → baseGet (setKey o k v) (k' :: p) = baseGet o (k' :: p).
Proof.
  intros Hne. by rewrite !baseGet_cons, getKey_setKey_ne.
Qed.

Lemma baseGet_fresh (next : string) (p : path) :
  p ≠ [] →
  baseGet (if isIndex next then VArr [] ∅ else VObj ∅) p = VUndef.
Proof.
  intros Hp. destruct p as [|k p]; [done|]. rewrite baseGet_cons.
  destruct (isIndex next); simpl.
  - destruct (arrayIndex k); simpl; [|rewrite lookup_empty];
      apply baseGet_undef.
  - rewrite lookup_empty. apply baseGet_undef.
Qed.

Lemma baseSet_cons (o : jsval) (k : string) (q : path) (v : jsval) :
  q ≠ [] →
  baseSet o (k :: q) v =
  setKey o k
    (baseSet (if isObject (getKey o k) then getKey o k
              else if isIndex (hd k q) then VArr [] ∅ else VObj ∅) q v).
Proof. by destruct q. Qed.

(** [baseSet] leaves alone what lies off its path. *)
Lemma baseGet_baseSet_diverge (o : jsval) (p q : path) (v : jsval) :
  diverge p q → baseGet (baseSet o q v) p = baseGet o p.
Proof.
  intros (c&k1&k2&p'&q'&->&->&Hne). revert o.
  induction c as [|k c IH]; intros o.
  - rewrite !app_nil_l.
    assert (∃ x, baseSet o (k2 :: q') v = setKey o k2 x) as [x ->].
    { simpl. destruct q'; eauto. }
    by apply baseGet_setKey_ne.
  - rewrite <- !app_comm_cons.
    rewrite baseSet_cons by (by destruct c).
    destruct (isObject o) eqn:Ho.
    + rewrite !baseGet_cons, getKey_setKey_eq by done. rewrite IH.
      destruct (isObject (getKey o k)) eqn:Hk; [done|].
      rewrite (baseGet_not_object (getKey o k)) by (done || by destruct c).
      apply baseGet_fresh. by destruct c.
    + by rewrite setKey_not_object.
Qed.

Lemma baseGet_set_diverge (o : jsval) (p q : path) (v : jsval) :
  diverge p q → baseGet (_set o q v) p = baseGet o p.
Proof.
  intros Hd. unfold _set. destruct (isObject o); [|done].
  by apply baseGet_baseSet_diverge.
Qed.

(** ** Deep merge, key by key *)

Lemma getKey_ownProp (o : jsval) (k : string) :
  getKey o k = default VUndef (ownProp o k).
Proof. destruct o; simpl; try done. by destruct (arrayIndex k). Qed.

Lemma baseMergeValue_eq (c : customizer) (ov sv : jsval) :
  baseMergeValue c ov sv =
  if isUndef (c ov sv) then
    match sv with
    | VArr _ _ =>
        baseMerge c (match ov with VArr _ _ => ov | _ => VArr [] ∅ end) sv
    | VObj _ => baseMerge c (if isObject ov then ov else VObj ∅) sv
    | _ => sv
    end
  else c ov sv.
Proof.
  destruct sv as [| | | | |sxs sps|sps]; simpl; try done.
  destruct (isUndef (c ov _)); [|done].
  unfold mergeNamed. f_equal.
  generalize (match ov with VArr _ _ => ov | _ => VArr [] ∅ end).
  generalize 0. induction sxs as [|s sxs IH]; intros i acc; [done|].
  simpl. apply IH.
Qed.

Lemma isObject_assignMergeValue (o : jsval) (k : string) (v : jsval) :
  isObject (assignMergeValue o k v) = isObject o.
Proof.
  unfold assignMergeValue. destruct (_ && _); [done|].
  apply isObject_setKey.
Qed.

Lemma getKey_assignMergeValue_eq (o : jsval) (k : string) (v : jsval) :
  isObject o = true →
  getKey (assignMergeValue o k v) k = pick (getKey o k) v.
Proof.
  intros Ho. unfold assignMergeValue, pick.
  destruct (isUndef v) eqn:Hv; simpl.
  - destruct (hasKey o k) eqn:Hk; [done|].
    rewrite getKey_setKey_eq by done. destruct v; try done.
    destruct (getKey o k) eqn:E; try done;
      rewrite getKey_hasKey in Hk by (by rewrite E); done.
  - by rewrite getKey_setKey_eq.
Qed.

Lemma getKey_assignMergeValue_ne (o : jsval) (k k' : string) (v : jsval) :
  k ≠ k' → getKey (assignMergeValue o k v) k' = getKey o k'.
Proof.
  intros Hne. unfold assignMergeValue. destruct (_ && _); [done|].
  by apply getKey_setKey_ne.
Qed.

Lemma isObject_mergeKey (c : customizer) (k : string) (s o : jsval) :
  isObject (mergeKey c k s o) = isObject o.
Proof. apply isObject_assignMergeValue. Qed.

Lemma getKey_mergeKey_eq (c : customizer) (k : string) (s o : jsval) :
  isObject o = true →
  getKey (mergeKey c k s o) k =
  pick (getKey o k) (baseMergeValue c (getKey o k) s).
Proof. apply getKey_assignMergeValue_eq. Qed.

Lemma getKey_mergeKey_ne (c : customizer) (k k' : string) (s o : jsval) :
  k ≠ k' → getKey (mergeKey c k s o) k' = getKey o k'.
Proof. apply getKey_assignMergeValue_ne. Qed.

(** The keys of a source object, merged in any order. *)
Lemma mergeFold_spec (c : customizer) (b : jsval) (sps : gmap string jsval) :
  isObject b = true →
  isObject (map_fold (mergeKey c) b sps) = true ∧
  ∀ k, getKey (map_fold (mergeKey c) b sps) k =
       match sps !! k with
       | Some sv => pick (getKey b k) (baseMergeValue c (getKey b k) sv)
       | None => getKey b k
       end.
Proof.
  intros Hb.
  apply (map_fold_weak_ind
    (λ r (m : gmap string jsval),
       isObject r = true ∧
       ∀ k, getKey r k =
            match m !! k with
            | Some sv => pick (getKey b k) (baseMergeValue c (getKey b k) sv)
            | None => getKey b k
            end)).
  - split; [done|]. intros k. by rewrite lookup_empty.
  - intros i x m r Hi [Hr IH]. split.
    + by rewrite isObject_mergeKey.
    + intros k. destruct (decide (i = k)) as [<-|Hne].
      * rewrite lookup_insert_eq, getKey_mergeKey_eq by done.
        specialize (IH i). rewrite Hi in IH. by rewrite IH.
      * rewrite lookup_insert_ne, getKey_mergeKey_ne by done. apply IH.
Qed.

(** The named properties of a source array. *)
Lemma mergeNamed_spec (c : customizer) (b : jsval) (sps : gmap string jsval) :
  isObject b = true →
  isObject (mergeNamed c sps b) = true ∧
  ∀ k, getKey (mergeNamed c sps b) k =
       match arrayIndex k, sps !! k with
       | None, Some sv =>
           pick (getKey b k) (baseMergeValue c (getKey b k) sv)
       | _, _ => getKey b k
       end.
Proof.
  intros Hb. unfold mergeNamed.
  apply (map_fold_weak_ind
    (λ r (m : gmap string jsval),
       isObject r = true ∧
       ∀ k, getKey r k =
            match arrayIndex k, m !! k with
            | None, Some sv =>
                pick (getKey b k) (baseMergeValue c (getKey b k) sv)
            | _, _ => getKey b k
            end)).
  - split; [done|]. intros k. rewrite lookup_empty. by destruct (arrayIndex k).
  - intros i x m r Hi [Hr IH]. split.
    + destruct (arrayIndex i); [done|]. by rewrite isObject_mergeKey.
    + intros k. destruct (decide (i = k)) as [<-|Hne].
      * rewrite lookup_insert_eq. specialize (IH i). rewrite Hi in IH.
        destruct (arrayIndex i) eqn:Hidx; [done|].
        rewrite getKey_mergeKey_eq by done. by rewrite IH.
      * rewrite lookup_insert_ne by done.
        destruct (arrayIndex i) eqn:Hidx; [apply IH|].
        rewrite getKey_mergeKey_ne by done. apply IH.
Qed.

(** The elements of a source array, from index [i] on. *)
Lemma mergeElems_spec (c : customizer) (i : nat) (ss : list jsval)
  (b : jsval) :
  isObject b = true →
  isObject (mergeElems c i ss b) = true ∧
  ∀ k, getKey (mergeElems c i ss b) k =
       match arrayIndex k with
       | Some j =>
           match (if decide (i ≤ j) then ss !! (j - i) else None) with
           | Some sv => pick (getKey b k) (baseMergeValue c (getKey b k) sv)
           | None => getKey b k
           end
       | None => getKey b k
       end.
Proof.
  revert i b. induction ss as [|s ss IH]; intros i b Hb.
  - split; [done|]. intros k. destruct (arrayIndex k); [|done].
    by case_decide.
  - simpl. destruct (IH (S i) (mergeKey c (keyOfIndex i) s b)) as [Ho Hk].
    { by rewrite isObject_mergeKey. }
    split; [done|]. intros k. rewrite Hk.
    destruct (arrayIndex k) as [j|] eqn:Hj.
    + destruct (decide (j = i)) as [->|Hne].
      * apply arrayIndex_Some in Hj as ->.
        rewrite decide_False, decide_True by lia.
        replace (i - i) with 0 by lia. simpl.
        by rewrite getKey_mergeKey_eq.
      * assert (keyOfIndex i ≠ k) as Hkne.
        { intros <-. rewrite arrayIndex_keyOfIndex in Hj. congruence. }
        rewrite !getKey_mergeKey_ne by done.
        destruct (decide (S i ≤ j)), (decide (i ≤ j)); try lia; [|done].
        replace (j - i) with (S (j - S i)) by lia. done.
    + apply getKey_mergeKey_ne. intros <-.
      by rewrite arrayIndex_keyOfIndex in Hj.
Qed.

(** [baseMerge], read key by key: a key of the source holds the merge of
    what the destination had there with the source's value. *)
Lemma baseMerge_spec (c : customizer) (b s : jsval) :
  isObject b = true →
  isObject (baseMerge c b s) = true ∧
  ∀ k, getKey (baseMerge c b s) k =
       match ownProp s k with
       | Some sv => pick (getKey b k) (baseMergeValue c (getKey b k) sv)
       | None => getKey b k
       end.
Proof.
  intros Hb. destruct s as [| | | | |sxs sps|sps]; simpl; try done.
  - destruct (mergeElems_spec c 0 sxs b Hb) as [Ho He].
    destruct (mergeNamed_spec c (mergeElems c 0 sxs b) sps Ho) as [Ho' Hn].
    split; [done|]. intros k. rewrite Hn, !He.
    destruct (arrayIndex k) as [j|] eqn:Hj.
    + rewrite decide_True by lia. by rewrite Nat.sub_0_r.
    + done.
  - by apply mergeFold_spec.
Qed.

Lemma getKey_baseMerge (c : customizer) (b s : jsval) (k : string) :
  isObject b = true →
  getKey (baseMerge c b s) k =
  match ownProp s k with
  | Some sv => pick (getKey b k) (baseMergeValue c (getKey b k) sv)
  | None => getKey b k
  end.
Proof. intros Hb. by apply baseMerge_spec. Qed.

Lemma isObject_baseMerge (c : customizer) (b s : jsval) :
  isObject b = true → isObject (baseMerge c b s) = true.
Proof. intros Hb. by apply baseMerge_spec. Qed.

(** Without a customizer a merged value is a container when the source value
    is one, and the source value itself otherwise. *)
Lemma baseMergeValue_plain (ov sv : jsval) :
  baseMergeValue noCustomizer ov sv =
  match sv with
  | VArr _ _ =>
      baseMerge noCustomizer
        (match ov with VArr _ _ => ov | _ => VArr [] ∅ end) sv
  | VObj _ => baseMerge noCustomizer (if isObject ov then ov else VObj ∅) sv
  | _ => sv
  end.
Proof. by rewrite baseMergeValue_eq. Qed.

Lemma baseMergeValue_plain_undef (ov sv : jsval) :
  baseMergeValue noCustomizer ov sv = VUndef → sv = VUndef.
Proof.
  rewrite baseMergeValue_plain. destruct sv; try done.
  - intros E. assert (isObject VUndef = true); [|done].
    rewrite <- E. apply isObject_baseMerge. by destruct ov.
  - intros E. assert (isObject VUndef = true); [|done].
    rewrite <- E. apply isObject_baseMerge. by destruct (isObject ov) eqn:?.
Qed.

(** In a plain deep merge the source wins: a scalar the source holds at a
    path is what the merged value holds there. *)
Lemma baseGet_baseMergeValue_source (p : path) (ov sv v : jsval) :
  isScalar v = true →
  baseGet sv p = v →
  baseGet (baseMergeValue noCustomizer ov sv) p = v.
Proof.
  intros Hv. revert ov sv. induction p as [|k p IH]; intros ov sv Hget.
  - simpl in *. subst sv. rewrite baseMergeValue_plain. by destruct v.
  - rewrite baseGet_cons in Hget.
    assert (getKey sv k ≠ VUndef) as Hk.
    { intros E. rewrite E, baseGet_undef in Hget. by subst v. }
    rewrite getKey_ownProp in Hk, Hget.
    destruct (ownProp sv k) as [child|] eqn:Hown; [simpl in Hk, Hget|done].
    rewrite baseMergeValue_plain, baseGet_cons.
    assert (∀ b, isObject b = true →
              baseGet (getKey (baseMerge noCustomizer b sv) k) p = v) as Hb.
    { intros b Hb. rewrite getKey_baseMerge, Hown by done.
      unfold pick.
      destruct (isUndef (baseMergeValue noCustomizer (getKey b k) child))
        eqn:Hu.
      - destruct (baseMergeValue noCustomizer (getKey b k) child) eqn:E;
          try done.
        by apply baseMergeValue_plain_undef in E.
      - by apply IH. }
    destruct sv; try done; apply Hb; [by destruct ov|].
    by destruct (isObject ov) eqn:?.
Qed.

Lemma baseGet_merge_source (object source : jsval) (p : path) (v : jsval) :
  isObject object = true →
  isScalar v = true →
  p ≠ [] →
  baseGet source p = v →
  baseGet (_merge object source) p = v.
Proof.
  intros Ho Hv Hp Hget. unfold _merge, _mergeWith. rewrite Ho.
  destruct p as [|k p]; [done|].
  rewrite baseGet_cons in Hget. rewrite baseGet_cons.
  assert (getKey source k ≠ VUndef) as Hk.
  { intros E. rewrite E, baseGet_undef in Hget. by subst v. }
  rewrite getKey_ownProp in Hk, Hget.
  destruct (ownProp source k) as [child|] eqn:Hown; [simpl in Hk, Hget|done].
  rewrite getKey_baseMerge, Hown by done. unfold pick.
  destruct (isUndef (baseMergeValue noCustomizer (getKey object k) child))
    eqn:Hu.
  - destruct (baseMergeValue noCustomizer (getKey object k) child) eqn:E;
      try done.
    by apply baseMergeValue_plain_undef in E.
  - by apply baseGet_baseMergeValue_source.
Qed.

(** ** [JovoUser]: persistable data *)

(** C10.  Setting the persistable data and reading it back returns a record
    whose [data] is the data that was set, and setting changes no other
    field of the user: [createdAt], [updatedAt], [isNew], [id] and the
    [jovo] reference are what they were. *)
Theorem setPersistableData_getPersistableData
  (Jovo Date : Type) (user : JovoUser.JovoUser Jovo Date)
  (d : JovoUser.PersistableUserData) :
  JovoUser.data (JovoUser.getPersistableData Jovo Date
                   (JovoUser.setPersistableData Jovo Date user d))
  = JovoUser.data d
  ∧ JovoUser.createdAt _ _ (JovoUser.setPersistableData Jovo Date user d)
    = JovoUser.createdAt _ _ user
  ∧ JovoUser.updatedAt _ _ (JovoUser.setPersistableData Jovo Date user d)
    = JovoUser.updatedAt _ _ user
  ∧ JovoUser.isNew _ _ (JovoUser.setPersistableData Jovo Date user d)
    = JovoUser.isNew _ _ user
  ∧ JovoUser.id _ _ (JovoUser.setPersistableData Jovo Date user d)
    = JovoUser.id _ _ user
  ∧ JovoUser.jovo _ _ (JovoUser.setPersistableData Jovo Date user d)
    = JovoUser.jovo _ _ user.
Proof. repeat split. Qed.

(** ** Strings and lists *)

Lemma prefix_spec (s1 s2 : string) :
  String.prefix s1 s2 = true ↔ ∃ rest, s2 = s1 +:+ rest.
Proof.
  revert s2. induction s1 as [|c s1 IH]; intros [|c' s2]; simpl.
  - split; [|done]. intros _. by exists "".
  - split; [|done]. intros _. by exists (String c' s2).
  - split; [done|]. by intros [rest [=]].
  - destruct (Ascii.ascii_dec c c') as [<-|Hne].
    + rewrite IH. split; intros [rest Hr]; exists rest.
      * by rewrite Hr.
      * by injection Hr.
    + split; [done|]. intros [rest [=]]. done.
Qed.

Lemma includes_spec (sub s : string) :
  includes sub s = true ↔ contains sub s.
Proof.
  induction s as [|c s IH]; cbn [includes].
  - rewrite orb_false_r, prefix_spec. split.
    + intros [rest Hr]. by exists "", rest.
    + intros ([|c b] & a & Hr); [by exists a|done].
  - rewrite orb_true_iff, prefix_spec, IH. split.
    + intros [[rest Hr]|(b & a & Hr)].
      * by exists "", rest.
      * exists (String c b), a. simpl. by rewrite Hr.
    + intros ([|c' b] & a & Hr).
      * left. by exists a.
      * right. injection Hr as -> Hr. by exists b, a.
Qed.

Lemma find_firstSuch {A} (f : A → bool) (xs : list A) :
  match find f xs with
  | Some x => firstSuch (λ y, f y = true) xs x
  | None => Forall (λ y, ¬ f y = true) xs
  end.
Proof.
  induction xs as [|y xs IH]; simpl; [done|].
  destruct (f y) eqn:Hy.
  - exists [], xs. done.
  - destruct (find f xs) as [x|].
    + destruct IH as (before & after & -> & Hx & Hb).
      exists (y :: before), after. repeat split; [done|].
      constructor; [congruence|done].
    + constructor; [congruence|done].
Qed.

(** ** The default locale *)

(** C2.  For a non-empty list of resolved locales and no configured default
    locale, [getDefaultLocale] returns the first resolved locale that
    contains "en", and the first resolved locale when none contains "en";
    resolving the request [en] through the table [{en: [en-US, en-GB]}]
    selects [en-US]. *)
Theorem getDefaultLocale_not_configured
  (plugin : Plugin) (locales : list string) :
  locales ≠ [] →
  truthy (_get (config plugin)
            ["files"; "settings/"; "settings.yaml"; "defaultLocale"] VUndef)
  = false →
  truthy (_get (config plugin) ["defaultLocale"] VUndef) = false →
  (∃ locale,
     Google.getDefaultLocale plugin (Some locales) = Ok (VStr locale) ∧
     (firstSuch (contains "en") locales locale ∨
      (Forall (λ l, ¬ contains "en" l) locales ∧ head locales = Some locale)))
  ∧ (localeTable plugin !! "en" = Some ["en-US"; "en-GB"] →
     Google.getDefaultLocale plugin
       (Some (flat_map (getResolvedLocales plugin) ["en"]))
     = Ok (VStr "en-US")).
Proof.
  intros Hne Hfiles Hdefault.
  assert (∀ ls, Google.getDefaultLocale plugin (Some ls) =
                match find (includes "en") ls with
                | Some locale => Ok (VStr locale)
                | None => Ok (match ls with
                              | locale :: _ => VStr locale
                              | [] => VUndef
                              end)
                end) as Heq.
  { intros ls. unfold Google.getDefaultLocale, jsOr.
    by rewrite Hfiles, Hdefault. }
  split.
  - rewrite Heq. pose proof (find_firstSuch (includes "en") locales) as Hfind.
    destruct (find (includes "en") locales) as [locale|].
    + exists locale. split; [done|]. left.
      destruct Hfind as (before & after & -> & Hx & Hb).
      exists before, after. repeat split; [by apply includes_spec|].
      eapply Forall_impl; [exact Hb|]. intros l Hl Hc. by apply Hl, includes_spec.
    + destruct locales as [|locale rest]; [done|].
      exists locale. split; [done|]. right. split; [|done].
      eapply Forall_impl; [exact Hfind|]. intros l Hl Hc.
      by apply Hl, includes_spec.
  - intros Htable. rewrite Heq. simpl. unfold getResolvedLocales.
    by rewrite Htable.
Qed.

Lemma getDefaultLocale_not_configured_witness :
  let plugin :=
    examplePlugin [] (VObj ∅) {[ "en" := ["en-US"; "en-GB"] ]} in
  (∃ locale,
     Google.getDefaultLocale plugin (Some ["de-DE"; "en-US"; "en-GB"])
     = Ok (VStr locale) ∧
     (firstSuch (contains "en") ["de-DE"; "en-US"; "en-GB"] locale ∨
      (Forall (λ l, ¬ contains "en" l) ["de-DE"; "en-US"; "en-GB"] ∧
       head ["de-DE"; "en-US"; "en-GB"] = Some locale)))
  ∧ (localeTable plugin !! "en" = Some ["en-US"; "en-GB"] →
     Google.getDefaultLocale plugin
       (Some (flat_map (getResolvedLocales plugin) ["en"]))
     = Ok (VStr "en-US")).
Proof.
  intros plugin.
  apply (getDefaultLocale_not_configured plugin ["de-DE"; "en-US"; "en-GB"]);
    [done | reflexivity | reflexivity].
Defined.

(** ** Locale validation *)

Section validation.
Context `{Externals}.
Variable plugin : Plugin.
Variable ctx : Context.

Lemma alexa_validateLocalesOf_flat (locales : list string) :
  Alexa.validateLocalesOf plugin locales =
  Alexa.validateResolvedLocales plugin
    (flat_map (getResolvedLocales plugin) locales).
Proof.
  induction locales as [|locale locales IH]; [done|]. simpl. rewrite IH.
  generalize (flat_map (getResolvedLocales plugin) locales).
  induction (getResolvedLocales plugin locale) as [|r rs IHr]; intros rest.
  - simpl. by destruct (Alexa.validateResolvedLocales plugin rest) as [[]|].
  - simpl. case_bool_decide; [apply IHr|done].
Qed.

(** The Alexa loop stops at the first resolved locale that is not
    supported. *)
Lemma alexa_validateResolvedLocales_first (before after : list string)
  (locale : string) :
  Forall (λ l, l ∈ supportedLocales plugin) before →
  locale ∉ supportedLocales plugin →
  Alexa.validateResolvedLocales plugin (before ++ locale :: after) =
  Throws (CliError (Alexa.unsupportedLocale plugin locale)).
Proof.
  intros Hb Hl. induction Hb as [|l before Hin _ IH]; simpl.
  - by rewrite bool_decide_eq_false_2.
  - by rewrite bool_decide_eq_true_2.
Qed.

Lemma alexa_validateResolvedLocales_ok (resolved : list string) :
  Forall (λ l, l ∈ supportedLocales plugin) resolved →
  Alexa.validateResolvedLocales plugin resolved = Ok tt.
Proof.
  induction 1 as [|l resolved Hin _ IH]; simpl; [done|].
  by rewrite bool_decide_eq_true_2.
Qed.

(** The Google loop stops at the first resolved locale that fails its
    check. *)
Lemma google_checkLocales_first (locales before after : list string)
  (locale : string) :
  Forall (λ l, Google.checkLocale plugin locales l = Ok tt) before →
  Google.checkLocales plugin locales (before ++ locale :: after) =
  match Google.checkLocale plugin locales locale with
  | Ok _ => Google.checkLocales plugin locales after
  | Throws e => Throws e
  end.
Proof.
  induction 1 as [|l before Hl _ IH]; simpl; [done|]. by rewrite Hl.
Qed.

(** What [checkLocale] does with one locale. *)
Lemma google_checkLocale_cases (locales : list string) (locale : string) :
  let genericLocale := String.substring 0 2 locale in
  Google.checkLocale plugin locales locale =
  if decide (genericLocale ∈ SUPPORTED_LOCALES ∧ genericLocale ∉ locales)
  then Throws (CliError
                 (Google.genericLocaleRequired plugin locale genericLocale))
  else if decide (locale ∈ SUPPORTED_LOCALES) then Ok tt
  else Throws (CliError (Google.unsupportedLocale plugin locale)).
Proof.
  intros genericLocale. unfold Google.checkLocale. fold genericLocale.
  destruct (decide (genericLocale ∈ SUPPORTED_LOCALES ∧ _)) as [[H1 H2]|Hn].
  - by rewrite bool_decide_eq_true_2, bool_decide_eq_false_2.
  - assert (bool_decide (genericLocale ∈ SUPPORTED_LOCALES)
            && negb (bool_decide (genericLocale ∈ locales)) = false) as ->.
    { apply not_true_iff_false. intros [H1 H2]%andb_true_iff.
      apply Hn. split; [by apply bool_decide_eq_true in H1|].
      by apply negb_true_iff, bool_decide_eq_false in H2. }
    by repeat case_bool_decide; repeat case_decide.
Qed.

(** What [validateLocales] does on Google when it reaches a locale. *)
Lemma google_validateLocales_at (before after : list string)
  (locale : string) :
  let resolved := flat_map (getResolvedLocales plugin) (locales ctx) in
  let genericLocale := String.substring 0 2 locale in
  resolved = before ++ locale :: after →
  Forall (λ l, Google.checkLocale plugin resolved l = Ok tt) before →
  Google.validateLocales plugin ctx =
  if decide (genericLocale ∈ SUPPORTED_LOCALES ∧ genericLocale ∉ resolved)
  then Throws (CliError
                 (Google.genericLocaleRequired plugin locale genericLocale))
  else if decide (locale ∈ SUPPORTED_LOCALES)
  then Google.checkLocales plugin resolved after
  else Throws (CliError (Google.unsupportedLocale plugin locale)).
Proof.
  intros resolved genericLocale Hres Hbefore.
  unfold Google.validateLocales. fold resolved. rewrite Hres at 2.
  rewrite google_checkLocales_first by done.
  pose proof (google_checkLocale_cases resolved locale) as Hcase.
  cbv zeta in Hcase. fold genericLocale in Hcase. rewrite Hcase.
  by repeat case_decide.
Qed.

(** A throwing handler ends the run with its error; what ran before it is
    all that happened. *)
Lemma emit_app_throw (before after : list (M unit)) (handler : M unit)
  (w w1 w2 : World) (e : exn) :
  emit before w = (w1, Ok tt) →
  handler w1 = (w2, Throws e) →
  emit (before ++ handler :: after) w = (w2, Throws e).
Proof.
  revert w. induction before as [|h before IH]; intros w; simpl.
  - intros [= ->] Hh. unfold mbind, M_bind, bind. by rewrite Hh.
  - unfold mbind, M_bind, bind. destruct (h w) as [w' [[]|e']]; [|done].
    intros Hb Hh. by apply IH.
Qed.

Lemma deleteFolderRecursive_files (p : path) (w : World) :
  ∃ w', deleteFolderRecursive p w = (w', Ok tt) ∧ files w' ⊆ files w.
Proof. eexists. split; [done|]. simpl. apply map_filter_subseteq. Qed.

End validation.

(** C4.  On Google Conversational Actions, validation reaches a resolved
    locale when the locales before it pass.  If the two-letter prefix of
    that locale is in the supported-locale list and is not among the
    resolved locales, validation raises an error that names the locale and
    the generic locale it requires.  Otherwise the locale passes exactly
    when it is in the supported-locale list: validation goes on with the
    next locale if it is, and raises the unsupported-locale error if it is
    not. *)
Theorem google_validateLocales_generic_locale `{Externals}
  (plugin : Plugin) (ctx : Context) (before after : list string)
  (locale : string) :
  let resolved := flat_map (getResolvedLocales plugin) (locales ctx) in
  let genericLocale := String.substring 0 2 locale in
  resolved = before ++ locale :: after →
  Forall (λ l, Google.checkLocale plugin resolved l = Ok tt) before →
  (genericLocale ∈ SUPPORTED_LOCALES ∧ genericLocale ∉ resolved →
   Google.validateLocales plugin ctx =
   Throws (CliError
     {| message := "Locale " +:+ printHighlight locale +:+
                   " requires a generic locale " +:+
                   printHighlight genericLocale +:+ ".";
        module := plugin_name plugin;
        hint := None |}))
  ∧ (¬ (genericLocale ∈ SUPPORTED_LOCALES ∧ genericLocale ∉ resolved) →
     (Google.checkLocale plugin resolved locale = Ok tt
      ↔ locale ∈ SUPPORTED_LOCALES)
     ∧ (locale ∈ SUPPORTED_LOCALES →
        Google.validateLocales plugin ctx =
        Google.checkLocales plugin resolved after)
     ∧ (locale ∉ SUPPORTED_LOCALES →
        Google.validateLocales plugin ctx =
        Throws (CliError (Google.unsupportedLocale plugin locale)))).
Proof.
  intros resolved genericLocale Hres Hbefore.
  pose proof (google_validateLocales_at plugin ctx before after locale
                Hres Hbefore) as Hval.
  cbv zeta in Hval. fold resolved genericLocale in Hval.
  split.
  - intros Hgen. rewrite Hval. by rewrite decide_True.
  - intros Hgen. rewrite Hval. rewrite decide_False by done.
    pose proof (google_checkLocale_cases plugin resolved locale) as Hcase.
    cbv zeta in Hcase. fold genericLocale in Hcase.
    rewrite Hcase, decide_False by done.
    destruct (decide (locale ∈ SUPPORTED_LOCALES)) as [Hin|Hnin].
    + repeat split; done.
    + repeat split; done.
Qed.

Lemma google_validateLocales_generic_locale_witness :
  let plugin := examplePlugin [] (VObj ∅) ∅ in
  let ctx := exampleContext ["en"; "en-US"; "de-DE"] in
  let resolved := flat_map (getResolvedLocales plugin) (locales ctx) in
  (String.substring 0 2 "de-DE" ∈ @SUPPORTED_LOCALES exampleExternals
   ∧ String.substring 0 2 "de-DE" ∉ resolved →
   @Google.validateLocales exampleExternals plugin ctx =
   Throws (CliError
     {| message := "Locale de-DE requires a generic locale de.";
        module := "ExampleCli";
        hint := None |}))
  ∧ (¬ (String.substring 0 2 "de-DE" ∈ @SUPPORTED_LOCALES exampleExternals
        ∧ String.substring 0 2 "de-DE" ∉ resolved) →
     (@Google.checkLocale exampleExternals plugin resolved "de-DE" = Ok tt
      ↔ "de-DE" ∈ @SUPPORTED_LOCALES exampleExternals)
     ∧ ("de-DE" ∈ @SUPPORTED_LOCALES exampleExternals →
        @Google.validateLocales exampleExternals plugin ctx =
        @Google.checkLocales exampleExternals plugin resolved [])
     ∧ ("de-DE" ∉ @SUPPORTED_LOCALES exampleExternals →
        @Google.validateLocales exampleExternals plugin ctx =
        Throws (CliError
                  (@Google.unsupportedLocale exampleExternals plugin "de-DE")))).
Proof.
  intros plugin ctx resolved.
  apply (@google_validateLocales_generic_locale exampleExternals plugin ctx
           ["en"; "en-US"] [] "de-DE").
  - reflexivity.
  - repeat constructor.
Defined.

Section fail_fast.
Context `{Externals}.
Variable plugin : Plugin.
Variable ctx : Context.

Lemma alexa_checkForCleanBuild_files (w : World) :
  ∃ w', Alexa.checkForCleanBuild ctx w = (w', Ok tt) ∧ files w' ⊆ files w.
Proof.
  unfold Alexa.checkForCleanBuild. destruct (clean (flags ctx)).
  - apply deleteFolderRecursive_files.
  - by exists w.
Qed.

Lemma google_checkForCleanBuild_files (w : World) :
  ∃ w', Google.checkForCleanBuild ctx w = (w', Ok tt) ∧ files w' ⊆ files w.
Proof.
  unfold Google.checkForCleanBuild. destruct (clean (flags ctx)).
  - apply deleteFolderRecursive_files.
  - by exists w.
Qed.

(** When [validateLocales] throws, the run ends there: the build handlers
    do not run and no file has been written. *)
Lemma alexa_runBuild_validateLocales (e : exn) (build : list (M unit))
  (w : World) :
  Alexa.validateLocales plugin ctx = Throws e →
  ∃ w', runBuild (Alexa.beforeBuild plugin ctx) build w = (w', Throws e)
        ∧ files w' ⊆ files w.
Proof.
  intros He. destruct (alexa_checkForCleanBuild_files w) as (w' & Hw & Hsub).
  exists w'. split; [|done].
  assert (emit (Alexa.beforeBuild plugin ctx) w = (w', Throws e)) as Hemit.
  { apply (emit_app_throw [Alexa.checkForCleanBuild ctx]
             [Alexa.validateModels ctx]
             (lift (Alexa.validateLocales plugin ctx)) w w' w' e).
    - simpl. unfold mbind, M_bind, bind. by rewrite Hw.
    - unfold lift. by rewrite He. }
  unfold runBuild, mbind, M_bind, bind. by rewrite Hemit.
Qed.

Lemma google_runBuild_validateLocales (e : exn) (build : list (M unit))
  (w : World) :
  Google.validateLocales plugin ctx = Throws e →
  ∃ w' e', runBuild (Google.beforeBuild plugin ctx) build w = (w', Throws e')
           ∧ files w' ⊆ files w
           ∧ (∀ ctx', Google.updatePluginContext plugin ctx = Ok ctx' →
              e' = e).
Proof.
  intros He.
  destruct (Google.updatePluginContext plugin ctx) as [ctx'|e0] eqn:Hctx.
  - destruct (google_checkForCleanBuild_files w) as (w' & Hw & Hsub).
    exists w', e. split; [|done].
    assert (emit (Google.beforeBuild plugin ctx) w = (w', Throws e))
      as Hemit.
    { unfold Google.beforeBuild. rewrite Hctx.
      apply (emit_app_throw [lift (Ok tt); Google.checkForCleanBuild ctx]
               [Google.validateModels ctx]
               (lift (Google.validateLocales plugin ctx)) w w' w' e).
      - simpl. unfold mbind, M_bind, bind, lift. by rewrite Hw.
      - unfold lift. by rewrite He. }
    unfold runBuild, mbind, M_bind, bind. by rewrite Hemit.
  - exists w, e0. split; [|done].
    unfold runBuild, Google.beforeBuild. rewrite Hctx.
    unfold mbind, M_bind, bind. simpl. unfold mbind, M_bind, bind, lift. done.
Qed.

End fail_fast.

(** C3, as the code has it.  [validateLocales] raises one error, for the
    first resolved locale that fails, as soon as it is reached, and the run
    ends before any file is written.  On Alexa that locale is the first one
    missing from the supported-locale list; the error names it, and its hint
    is the pointer to the platform documentation unless the locale is two
    characters long, when the hint says that Alexa does not support generic
    locales.  On Google a locale that is reached, is missing from the
    supported-locale list and does not lack its generic locale raises the
    error that names it, with the pointer to the platform documentation. *)
Theorem validateLocales_first_failure `{Externals}
  (plugin : Plugin) (ctx : Context) (before after : list string)
  (locale : string) :
  let resolved := flat_map (getResolvedLocales plugin) (locales ctx) in
  let genericLocale := String.substring 0 2 locale in
  resolved = before ++ locale :: after →
  (Forall (λ l, l ∈ supportedLocales plugin) before →
   locale ∉ supportedLocales plugin →
   let e :=
     CliError
       {| message := "Locale " +:+ printHighlight locale +:+
                     " is not supported by Amazon Alexa.";
          module := plugin_id plugin;
          hint := Some (if String.length locale =? 2
                        then alexaGenericLocalesHint
                        else alexaLanguagesDoc) |} in
   Alexa.validateLocales plugin ctx = Throws e
   ∧ ∀ build w,
       ∃ w', runBuild (Alexa.beforeBuild plugin ctx) build w = (w', Throws e)
             ∧ files w' ⊆ files w)
  ∧ (Forall (λ l, Google.checkLocale plugin resolved l = Ok tt) before →
     locale ∉ SUPPORTED_LOCALES →
     ¬ (genericLocale ∈ SUPPORTED_LOCALES ∧ genericLocale ∉ resolved) →
     let e :=
       CliError
         {| message := "Locale " +:+ printHighlight locale +:+
                       " is not supported by Google Conversational Actions.";
            module := plugin_name plugin;
            hint := Some googleLanguagesDoc |} in
     Google.validateLocales plugin ctx = Throws e
     ∧ ∀ build w,
         ∃ w' e',
           runBuild (Google.beforeBuild plugin ctx) build w = (w', Throws e')
           ∧ files w' ⊆ files w
           ∧ (∀ ctx', Google.updatePluginContext plugin ctx = Ok ctx' →
              e' = e)).
Proof.
  intros resolved genericLocale Hres. split.
  - intros Hbefore Hlocale e.
    assert (Alexa.validateLocales plugin ctx = Throws e) as He.
    { unfold Alexa.validateLocales. rewrite alexa_validateLocalesOf_flat.
      fold resolved. rewrite Hres.
      by apply alexa_validateResolvedLocales_first. }
    split; [done|]. intros build w.
    by apply alexa_runBuild_validateLocales.
  - intros Hbefore Hlocale Hgeneric e.
    assert (Google.validateLocales plugin ctx = Throws e) as He.
    { pose proof (google_validateLocales_at plugin ctx before after locale
                    Hres Hbefore) as Hval.
      cbv zeta in Hval. fold resolved genericLocale in Hval.
      by rewrite Hval, !decide_False. }
    split; [done|]. intros build w.
    by apply google_runBuild_validateLocales.
Qed.

Lemma validateLocales_first_failure_witness :
  let plugin := examplePlugin ["en-US"; "en-GB"] (VObj ∅) ∅ in
  let ctx := exampleContext ["en-US"; "de-DE"] in
  let E := exampleExternalsFor ["en-US"; "en-GB"] in
  (let e :=
     CliError
       {| message := "Locale de-DE is not supported by Amazon Alexa.";
          module := "example";
          hint := Some alexaLanguagesDoc |} in
   @Alexa.validateLocales E plugin ctx = Throws e
   ∧ ∀ build w,
       ∃ w', runBuild (@Alexa.beforeBuild E plugin ctx) build w
             = (w', Throws e)
             ∧ files w' ⊆ files w)
  ∧ (let e :=
       CliError
         {| message :=
              "Locale de-DE is not supported by Google Conversational Actions.";
            module := "ExampleCli";
            hint := Some googleLanguagesDoc |} in
     @Google.validateLocales E plugin ctx = Throws e
     ∧ ∀ build w,
         ∃ w' e',
           runBuild (@Google.beforeBuild E plugin ctx) build w
           = (w', Throws e')
           ∧ files w' ⊆ files w
           ∧ (∀ ctx', Google.updatePluginContext plugin ctx = Ok ctx' →
              e' = e)).
Proof.
  intros plugin ctx E.
  destruct (@validateLocales_first_failure E plugin ctx ["en-US"] [] "de-DE"
              eq_refl) as [HA HG].
  split.
  - apply HA; compute_done.
  - apply HG; [repeat constructor | compute_done | compute_done].
Defined.

(** C3 as stated fails on two counts.  On Alexa the first unsupported
    resolved locale [de] is reported with the hint on generic locales, not
    with the pointer to the documentation.  On Google, with [en] and [en-US]
    supported, the requested locales [en-US] and [fr-FR] raise the error on
    the missing generic locale of [en-US], which is supported, and it has no
    hint; [fr-FR], the first unsupported locale, is never reported. *)
Lemma validateLocales_documentation_pointer_counterexample :
  let plugin := examplePlugin ["en-US"; "en-GB"] (VObj ∅) ∅ in
  (firstSuch (λ l, l ∉ supportedLocales plugin)
     (flat_map (getResolvedLocales plugin) (locales (exampleContext ["de"])))
     "de"
   ∧ @Alexa.validateLocales exampleExternals plugin (exampleContext ["de"])
     = Throws (CliError
         {| message := "Locale de is not supported by Amazon Alexa.";
            module := "example";
            hint := Some alexaGenericLocalesHint |})
   ∧ alexaGenericLocalesHint ≠ alexaLanguagesDoc)
  ∧ (let E := exampleExternalsFor ["en"; "en-US"] in
     let ctx := exampleContext ["en-US"; "fr-FR"] in
     firstSuch (λ l, l ∉ @SUPPORTED_LOCALES E)
       (flat_map (getResolvedLocales plugin) (locales ctx)) "fr-FR"
     ∧ @Google.validateLocales E plugin ctx
       = Throws (CliError
           {| message := "Locale en-US requires a generic locale en.";
              module := "ExampleCli";
              hint := None |})).
Proof.
  intros plugin. split; [split; [|split]|split].
  - exists [], []. repeat split; [compute_done|constructor].
  - reflexivity.
  - discriminate.
  - exists ["en-US"], []. repeat split; [compute_done|].
    constructor; [compute_done|constructor].
  - reflexivity.
Qed.

(** ** Forward conversion that yields no file *)

Section no_files.
Context `{Externals}.
Variable plugin : Plugin.
Variable ctx : Context.

(** On Alexa a locale for which the converter yields no file, or no array at
    all, fails with the error that names the locale, and nothing is
    written. *)
Lemma alexa_buildLocale_no_files (model : jsval) (locale : string)
  (w : World) :
  alexaExportNative model locale = Ok None
  ∨ alexaExportNative model locale = Ok (Some []) →
  Alexa.buildLocale plugin model locale w =
  (w, Throws (CliError
        {| message := "Could not build Alexa files for locale " +:+ dquote
                      +:+ locale +:+ dquote +:+ "!";
           module := plugin_name plugin;
           hint := None |})).
Proof.
  intros Hfiles. unfold Alexa.buildLocale, mbind, M_bind, bind, lift.
  by destruct Hfiles as [-> | ->].
Qed.



End no_files.

(** ** Induction on values, and their equality *)

Lemma jsize_props_lookup (ps : gmap string jsval) (k : string) (v : jsval) :
  ps !! k = Some v →
  jsize v ≤ map_fold (λ _ x n, jsize x + n) 0 ps.
Proof.
  intros Hk.
  rewrite (map_fold_delete_L _ _ k v ps); [lia| |done].
  intros; lia.
Qed.

Lemma jsize_elem (xs : list jsval) (v : jsval) :
  v ∈ xs → jsize v ≤ foldr (λ x n, jsize x + n) 0 xs.
Proof. induction 1; simpl; lia. Qed.

Lemma jsval_ind' (P : jsval → Prop) :
  P VUndef → P VNull → (∀ b, P (VBool b)) → (∀ n, P (VNum n)) →
  (∀ s, P (VStr s)) →
  (∀ xs ps, Forall P xs → map_Forall (λ _, P) ps → P (VArr xs ps)) →
  (∀ ps, map_Forall (λ _, P) ps → P (VObj ps)) →
  ∀ v, P v.
Proof.
  intros Hu Hn Hb Hz Hs Ha Ho v.
  remember (jsize v) as n eqn:Hn'. revert v Hn'.
  induction n as [n IH] using lt_wf_ind. intros v ->.
  destruct v as [| | | | |xs ps|ps]; try done.
  - apply Ha.
    + apply Forall_forall. intros x Hx. apply (IH (jsize x)); [|done].
      simpl. pose proof (jsize_elem xs x Hx). lia.
    + intros k x Hk. apply (IH (jsize x)); [|done].
      simpl. pose proof (jsize_props_lookup ps k x Hk). lia.
  - apply Ho. intros k x Hk. apply (IH (jsize x)); [|done].
    simpl. pose proof (jsize_props_lookup ps k x Hk). lia.
Qed.

Lemma map_fold_andb {A} (f : string → A → bool) (m : gmap string A) :
  map_fold (λ k x acc, acc && f k x) true m = true
  ↔ map_Forall (λ k x, f k x = true) m.
Proof.
  apply (map_fold_weak_ind
    (λ r (m : gmap string A), r = true ↔ map_Forall (λ k x, f k x = true) m)).
  - split; [intros _; apply map_Forall_empty|done].
  - intros i x m' r Hi IH. rewrite map_Forall_insert by done.
    rewrite andb_true_iff, IH. tauto.
Qed.

Lemma props_eqb_eq (eqb : jsval → jsval → bool) (xp yp : gmap string jsval) :
  map_Forall (λ _ x, ∀ y, eqb x y = true ↔ x = y) xp →
  (size xp =? size yp)
  && map_fold (λ key x acc,
       acc && match yp !! key with Some y => eqb x y | None => false end)
       true xp = true
  ↔ xp = yp.
Proof.
  intros IH. rewrite andb_true_iff, Nat.eqb_eq, map_fold_andb. split.
  - intros [Hsize Hall]. apply map_subseteq_size_eq; [|lia].
    apply map_subseteq_spec. intros k x Hk.
    specialize (Hall k x Hk). simpl in Hall.
    destruct (yp !! k) as [y|]; [|done].
    by apply (IH k x Hk) in Hall as ->.
  - intros <-. split; [done|]. intros k x Hk. simpl. rewrite Hk.
    by apply (IH k x Hk).
Qed.

Lemma jsval_eqb_eq (a b : jsval) : jsval_eqb a b = true ↔ a = b.
Proof.
  revert b. induction a as [| |x|x|x|xs xp IHxs IHxp|xp IHxp] using jsval_ind';
    intros [| |y|y|y|ys yp|yp]; simpl; try (split; done).
  - rewrite Bool.eqb_true_iff. split; congruence.
  - rewrite Z.eqb_eq. split; congruence.
  - rewrite String.eqb_eq. split; congruence.
  - rewrite <- andb_assoc, andb_true_iff, (props_eqb_eq jsval_eqb) by done.
    assert ((fix go (xs ys : list jsval) : bool :=
               match xs, ys with
               | [], [] => true
               | x :: xs', y :: ys' => jsval_eqb x y && go xs' ys'
               | _, _ => false
               end) xs ys = true ↔ xs = ys) as ->.
    { clear IHxp. revert ys.
      induction IHxs as [|x xs Hx _ IH]; intros [|y ys]; try (split; done).
      rewrite andb_true_iff, Hx, IH. split; [by intros [-> ->]|].
      by intros [= -> ->]. }
    split; [by intros [-> ->]|by intros [= -> ->]].
  - rewrite (props_eqb_eq jsval_eqb) by done. split; congruence.
Qed.

#[global] Instance jsval_eq_dec : EqDecision jsval.
Proof.
  intros a b. destruct (jsval_eqb a b) eqn:E.
  - left. by apply jsval_eqb_eq.
  - right. intros Heq. apply jsval_eqb_eq in Heq. congruence.
Defined.

(** ** Removing duplicates *)

Lemma existsb_jsval_eqb (x : jsval) (seen : list jsval) :
  existsb (jsval_eqb x) seen = true ↔ x ∈ seen.
Proof.
  rewrite existsb_exists. setoid_rewrite jsval_eqb_eq.
  setoid_rewrite <- list_elem_of_In. split.
  - by intros (y & Hy & ->).
  - intros Hx. by exists x.
Qed.

Lemma uniqFrom_filter (seen xs : list jsval) :
  uniqFrom seen xs = filter (λ y, y ∉ seen) (uniq xs).
Proof.
  unfold uniq. revert seen. induction xs as [|x xs IH]; intros seen; [done|].
  simpl. rewrite (IH [x]).
  destruct (existsb (jsval_eqb x) seen) eqn:Hx.
  - apply existsb_jsval_eqb in Hx.
    rewrite filter_cons_False by (intros Hn; by apply Hn).
    rewrite list_filter_filter, IH. apply list_filter_iff.
    intros y. split; [|tauto]. intros Hy. split; [done|].
    intros ->%list_elem_of_singleton. done.
  - apply not_true_iff_false in Hx. rewrite existsb_jsval_eqb in Hx.
    rewrite filter_cons_True by done. f_equal.
    rewrite list_filter_filter, IH. apply list_filter_iff.
    intros y. rewrite not_elem_of_cons, list_elem_of_singleton. tauto.
Qed.

(** [uniq] keeps the first occurrence of every element and drops the later
    ones. *)
Lemma uniq_cons (x : jsval) (xs : list jsval) :
  uniq (x :: xs) = x :: filter (λ y, y ≠ x) (uniq xs).
Proof.
  unfold uniq at 1. simpl. rewrite uniqFrom_filter. f_equal.
  apply list_filter_iff. intros y. by rewrite list_elem_of_singleton.
Qed.

Lemma elem_of_uniq (x : jsval) (xs : list jsval) : x ∈ uniq xs ↔ x ∈ xs.
Proof.
  induction xs as [|y xs IH]; [done|].
  rewrite uniq_cons, !elem_of_cons, list_elem_of_filter, IH.
  destruct (decide (x = y)); tauto.
Qed.

Lemma NoDup_uniq (xs : list jsval) : NoDup (uniq xs).
Proof.
  induction xs as [|y xs IH]; [constructor|].
  rewrite uniq_cons. constructor.
  - rewrite list_elem_of_filter. tauto.
  - by apply NoDup_filter.
Qed.

(** ** The model merge *)

Lemma objectsAlong_object (source : jsval) (keys : path) :
  objectsAlong source keys → ∃ ps, source = VObj ps.
Proof. destruct source, keys; try done; eauto. Qed.

(** Where the source is made of objects down to some keys and the
    destination holds a container there, what the merge leaves at a key
    under them is the merge of the two values found there.  The customizer
    is one that leaves source objects to the standard merge. *)
Lemma baseMerge_at_path (c : customizer) (keys : path) (key : string)
  (object source : jsval) :
  (∀ ov sps, c ov (VObj sps) = VUndef) →
  isObject object = true →
  objectsAlong source keys →
  isObject (baseGet object keys) = true →
  baseGet (baseMerge c object source) (keys ++ [key]) =
  match ownProp (baseGet source keys) key with
  | Some sv =>
      pick (getKey (baseGet object keys) key)
        (baseMergeValue c (getKey (baseGet object keys) key) sv)
  | None => getKey (baseGet object keys) key
  end.
Proof.
  intros Hc. revert object source.
  induction keys as [|k keys IH]; intros object source Ho Hs Hk.
  - rewrite app_nil_l, baseGet_cons. cbn [baseGet].
    by apply getKey_baseMerge.
  - destruct (objectsAlong_object _ _ Hs) as [sps ->].
    rewrite <- app_comm_cons, !baseGet_cons. rewrite baseGet_cons in Hk.
    simpl in Hs.
    change (default VUndef (sps !! k)) with (getKey (VObj sps) k) in Hs.
    destruct (objectsAlong_object _ _ Hs) as [sps' Hk'].
    assert (isObject (getKey object k) = true) as Hok.
    { destruct (isObject (getKey object k)) eqn:E; [done|].
      destruct keys as [|k' keys];
        [cbn [baseGet] in Hk; by rewrite E in Hk|].
      by rewrite baseGet_not_object in Hk. }
    rewrite getKey_baseMerge by done.
    rewrite Hk' in Hs |- *. rewrite getKey_ownProp in Hk'.
    destruct (ownProp (VObj sps) k) as [sv|]; [simpl in Hk'; subst sv|done].
    rewrite baseMergeValue_eq, Hc. simpl isUndef. cbv iota. rewrite Hok.
    assert (pick (getKey object k)
              (baseMerge c (getKey object k) (VObj sps'))
            = baseMerge c (getKey object k) (VObj sps')) as ->.
    { unfold pick.
      pose proof (isObject_baseMerge c (getKey object k) (VObj sps') Hok)
        as Hm.
      by destruct (baseMerge _ _ _). }
    by apply IH.
Qed.

(** Where the source is made of objects down to a key at which both sides
    hold an array, the merge with [mergeArrayCustomizer] leaves there the
    two arrays concatenated, without duplicates. *)
Lemma baseMerge_arrays (keys : path) (key : string) (object source : jsval)
  (xs ys : list jsval) (xp yp : gmap string jsval) :
  isObject object = true →
  objectsAlong source keys →
  baseGet object (keys ++ [key]) = VArr xs xp →
  baseGet source (keys ++ [key]) = VArr ys yp →
  baseGet (baseMerge mergeArrayCustomizer object source) (keys ++ [key])
  = arr (uniq (xs ++ ys)).
Proof.
  intros Ho Hs Hx Hy.
  rewrite baseGet_app, baseGet_cons in Hx, Hy. cbn [baseGet] in Hx, Hy.
  rewrite baseMerge_at_path; [|by intros []|done|done|].
  - rewrite getKey_ownProp in Hy.
    destruct (ownProp _ key) as [sv|]; [simpl in Hy; subst sv|done].
    rewrite Hx, baseMergeValue_eq. done.
  - destruct (isObject (baseGet object keys)) eqn:E; [done|].
    by destruct (baseGet object keys).
Qed.

(** C5.  [getJovoModel] (Alexa) and [getModel] (Google) merge the
    project-level and then the plugin-level language model into the loaded
    model, both times with [mergeArrayCustomizer].  In that merge, wherever
    the source is made of objects down to a key at which both sides hold an
    array, the result holds the concatenation of the two arrays with every
    element kept at its first occurrence only; merging [{a:[1,2]}] with
    [{a:[2,3]}] yields [{a:[1,2,3]}].  The locale is a plain key, so that
    the language model of the configuration is read under that one key. *)
Theorem model_merge_concatenates_arrays `{Externals}
  (plugin : Plugin) (project : Project) (locale : string) (w : World)
  (model : jsval) :
  plainKey locale = true →
  models w !! locale = Some model →
  let merge := λ object source, _mergeWith object source mergeArrayCustomizer in
  let projectLevel :=
    jsOr (getParameter project ["languageModel"; locale]) (VObj ∅) in
  Alexa.getJovoModel plugin project locale w =
    (w, Ok (merge (merge model projectLevel)
              (_get (config plugin) ["options"; "languageModel"; locale]
                 (VObj ∅))))
  ∧ Google.getModel plugin project locale w =
    (w, Ok (merge (merge model projectLevel)
              (_get (config plugin) ["languageModel"; locale] (VObj ∅))))
  ∧ (∀ object source keys key xs xp ys yp,
       isObject object = true →
       objectsAlong source keys →
       baseGet object (keys ++ [key]) = VArr xs xp →
       baseGet source (keys ++ [key]) = VArr ys yp →
       baseGet (merge object source) (keys ++ [key]) = arr (uniq (xs ++ ys)))
  ∧ (∀ x xs, uniq [] = [] ∧
             uniq (x :: xs) = x :: filter (λ y, y ≠ x) (uniq xs))
  ∧ merge (VObj {[ "a" := arr [VNum 1; VNum 2] ]})
          (VObj {[ "a" := arr [VNum 2; VNum 3] ]})
    = VObj {[ "a" := arr [VNum 1; VNum 2; VNum 3] ]}.
Proof.
  intros _ Hmodel merge projectLevel. repeat split.
  - unfold Alexa.getJovoModel, project_getModel, mbind, M_bind, bind.
    by rewrite Hmodel.
  - unfold Google.getModel, project_getModel, mbind, M_bind, bind.
    by rewrite Hmodel.
  - intros object source keys key xs xp ys yp Ho Hs Hx Hy.
    unfold merge, _mergeWith. rewrite Ho.
    by apply (baseMerge_arrays keys key object source xs ys xp yp).
  - apply uniq_cons.
Qed.

Lemma model_merge_concatenates_arrays_witness :
  let plugin :=
    examplePlugin []
      (VObj {[ "options" := VObj {[ "languageModel" := VObj {[ "en" :=
         VObj {[ "intents" := arr [VObj {[ "name" := VStr "StopIntent" ]}]
              ]} ]} ]} ]}) ∅ in
  let model :=
    VObj {[ "invocation" := VStr "my test app";
            "intents" := arr [VObj {[ "name" := VStr "HelloIntent" ]}] ]} in
  let w := {| files := ∅; dirs := ∅; models := {[ "en" := model ]} |} in
  let merge := λ object source, _mergeWith object source mergeArrayCustomizer in
  let projectLevel :=
    jsOr (getParameter exampleProject ["languageModel"; "en"]) (VObj ∅) in
  @Alexa.getJovoModel exampleExternals plugin exampleProject "en" w =
    (w, Ok (merge (merge model projectLevel)
              (_get (config plugin) ["options"; "languageModel"; "en"]
                 (VObj ∅))))
  ∧ @Google.getModel exampleExternals plugin exampleProject "en" w =
    (w, Ok (merge (merge model projectLevel)
              (_get (config plugin) ["languageModel"; "en"] (VObj ∅))))
  ∧ (∀ object source keys key xs xp ys yp,
       isObject object = true →
       objectsAlong source keys →
       baseGet object (keys ++ [key]) = VArr xs xp →
       baseGet source (keys ++ [key]) = VArr ys yp →
       baseGet (merge object source) (keys ++ [key]) = arr (uniq (xs ++ ys)))
  ∧ (∀ x xs, uniq [] = [] ∧
             uniq (x :: xs) = x :: filter (λ y, y ≠ x) (uniq xs))
  ∧ merge (VObj {[ "a" := arr [VNum 1; VNum 2] ]})
          (VObj {[ "a" := arr [VNum 2; VNum 3] ]})
    = VObj {[ "a" := arr [VNum 1; VNum 2; VNum 3] ]}.
Proof.
  intros plugin model w.
  apply (@model_merge_concatenates_arrays exampleExternals plugin
           exampleProject "en" w model).
  - reflexivity.
  - reflexivity.
Defined.

Example getJovoModel_appends_intents :
  let plugin :=
    examplePlugin []
      (VObj {[ "options" := VObj {[ "languageModel" := VObj {[ "en" :=
         VObj {[ "intents" := arr [VObj {[ "name" := VStr "StopIntent" ]}]
              ]} ]} ]} ]}) ∅ in
  let model :=
    VObj {[ "invocation" := VStr "my test app";
            "intents" := arr [VObj {[ "name" := VStr "HelloIntent" ]}] ]} in
  let w := {| files := ∅; dirs := ∅; models := {[ "en" := model ]} |} in
  @Alexa.getJovoModel exampleExternals plugin exampleProject "en" w =
  (w, Ok (VObj {[ "invocation" := VStr "my test app";
                  "intents" := arr [VObj {[ "name" := VStr "HelloIntent" ]};
                                    VObj {[ "name" := VStr "StopIntent" ]}] ]})).
Proof. vm_compute. reflexivity. Qed.

(** ** The file-tree merge *)

(** Merging the elements of a source array into an array gives an array with
    the same named properties, as long as the longer of the two. *)
Lemma mergeElems_array (c : customizer) (ss : list jsval) (i : nat)
  (xs : list jsval) (ps : gmap string jsval) :
  i ≤ length xs →
  ∃ zs, mergeElems c i ss (VArr xs ps) = VArr zs ps
        ∧ length zs = max (length xs) (i + length ss).
Proof.
  revert i xs. induction ss as [|s ss IH]; intros i xs Hi.
  - exists xs. split; [done|]. simpl. lia.
  - simpl.
    assert (∃ zs, mergeKey c (keyOfIndex i) s (VArr xs ps) = VArr zs ps
                  ∧ length zs = max (length xs) (S i)) as (zs & -> & Hzs).
    { unfold mergeKey, assignMergeValue.
      destruct (isUndef _ && hasKey (VArr xs ps) (keyOfIndex i)) eqn:Hcond.
      - exists xs. split; [done|].
        apply andb_true_iff in Hcond as [_ Hhas]. simpl in Hhas.
        rewrite arrayIndex_keyOfIndex in Hhas.
        apply bool_decide_eq_true in Hhas. lia.
      - simpl. rewrite arrayIndex_keyOfIndex. case_decide.
        + eexists. split; [done|]. rewrite length_insert. lia.
        + eexists. split; [done|].
          rewrite !length_app, length_replicate. simpl. lia. }
    destruct (IH (S i) zs) as (zs' & -> & Hzs'); [lia|].
    exists zs'. split; [done|]. lia.
Qed.

(** Merging the named properties of a source array leaves the elements as
    they are. *)
Lemma mergeNamed_array (c : customizer) (sps : gmap string jsval)
  (zs : list jsval) (ps : gmap string jsval) :
  ∃ ps', mergeNamed c sps (VArr zs ps) = VArr zs ps'.
Proof.
  unfold mergeNamed.
  apply (map_fold_weak_ind
    (λ r (m : gmap string jsval), ∃ ps', r = VArr zs ps')); [by eexists|].
  intros k s m r Hk [ps' ->].
  destruct (arrayIndex k) eqn:Hidx; [by eexists|].
  unfold mergeKey, assignMergeValue. destruct (_ && _); [by eexists|].
  simpl. rewrite Hidx. by eexists.
Qed.

(** A plain merge of an array into an array, element by element. *)
Lemma baseMerge_array_into_array (xs ys : list jsval)
  (xp yp : gmap string jsval) :
  ∃ zs zp,
    baseMerge noCustomizer (VArr xs xp) (VArr ys yp) = VArr zs zp
    ∧ length zs = max (length xs) (length ys)
    ∧ (∀ j y, ys !! j = Some y →
         zs !! j =
         Some (pick (default VUndef (xs !! j))
                 (baseMergeValue noCustomizer (default VUndef (xs !! j)) y)))
    ∧ (∀ j, length ys ≤ j → zs !! j = xs !! j).
Proof.
  destruct (mergeElems_array noCustomizer ys 0 xs xp) as (zs & He & Hlen);
    [lia|].
  destruct (mergeNamed_array noCustomizer yp zs xp) as (zp & Hn).
  exists zs, zp.
  assert (baseMerge noCustomizer (VArr xs xp) (VArr ys yp) = VArr zs zp)
    as Hm by (simpl; by rewrite He, Hn).
  split; [done|]. split; [done|].
  assert (∀ j, default VUndef (zs !! j) =
               match ys !! j with
               | Some y =>
                   pick (default VUndef (xs !! j))
                     (baseMergeValue noCustomizer
                        (default VUndef (xs !! j)) y)
               | None => default VUndef (xs !! j)
               end) as Hget.
  { intros j.
    pose proof (getKey_baseMerge noCustomizer (VArr xs xp) (VArr ys yp)
                  (keyOfIndex j) eq_refl) as Hk.
    rewrite Hm in Hk. simpl in Hk.
    by rewrite arrayIndex_keyOfIndex in Hk. }
  split.
  - intros j y Hy. specialize (Hget j). rewrite Hy in Hget.
    assert (j < length zs) as Hj.
    { apply lookup_lt_Some in Hy. lia. }
    destruct (lookup_lt_is_Some_2 zs j Hj) as [z Hz].
    rewrite Hz in Hget |- *. simpl in Hget. by rewrite Hget.
  - intros j Hj. specialize (Hget j).
    rewrite (lookup_ge_None_2 ys) in Hget by done.
    destruct (decide (j < length xs)) as [Hlt|Hge].
    + destruct (lookup_lt_is_Some_2 xs j Hlt) as [x Hx].
      destruct (lookup_lt_is_Some_2 zs j) as [z Hz]; [lia|].
      rewrite Hx, Hz in Hget |- *. simpl in Hget. by rewrite Hget.
    + rewrite !lookup_ge_None_2; [done|lia|lia].
Qed.

(** C7, as the code has it.  The file-tree merge is a plain [_.merge] of the
    user's files into the default files.  Where the user's files are made of
    objects down to a key at which both trees hold an array, the result
    holds there the two arrays merged index by index: an array as long as
    the longer of the two, in which every element of the user's array is
    merged into the default's element at the same index (a scalar replaces
    it) and the default's elements past the end of the user's array are
    kept.  Nothing is concatenated and no duplicate is removed. *)
Theorem file_merge_arrays_by_index
  (defaults files : jsval) (keys : path) (key : string)
  (xs ys : list jsval) (xp yp : gmap string jsval) :
  isObject defaults = true →
  objectsAlong files keys →
  baseGet defaults (keys ++ [key]) = VArr xs xp →
  baseGet files (keys ++ [key]) = VArr ys yp →
  ∃ zs zp,
    baseGet (_merge defaults files) (keys ++ [key]) = VArr zs zp
    ∧ length zs = max (length xs) (length ys)
    ∧ (∀ j y, ys !! j = Some y →
         zs !! j =
         Some (pick (default VUndef (xs !! j))
                 (baseMergeValue noCustomizer (default VUndef (xs !! j)) y)))
    ∧ (∀ j y, ys !! j = Some y → isScalar y = true → zs !! j = Some y)
    ∧ (∀ j, length ys ≤ j → zs !! j = xs !! j).
Proof.
  intros Ho Hs Hx Hy.
  destruct (baseMerge_array_into_array xs ys xp yp)
    as (zs & zp & Hm & Hlen & Helem & Hrest).
  exists zs, zp.
  rewrite baseGet_app, baseGet_cons in Hx, Hy. cbn [baseGet] in Hx, Hy.
  split; [|split; [done|split; [done|split; [|done]]]].
  - unfold _merge, _mergeWith. rewrite Ho.
    rewrite baseMerge_at_path; [|done|done|done|].
    + rewrite getKey_ownProp in Hy.
      destruct (ownProp _ key) as [sv|]; [simpl in Hy; subst sv|done].
      rewrite Hx, baseMergeValue_plain, Hm. done.
    + destruct (isObject (baseGet defaults keys)) eqn:E; [done|].
      by destruct (baseGet defaults keys).
  - intros j y Hy' Hscalar. rewrite (Helem j y Hy').
    rewrite baseMergeValue_plain. by destruct y.
Qed.

Lemma file_merge_arrays_by_index_witness :
  ∃ zs zp,
    baseGet (_merge (manifestWithCountries ["US"; "GB"])
               (manifestWithCountries ["DE"]))
      (["skill-package/"; "skill.json"; "manifest"; "publishingInformation"]
       ++ ["distributionCountries"]) = VArr zs zp
    ∧ length zs = max (length [VStr "US"; VStr "GB"]) (length [VStr "DE"])
    ∧ (∀ j y, [VStr "DE"] !! j = Some y →
         zs !! j =
         Some (pick (default VUndef ([VStr "US"; VStr "GB"] !! j))
                 (baseMergeValue noCustomizer
                    (default VUndef ([VStr "US"; VStr "GB"] !! j)) y)))
    ∧ (∀ j y, [VStr "DE"] !! j = Some y → isScalar y = true →
         zs !! j = Some y)
    ∧ (∀ j, length [VStr "DE"] ≤ j →
         zs !! j = [VStr "US"; VStr "GB"] !! j).
Proof.
  apply (file_merge_arrays_by_index (manifestWithCountries ["US"; "GB"])
           (manifestWithCountries ["DE"])
           ["skill-package/"; "skill.json"; "manifest";
            "publishingInformation"] "distributionCountries"
           [VStr "US"; VStr "GB"] [VStr "DE"] ∅ ∅).
  - reflexivity.
  - vm_compute. exact I.
  - vm_compute. reflexivity.
  - vm_compute. reflexivity.
Defined.

(** C7 as stated fails: with the default files listing the countries [US]
    and [GB] and the user's files listing [DE], the project files of a
    platform that has not been built yet list [DE] and [GB].  The
    concatenation without duplicates would be [US], [GB], [DE]. *)
Lemma file_merge_arrays_counterexample :
  let E :=
    withDefaultFiles exampleExternals
      (manifestWithCountries ["US"; "GB"]) (VObj ∅) in
  let plugin :=
    examplePlugin []
      (VObj {[ "files" := manifestWithCountries ["DE"] ]}) ∅ in
  let ctx := exampleContext [] in
  baseGet (@alexaDefaultFiles E) distributionCountriesPath
  = arr [VStr "US"; VStr "GB"]
  ∧ baseGet (@normalizeFileObject E
               (_get (config plugin) ["files"] (VObj ∅)))
      distributionCountriesPath
    = arr [VStr "DE"]
  ∧ baseGet (@Alexa.createAlexaProjectFiles E plugin freshProject ctx)
      distributionCountriesPath
    = arr [VStr "DE"; VStr "GB"]
  ∧ arr [VStr "DE"; VStr "GB"]
    ≠ arr (uniq ([VStr "US"; VStr "GB"] ++ [VStr "DE"])).
Proof.
  intros E plugin ctx. repeat split; try (vm_compute; reflexivity).
  vm_compute. discriminate.
Qed.

(** ** Reverse build *)

(** Merged into a value that is no container, a source value comes out as a
    copy: a scalar found in the result is a scalar of the source. *)
Lemma baseGet_baseMergeValue_fresh (p : path) (old sv x : jsval) :
  isObject old = false →
  isScalar x = true →
  baseGet (baseMergeValue noCustomizer old sv) p = x →
  baseGet sv p = x.
Proof.
  intros Hold Hx. revert old sv Hold.
  induction p as [|k p IH]; intros old sv Hold Hget.
  - cbn [baseGet] in *. rewrite baseMergeValue_plain in Hget.
    destruct sv as [| | | | |sxs sps|sps]; try done.
    + assert (isObject x = true); [|by destruct x].
      rewrite <- Hget. apply isObject_baseMerge. by destruct old.
    + assert (isObject x = true); [|by destruct x].
      rewrite <- Hget. apply isObject_baseMerge. by rewrite Hold.
  - rewrite baseGet_cons in Hget |- *. rewrite baseMergeValue_plain in Hget.
    assert (∀ fresh,
              isObject fresh = true → (∀ k', getKey fresh k' = VUndef) →
              baseGet (getKey (baseMerge noCustomizer fresh sv) k) p = x →
              baseGet (getKey sv k) p = x) as Hfresh.
    { intros fresh Hf Hempty Hg.
      rewrite getKey_baseMerge, Hempty in Hg by done.
      rewrite getKey_ownProp.
      destruct (ownProp sv k) as [child|]; simpl.
      - unfold pick in Hg.
        destruct (isUndef (baseMergeValue noCustomizer VUndef child)) eqn:Hu.
        + rewrite baseGet_undef in Hg. by rewrite <- Hg in Hx.
        + by apply (IH VUndef).
      - rewrite baseGet_undef in Hg. by rewrite <- Hg in Hx. }
    destruct sv as [| | | | |sxs sps|sps];
      try (simpl in Hget; rewrite baseGet_undef in Hget; by subst x).
    + apply (Hfresh (VArr [] ∅)); [done| |by destruct old].
      intros k'. simpl. destruct (arrayIndex k'); [done|].
      by rewrite lookup_empty.
    + apply (Hfresh (VObj ∅)); [done| |by rewrite Hold in Hget].
      intros k'. simpl. by rewrite lookup_empty.
Qed.

(** What a merge into the empty model, [{invocation: ''}], holds. *)
Lemma merge_into_placeholder (nativeData : jsval) (p : path) (x : jsval) :
  isScalar x = true →
  baseGet (_merge (VObj {[ "invocation" := VStr "" ]}) nativeData) p = x →
  baseGet nativeData p = x
  ∨ (p = ["invocation"] ∧ x = VStr ""
     ∧ baseGet nativeData ["invocation"] = VUndef).
Proof.
  intros Hx Hget. unfold _merge, _mergeWith in Hget. simpl isObject in Hget.
  cbv iota in Hget.
  set (placeholder := VObj {[ "invocation" := VStr "" ]}) in *.
  destruct p as [|k p].
  { cbn [baseGet] in Hget.
    assert (isObject x = true); [|by destruct x].
    rewrite <- Hget. by apply isObject_baseMerge. }
  rewrite baseGet_cons in Hget |- *.
  rewrite getKey_baseMerge in Hget by done.
  assert (baseGet (getKey placeholder k) p = x →
          getKey nativeData k = VUndef →
          k :: p = ["invocation"] ∧ x = VStr ""
          ∧ baseGet nativeData ["invocation"] = VUndef) as Hold.
  { intros Hg Hk. unfold placeholder in Hg. simpl in Hg.
    destruct (decide (k = "invocation")) as [->|Hne].
    - rewrite lookup_singleton_eq in Hg. simpl in Hg.
      destruct p as [|k' p].
      + cbn [baseGet] in Hg. repeat split; [done|].
        by rewrite baseGet_cons, Hk.
      + simpl in Hg. rewrite baseGet_undef in Hg. by rewrite <- Hg in Hx.
    - rewrite lookup_singleton_ne in Hg by done. simpl in Hg.
      rewrite baseGet_undef in Hg. by rewrite <- Hg in Hx. }
  pose proof (getKey_ownProp nativeData k) as Hgk.
  destruct (ownProp nativeData k) as [sv|]; simpl in Hgk;
    [|right; by apply Hold].
  rewrite Hgk. unfold pick in Hget.
  destruct (isUndef (baseMergeValue noCustomizer (getKey placeholder k) sv))
    eqn:Hu.
  - right. apply Hold; [done|]. rewrite Hgk.
    destruct (baseMergeValue noCustomizer (getKey placeholder k) sv) eqn:E;
      try done.
    by apply baseMergeValue_plain_undef in E.
  - left. apply (baseGet_baseMergeValue_fresh p (getKey placeholder k));
      [|done|done].
    unfold placeholder. simpl.
    destruct (decide (k = "invocation")) as [->|Hne].
    + by rewrite lookup_singleton_eq.
    + by rewrite lookup_singleton_ne.
Qed.

(** C9.  Reverse build of a locale that has no model file.  The merge
    target is the empty model [{invocation: ''}].  If the native content
    yields no usable data the task fails with the error "Alexa files did not
    contain any valid data." and nothing is saved.  Otherwise the native
    data is merged into the empty model and the result saved for the locale:
    it depends on the native data alone, every scalar of the native data is
    in it at the same path, and every scalar in it is a scalar of the native
    data at the same path or the empty invocation, which stays when the
    native data has no invocation. *)
Theorem buildReverse_without_model `{Externals}
  (plugin : Plugin) (locale : string) (w : World)
  (platformModel nativeData : jsval) :
  models w !! locale = None →
  files w !! alexaModelPath locale = Some (JsonText platformModel) →
  alexaImportNative [ {| nf_path := []; content := platformModel |} ] locale
  = Ok nativeData →
  (truthy nativeData = false →
   Alexa.buildReverseLocale plugin locale w =
   (w, Throws (CliError
         {| message := "Alexa files did not contain any valid data.";
            module := plugin_name plugin;
            hint := None |})))
  ∧ (truthy nativeData = true →
     let saved := _merge (VObj {[ "invocation" := VStr "" ]}) nativeData in
     Alexa.buildReverseLocale plugin locale w =
     ({| files := files w; dirs := dirs w;
         models := <[locale := saved]> (models w) |}, Ok tt)
     ∧ (∀ p x, isScalar x = true → p ≠ [] →
          baseGet nativeData p = x → baseGet saved p = x)
     ∧ (∀ p x, isScalar x = true → baseGet saved p = x →
          baseGet nativeData p = x
          ∨ (p = ["invocation"] ∧ x = VStr ""
             ∧ baseGet nativeData ["invocation"] = VUndef))).
Proof.
  intros Hmodel Hfile Himport.
  assert (Alexa.buildReverseLocale plugin locale w =
          (if negb (truthy nativeData)
           then throw (CliError (Alexa.noValidData plugin))
           else project_saveModel
                  (_merge (VObj {[ "invocation" := VStr "" ]}) nativeData)
                  locale) w) as Hrun.
  { unfold Alexa.buildReverseLocale, Alexa.getPlatformModel, readFileSync,
      project_getModel, tryCatch, mbind, M_bind, bind, lift, ret.
    rewrite Hfile. simpl. rewrite Himport, Hmodel. done. }
  split.
  - intros Hfalsy. rewrite Hrun, Hfalsy. done.
  - intros Htruthy saved. rewrite Hrun, Htruthy. simpl.
    split; [done|]. split.
    + intros p x Hx Hp Hget. by apply baseGet_merge_source.
    + intros p x Hx Hget. by apply merge_into_placeholder.
Qed.

Lemma buildReverse_without_model_witness :
  let plugin := examplePlugin [] (VObj ∅) ∅ in
  let platformModel :=
    VObj {[ "interactionModel" := VObj {[ "languageModel" :=
      VObj {[ "invocationName" := VStr "my test app";
              "intents" :=
                arr [VObj {[ "name" := VStr "HelloWorldIntent" ]}] ]} ]} ]} in
  let nativeData :=
    VObj {[ "invocation" := VStr "my test app";
            "intents" := arr [VObj {[ "name" := VStr "HelloWorldIntent" ]}] ]}
  in
  let w :=
    {| files := {[ @alexaModelPath exampleExternals "en-US" :=
                     JsonText platformModel ]};
       dirs := ∅;
       models := {[ "de-DE" := VObj {[ "invocation" := VStr "meine app" ]} ]}
    |} in
  (truthy nativeData = false →
   @Alexa.buildReverseLocale exampleExternals plugin "en-US" w =
   (w, Throws (CliError
         {| message := "Alexa files did not contain any valid data.";
            module := plugin_name plugin;
            hint := None |})))
  ∧ (truthy nativeData = true →
     let saved := _merge (VObj {[ "invocation" := VStr "" ]}) nativeData in
     @Alexa.buildReverseLocale exampleExternals plugin "en-US" w =
     ({| files := files w; dirs := dirs w;
         models := <["en-US" := saved]> (models w) |}, Ok tt)
     ∧ (∀ p x, isScalar x = true → p ≠ [] →
          baseGet nativeData p = x → baseGet saved p = x)
     ∧ (∀ p x, isScalar x = true → baseGet saved p = x →
          baseGet nativeData p = x
          ∨ (p = ["invocation"] ∧ x = VStr ""
             ∧ baseGet nativeData ["invocation"] = VUndef))).
Proof.
  intros plugin platformModel nativeData w.
  apply (@buildReverse_without_model exampleExternals plugin "en-US" w
           platformModel nativeData).
  - reflexivity.
  - reflexivity.
  - vm_compute. reflexivity.
Defined.

Example buildReverse_saves_parsed_data :
  let plugin := examplePlugin [] (VObj ∅) ∅ in
  let platformModel :=
    VObj {[ "interactionModel" := VObj {[ "languageModel" :=
      VObj {[ "invocationName" := VStr "my test app";
              "intents" :=
                arr [VObj {[ "name" := VStr "HelloWorldIntent" ]}] ]} ]} ]} in
  let w :=
    {| files := {[ @alexaModelPath exampleExternals "en-US" :=
                     JsonText platformModel ]};
       dirs := ∅;
       models := {[ "de-DE" := VObj {[ "invocation" := VStr "meine app" ]} ]}
    |} in
  models (@Alexa.buildReverseLocale exampleExternals plugin "en-US" w).1
  = {[ "de-DE" := VObj {[ "invocation" := VStr "meine app" ]};
       "en-US" :=
         VObj {[ "invocation" := VStr "my test app";
                 "intents" :=
                   arr [VObj {[ "name" := VStr "HelloWorldIntent" ]}] ]} ]}.
Proof. vm_compute. reflexivity. Qed.

(** ** The project files *)



Lemma setIfMissing_present (projectFiles : jsval) (g : path) (value : jsval) :
  _has projectFiles g = true → setIfMissing projectFiles g value = projectFiles.
Proof. intros Hhas. unfold setIfMissing. by rewrite Hhas. Qed.

Lemma snoc_not_nil {A} (l : list A) (x : A) : l ++ [x] ≠ [].
Proof. by destruct l. Qed.



Section project_files.
Context `{Externals}.
Variable plugin : Plugin.
Variable project : Project.
Variable ctx : Context.




Lemma google_localeSettings_run (locale resolvedLocale : string)
  (projectFiles : jsval) (w : World) :
  let settingsPath := Google.settingsPath ctx resolvedLocale in
  Google.localeSettings plugin project ctx locale projectFiles resolvedLocale w
  = match Google.getInvocationName plugin project locale w with
    | (w1, Ok invocationName) =>
        (w1,
         Ok (setIfMissing
               (setIfMissing
                  (if jsval_eqb (VStr resolvedLocale) (defaultLocale ctx)
                   then setIfMissing
                          (setIfMissing projectFiles
                             (settingsPath ++ ["defaultLocale"])
                             (defaultLocale ctx))
                          (settingsPath ++ ["projectId"]) (projectId ctx)
                   else projectFiles)
                  ((settingsPath ++ ["localizedSettings"]) ++ ["displayName"])
                  invocationName)
               ((settingsPath ++ ["localizedSettings"]) ++ ["pronunciation"])
               invocationName))
    | (w1, Throws e) => (w1, Throws e)
    end.
Proof.
  intros settingsPath.
  unfold Google.localeSettings, mbind, M_bind, bind, ret.
  by destruct (Google.getInvocationName plugin project locale w)
    as [w1 [name|e]].
Qed.



End project_files.




(** * Further properties *)

(** ** File names of the reverse build *)


Lemma matchHere_noDot (s : string) : noDot s = true → matchHere s = None.
Proof.
  induction s as [|c s IH]; simpl; [done|].
  intros [Hc Hs]%andb_true_iff. rewrite (IH Hs).
  apply negb_true_iff in Hc. rewrite Hc. simpl. by destruct (isLineTerminator c).
Qed.

Lemma exec_noDot (s : string) : noDot s = true → exec s = None.
Proof.
  induction s as [|c s IH]; [done|].
  intros Hs. cbn [exec]. rewrite (matchHere_noDot _ Hs).
  simpl in Hs. apply andb_true_iff in Hs as [_ Hs]. by apply IH.
Qed.

Lemma matchHere_stem (stem ext : string) :
  noLineTerminator stem = true →
  isExtension ext = true →
  matchHere (stem +:+ "." +:+ ext) = Some stem.
Proof.
  intros Hstem Hext. induction stem as [|c stem IH]; simpl.
  - assert (noDot ext = true) as Hnd.
    { unfold isExtension in Hext. by apply andb_true_iff in Hext as [_ ?]. }
    change ("" +:+ ext) with ext.
    by rewrite (matchHere_noDot _ Hnd), Hext.
  - simpl in Hstem. apply andb_true_iff in Hstem as [Hc Hstem].
    apply negb_true_iff in Hc. rewrite Hc. by rewrite (IH Hstem).
Qed.

Lemma noDot_app_dot (s : string) : noDot (s +:+ ".") = false.
Proof.
  induction s as [|c s IH]; simpl; [done|]. rewrite IH. apply andb_false_r.
Qed.

Lemma isExtension_app_dot (s : string) : isExtension (s +:+ ".") = false.
Proof. unfold isExtension. rewrite noDot_app_dot. apply andb_false_r. Qed.

Lemma matchHere_app_dot (s : string) : matchHere (s +:+ ".") = None.
Proof.
  induction s as [|c s IH]; simpl; [done|].
  rewrite IH, isExtension_app_dot, andb_false_r.
  by destruct (isLineTerminator c).
Qed.

Lemma exec_app_dot (s : string) : exec (s +:+ ".") = None.
Proof.
  induction s as [|c s IH]; [done|].
  pose proof (matchHere_app_dot (String c s)) as Hm.
  change (String c s +:+ ".") with (String c (s +:+ ".")) in *.
  cbn [exec]. by rewrite Hm.
Qed.


Lemma noDot_dot (a b : string) : noDot (a +:+ "." +:+ b) = false.
Proof.
  induction a as [|c a IH]; [done|].
  change (String c a +:+ "." +:+ b) with (String c (a +:+ "." +:+ b)).
  cbn [noDot]. rewrite IH. apply andb_false_r.
Qed.

Lemma noDot_app_r (a b : string) : noDot b = false → noDot (a +:+ b) = false.
Proof.
  intros Hb. induction a as [|c a IH]; [done|].
  change (String c a +:+ b) with (String c (a +:+ b)).
  cbn [noDot]. rewrite IH. apply andb_false_r.
Qed.

Lemma isLineTerminator_not_dot (c : ascii) :
  isLineTerminator c = true → Ascii.eqb c "." = false.
Proof.
  intros Hc. apply Ascii.eqb_neq. intros ->. done.
Qed.

Lemma matchHere_before_terminator (t rest ext : string) (c : ascii) :
  isLineTerminator c = true →
  matchHere (t +:+ String c (rest +:+ "." +:+ ext)) = None.
Proof.
  intros Hc. induction t as [|d t IH].
  - change ("" +:+ String c (rest +:+ "." +:+ ext))
      with (String c (rest +:+ "." +:+ ext)).
    cbn [matchHere]. by rewrite Hc, (isLineTerminator_not_dot c Hc).
  - change (String d t +:+ String c (rest +:+ "." +:+ ext))
      with (String d (t +:+ String c (rest +:+ "." +:+ ext))).
    cbn [matchHere]. rewrite IH.
    assert (isExtension (t +:+ String c (rest +:+ "." +:+ ext)) = false)
      as ->.
    { unfold isExtension. rewrite noDot_app_r; [apply andb_false_r|].
      cbn [noDot]. rewrite noDot_dot. apply andb_false_r. }
    rewrite andb_false_r. by destruct (isLineTerminator d).
Qed.

Lemma exec_after_terminator (pre rest ext : string) (c : ascii) :
  isLineTerminator c = true →
  exec (pre +:+ String c (rest +:+ "." +:+ ext))
  = exec (rest +:+ "." +:+ ext).
Proof.
  intros Hc. induction pre as [|d pre IH].
  - pose proof (matchHere_before_terminator "" rest ext c Hc) as Hm.
    change ("" +:+ String c (rest +:+ "." +:+ ext))
      with (String c (rest +:+ "." +:+ ext)) in *.
    cbn [exec]. by rewrite Hm.
  - pose proof (matchHere_before_terminator (String d pre) rest ext c Hc)
      as Hm.
    change (String d pre +:+ String c (rest +:+ "." +:+ ext))
      with (String d (pre +:+ String c (rest +:+ "." +:+ ext))) in *.
    cbn [exec]. by rewrite Hm.
Qed.

Lemma exec_matchHere (s group : string) :
  matchHere s = Some group → exec s = Some group.
Proof. intros Hm. destruct s; [done|]. cbn [exec]. by rewrite Hm. Qed.

(** X1.  [getPlatformLocales] names a locale after its file: a file name
    made of a stem without line break, a dot and an extension (one or more
    characters, none a dot) gives the stem, whatever dots the stem holds;
    [en-US.json] gives [en-US].  After a line break only what follows it
    counts. *)
Theorem localeOfFile_strips_extension (stem ext : string) :
  noLineTerminator stem = true →
  isExtension ext = true →
  AlexaReverse.localeOfFile (stem +:+ "." +:+ ext) = stem
  ∧ (∀ pre c, isLineTerminator c = true →
       AlexaReverse.localeOfFile (pre +:+ String c (stem +:+ "." +:+ ext))
       = stem)
  ∧ AlexaReverse.localeOfFile "en-US.json" = "en-US".
Proof.
  intros Hstem Hext.
  assert (exec (stem +:+ "." +:+ ext) = Some stem) as Hexec.
  { by apply exec_matchHere, matchHere_stem. }
  split; [|split].
  - unfold AlexaReverse.localeOfFile. by rewrite Hexec.
  - intros pre c Hc. unfold AlexaReverse.localeOfFile.
    by rewrite exec_after_terminator, Hexec.
  - reflexivity.
Qed.

Lemma localeOfFile_strips_extension_witness :
  AlexaReverse.localeOfFile ("en-US.backup" +:+ "." +:+ "json")
  = "en-US.backup"
  ∧ (∀ pre c, isLineTerminator c = true →
       AlexaReverse.localeOfFile
         (pre +:+ String c ("en-US.backup" +:+ "." +:+ "json"))
       = "en-US.backup")
  ∧ AlexaReverse.localeOfFile "en-US.json" = "en-US".
Proof.
  apply (localeOfFile_strips_extension "en-US.backup" "json");
    reflexivity.
Defined.

(** X2.  A file name without a dot, or with nothing after its last dot, has
    no extension to strip: [getPlatformLocales] gives the name as it
    is. *)
Theorem localeOfFile_without_extension (file : string) :
  noDot file = true ∨ (∃ stem, file = stem +:+ ".") →
  AlexaReverse.localeOfFile file = file.
Proof.
  unfold AlexaReverse.localeOfFile.
  intros [Hfile | [stem ->]].
  - by rewrite exec_noDot.
  - by rewrite exec_app_dot.
Qed.

Lemma localeOfFile_without_extension_witness :
  AlexaReverse.localeOfFile "README" = "README"
  ∧ AlexaReverse.localeOfFile "en-US." = "en-US.".
Proof.
  split.
  - apply (localeOfFile_without_extension "README"). left. reflexivity.
  - apply (localeOfFile_without_extension "en-US."). right.
    exists "en-US". reflexivity.
Defined.

(** ** The locales of the reverse build *)

Section reverse_locales.
Context `{Externals}.
Variable plugin : Plugin.
Variable ctx : Context.

Lemma pushLocales_found (platformLocales locales before rest : list string) :
  Forall (λ l, l ∈ platformLocales) before →
  AlexaReverse.pushLocales plugin platformLocales locales (before ++ rest)
  = AlexaReverse.pushLocales plugin platformLocales (locales ++ before) rest.
Proof.
  intros Hbefore. revert locales.
  induction Hbefore as [|l before Hl _ IH]; intros locales; simpl.
  - by rewrite app_nil_r.
  - rewrite bool_decide_eq_true_2 by done. rewrite IH.
    by rewrite <- app_assoc.
Qed.

End reverse_locales.

(** X3.  The locales [buildReverse] builds from.  Without [--locale] they
    are the locales of the platform folder.  With [--locale] they are the
    given locales, in the given order, when each has its file in the
    platform folder; the first one that has none raises the error that
    names it and lists the locales of the platform folder, joined by a
    comma and a space. *)
Theorem reverseLocales_of_flag `{Externals} (plugin : Plugin) (ctx : Context)
  (platformLocales : list string) :
  (flag_locale (flags ctx) = None →
   AlexaReverse.reverseLocales plugin ctx platformLocales
   = Ok platformLocales)
  ∧ (∀ flagLocales,
       flag_locale (flags ctx) = Some flagLocales →
       (Forall (λ l, l ∈ platformLocales) flagLocales →
        AlexaReverse.reverseLocales plugin ctx platformLocales
        = Ok flagLocales)
       ∧ (∀ before locale after,
            flagLocales = before ++ locale :: after →
            Forall (λ l, l ∈ platformLocales) before →
            locale ∉ platformLocales →
            AlexaReverse.reverseLocales plugin ctx platformLocales
            = Throws (CliError
                {| message :=
                     "Could not find platform models for locale: " +:+
                     printHighlight locale;
                   module := plugin_name plugin;
                   hint := Some ("Available locales include: " +:+
                                 String.concat ", " platformLocales) |}))).
Proof.
  unfold AlexaReverse.reverseLocales. split.
  - by intros ->.
  - intros flagLocales ->. split.
    + intros Hall.
      rewrite <- (app_nil_r flagLocales) at 1.
      by rewrite pushLocales_found.
    + intros before locale after -> Hbefore Hlocale.
      rewrite pushLocales_found by done. simpl.
      by rewrite bool_decide_eq_false_2.
Qed.

Example reverseLocales_missing :
  let ctx :=
    {| command := "build:reverse"; locales := []; platforms := ["example"];
       flags := {| clean := false; force := false;
                   flag_locale := Some ["en-US"; "fr-FR"; "de-DE"];
                   flag_platform := None; flag_project_id := VUndef |};
       defaultLocale := VUndef; projectId := VUndef |} in
  @AlexaReverse.reverseLocales exampleExternals
    (examplePlugin [] (VObj ∅) ∅) ctx ["de-DE"; "en-US"]
  = Throws (CliError
      {| message := "Could not find platform models for locale: fr-FR";
         module := "ExampleCli";
         hint := Some "Available locales include: de-DE, en-US" |}).
Proof. reflexivity. Qed.

(** ** Users *)

(** X4.  Writing back the persistable data that was read changes nothing,
    and of two writes the second one stands. *)
Theorem setPersistableData_write_back (Jovo Date : Type)
  (user : JovoUser.JovoUser Jovo Date)
  (d1 d2 : JovoUser.PersistableUserData) :
  JovoUser.setPersistableData Jovo Date user
    (JovoUser.getPersistableData Jovo Date user) = user
  ∧ JovoUser.setPersistableData Jovo Date
      (JovoUser.setPersistableData Jovo Date user d1) d2
    = JovoUser.setPersistableData Jovo Date user d2
  ∧ JovoUser.getPersistableData Jovo Date
      (JovoUser.setPersistableData Jovo Date user d1) = d1.
Proof. destruct user, d1. repeat split. Qed.

(** X5.  The id of an Alexa user is never empty: it is the user id of the
    session of the request when there is one that is not empty, and
    [AlexaUser] when the request has no session, the session no user, or
    the user no id. *)
Theorem alexaUser_id_fallback (request : jsval) :
  let userId := baseGet request ["session"; "user"; "userId"] in
  truthy (AlexaUser.id request) = true
  ∧ (truthy userId = true → AlexaUser.id request = userId)
  ∧ (truthy userId = false → AlexaUser.id request = VStr "AlexaUser")
  ∧ (isObject (getKey request "session") = false
     ∨ isObject (baseGet request ["session"; "user"]) = false →
     AlexaUser.id request = VStr "AlexaUser").
Proof.
  intros userId.
  assert (getKey (getKey (getKey request "session") "user") "userId"
          = userId) as Heq.
  { unfold userId. by rewrite !baseGet_cons. }
  unfold AlexaUser.id, jsOr. rewrite Heq.
  split; [by destruct (truthy userId) eqn:E|].
  split; [by intros ->|]. split; [by intros ->|].
  assert (userId = VUndef →
          (if truthy userId then userId else VStr "AlexaUser")
          = VStr "AlexaUser") as Hu by (by intros ->).
  intros [Hs|Hu']; apply Hu; unfold userId.
  - rewrite baseGet_cons. destruct (getKey request "session"); try done.
  - change ["session"; "user"; "userId"]
      with (["session"; "user"] ++ ["userId"]).
    rewrite baseGet_app. by apply baseGet_not_object.
Qed.

(** ** The interaction model of Alexa *)

Lemma forEach_app {A} (xs ys : list A) (body : A → M unit) (w : World) :
  forEach (xs ++ ys) body w =
  match forEach xs body w with
  | (w1, Ok _) => forEach ys body w1
  | (w1, Throws e) => (w1, Throws e)
  end.
Proof.
  revert w. induction xs as [|x xs IH]; intros w; simpl; [done|].
  unfold mbind, M_bind, bind. destruct (body x w) as [w1 [[]|e]]; [|done].
  apply IH.
Qed.

Section interaction_model.
Context `{Externals}.
Variable plugin : Plugin.
Variable project : Project.

(** What the body of the loop does, case by case. *)
Lemma alexa_buildLocale_run (model : jsval) (locale : string) (w : World) :
  ∃ w1, files w1 = files w ∧ models w1 = models w ∧ dirs w ⊆ dirs w1 ∧
  Alexa.buildLocale plugin model locale w =
  match alexaModelText model locale with
  | Some text =>
      ({| files := <[alexaModelPath locale := text]> (files w1);
          dirs := dirs w1; models := models w1 |}, Ok tt)
  | None =>
      match alexaExportNative model locale with
      | Throws e => (w, Throws e)
      | Ok (Some (_ :: _)) =>
          (w1, Throws (JsError (invalidDataMessage VUndef)))
      | Ok _ => (w, Throws (CliError (Alexa.couldNotBuild plugin locale)))
      end
  end.
Proof.
  unfold Alexa.buildLocale, alexaModelText, mbind, M_bind, bind, lift.
  destruct (alexaExportNative model locale) as [[[|file files']|]|e];
    try (exists w; done).
  unfold existsSync.
  destruct (negb _); simpl.
  - eexists {| files := files w; dirs := _; models := models w |}.
    split; [done|]. split; [done|]. split; [|by destruct (JSON_stringify _)].
    simpl. set_solver.
  - exists w. repeat split; [done|]. by destruct (JSON_stringify _).
Qed.

Lemma alexa_buildLocale_frame (model : jsval) (locale : string) (w : World) :
  models (Alexa.buildLocale plugin model locale w).1 = models w
  ∧ dirs w ⊆ dirs (Alexa.buildLocale plugin model locale w).1
  ∧ ∀ p, p ≠ alexaModelPath locale →
         files (Alexa.buildLocale plugin model locale w).1 !! p
         = files w !! p.
Proof.
  destruct (alexa_buildLocale_run model locale w)
    as (w1 & Hf & Hm & Hd & ->).
  destruct (alexaModelText model locale) as [text|].
  - simpl. repeat split; [done|done|]. intros p Hp.
    by rewrite lookup_insert_ne, Hf.
  - destruct (alexaExportNative model locale) as [[[|file files']|]|e];
      simpl; repeat split; try done. intros p _. by rewrite Hf.
Qed.

Lemma alexa_forEach_frame (model : jsval) (locales : list string)
  (w : World) :
  models (forEach locales (Alexa.buildLocale plugin model) w).1 = models w
  ∧ dirs w ⊆ dirs (forEach locales (Alexa.buildLocale plugin model) w).1
  ∧ ∀ p, p ∉ alexaModelPath <$> locales →
         files (forEach locales (Alexa.buildLocale plugin model) w).1 !! p
         = files w !! p.
Proof.
  revert w. induction locales as [|l locales IH]; intros w; simpl; [done|].
  unfold mbind, M_bind, bind.
  destruct (alexa_buildLocale_frame model l w) as (Hm & Hd & Hf).
  destruct (Alexa.buildLocale plugin model l w) as [w1 [[]|e]]; simpl in *.
  - destruct (IH w1) as (Hm' & Hd' & Hf').
    split; [congruence|]. split; [by etrans|].
    intros p Hp. apply not_elem_of_cons in Hp as [Hp1 Hp2].
    by rewrite Hf', Hf.
  - repeat split; [done|done|]. intros p Hp.
    apply not_elem_of_cons in Hp as [Hp1 Hp2]. by apply Hf.
Qed.

(** The loop over locales that all get their file. *)
Lemma alexa_forEach_written (model : jsval) (locales : list string)
  (w : World) :
  Forall (λ l, is_Some (alexaModelText model l)) locales →
  ∃ w', forEach locales (Alexa.buildLocale plugin model) w = (w', Ok tt)
        ∧ files w' = alexaModelFilesWritten model locales (files w)
        ∧ models w' = models w.
Proof.
  intros Hall. revert w.
  induction locales as [|l locales IH]; intros w.
  - by exists w.
  - apply Forall_cons in Hall as [[text Hl] Hall].
    cbn [forEach]. unfold mbind, M_bind, bind.
    destruct (alexa_buildLocale_run model l w) as (w1 & Hf & Hm & Hd & ->).
    rewrite Hl.
    destruct (IH Hall {| files := <[alexaModelPath l := text]> (files w1);
                         dirs := dirs w1; models := models w1 |})
      as (w' & -> & Hf' & Hm').
    exists w'. split; [done|].
    unfold alexaModelFilesWritten in *. cbn [fold_left]. rewrite Hl.
    simpl in Hf', Hm'. split; [by rewrite Hf', Hf|congruence].
Qed.

(** The loop that reaches a locale without file. *)
Lemma alexa_forEach_fails (model : jsval) (before after : list string)
  (locale : string) (w : World) :
  Forall (λ l, is_Some (alexaModelText model l)) before →
  alexaModelText model locale = None →
  ∃ w' e,
    forEach (before ++ locale :: after) (Alexa.buildLocale plugin model) w
    = (w', Throws e)
    ∧ files w' = alexaModelFilesWritten model before (files w)
    ∧ models w' = models w
    ∧ match e with
      | CliError e => e = alexaBuildError plugin model locale
      | JsError msg =>
          message (alexaBuildError plugin model locale) = msg
          ∧ module (alexaBuildError plugin model locale) = plugin_name plugin
          ∧ hint (alexaBuildError plugin model locale) = None
      end.
Proof.
  intros Hbefore Hlocale.
  destruct (alexa_forEach_written model before w Hbefore)
    as (w1 & Hrun & Hf & Hm).
  rewrite forEach_app, Hrun. simpl. unfold mbind, M_bind, bind.
  destruct (alexa_buildLocale_run model locale w1)
    as (w2 & Hf2 & Hm2 & Hd2 & ->).
  rewrite Hlocale. unfold alexaBuildError.
  unfold alexaModelText in Hlocale.
  destruct (alexaExportNative model locale) as [[[|file files']|]|[e|msg]];
    eexists _, _; (split; [done|]); repeat split; try done; congruence.
Qed.

End interaction_model.

Lemma first_failure {A} (P : A → Prop) `{!∀ x, Decision (P x)}
  (xs : list A) :
  Forall P xs
  ∨ ∃ before x after, xs = before ++ x :: after ∧ Forall P before ∧ ¬ P x.
Proof.
  induction xs as [|y xs IH]; [by left|].
  destruct (decide (P y)) as [Hy|Hy].
  - destruct IH as [IH|(before & x & after & -> & Hb & Hx)].
    + left. by constructor.
    + right. exists (y :: before), x, after. repeat split; [|done].
      by constructor.
  - right. by exists [], y, xs.
Qed.

Lemma alexa_getJovoModel_world `{Externals} (plugin : Plugin)
  (project : Project) (locale : string) (w : World) :
  (Alexa.getJovoModel plugin project locale w).1 = w.
Proof.
  unfold Alexa.getJovoModel, project_getModel, mbind, M_bind, bind.
  by destruct (models w !! locale).
Qed.

(** *** A converter that yields no file *)




(** X6.  [buildLanguageModel] of Alexa never touches the model files of the
    project, removes no directory, and changes no file but the model files
    of the resolved locales, whether it returns or throws. *)
Theorem alexa_buildLanguageModel_frame `{Externals}
  (plugin : Plugin) (project : Project) (modelLocale : string)
  (resolvedLocales : list string) (w : World) :
  let w' :=
    (Alexa.buildLanguageModel plugin project modelLocale resolvedLocales w).1
  in
  models w' = models w
  ∧ dirs w ⊆ dirs w'
  ∧ ∀ p, p ∉ alexaModelPath <$> resolvedLocales →
         files w' !! p = files w !! p.
Proof.
  unfold Alexa.buildLanguageModel, mbind, M_bind, bind.
  pose proof (alexa_getJovoModel_world plugin project modelLocale w) as Hw.
  destruct (Alexa.getJovoModel plugin project modelLocale w)
    as [w0 [model|e]]; simpl in Hw; subst w0; [|done].
  unfold tryCatch.
  pose proof (alexa_forEach_frame plugin model resolvedLocales w) as Hframe.
  destruct (forEach resolvedLocales (Alexa.buildLocale plugin model) w)
    as [w1 [[]|e]]; [done|].
  by destruct e.
Qed.

(** X7.  With the model loaded, [buildLanguageModel] of Alexa returns
    exactly when the converter yields, for every resolved locale, a first
    file whose content has a JSON text; the files are then the model files
    of the resolved locales written one after the other over the files
    there were. *)
Theorem alexa_buildLanguageModel_returns `{Externals}
  (plugin : Plugin) (project : Project) (modelLocale : string)
  (resolvedLocales : list string) (w : World) (model : jsval) :
  Alexa.getJovoModel plugin project modelLocale w = (w, Ok model) →
  (Forall (λ l, is_Some (alexaModelText model l)) resolvedLocales
   ↔ ∃ w', Alexa.buildLanguageModel plugin project modelLocale
             resolvedLocales w = (w', Ok tt))
  ∧ ∀ w', Alexa.buildLanguageModel plugin project modelLocale
            resolvedLocales w = (w', Ok tt) →
          files w' = alexaModelFilesWritten model resolvedLocales (files w)
          ∧ models w' = models w.
Proof.
  intros Hmodel.
  assert (∀ r, Alexa.buildLanguageModel plugin project modelLocale
                 resolvedLocales w = r →
               match forEach resolvedLocales
                       (Alexa.buildLocale plugin model) w with
               | (w1, Ok _) => r = (w1, Ok tt)
               | (w1, Throws e) => ∃ e', r = (w1, Throws e')
               end) as Hrun.
  { intros r <-.
    unfold Alexa.buildLanguageModel, mbind, M_bind, bind, tryCatch.
    rewrite Hmodel.
    destruct (forEach resolvedLocales _ w) as [w1 [[]|[e|msg]]]; eauto. }
  destruct (first_failure (λ l, is_Some (alexaModelText model l))
              resolvedLocales)
    as [Hall|(before & locale & after & Hres & Hbefore & Hlocale)].
  - destruct (alexa_forEach_written plugin model resolvedLocales w Hall)
      as (w1 & Hloop & Hfiles & Hmodels).
    split.
    + split; [|done]. intros _. exists w1.
      specialize (Hrun _ eq_refl). by rewrite Hloop in Hrun.
    + intros w' Hw'. specialize (Hrun _ Hw'). rewrite Hloop in Hrun.
      by simplify_eq.
  - assert (alexaModelText model locale = None) as Hnone.
    { destruct (alexaModelText model locale); [|done].
      destruct Hlocale. by eexists. }
    destruct (alexa_forEach_fails plugin model before after locale w
                Hbefore Hnone) as (w1 & e & Hloop & _).
    rewrite <- Hres in Hloop.
    assert (∀ w', Alexa.buildLanguageModel plugin project modelLocale
                    resolvedLocales w ≠ (w', Ok tt)) as Hno.
    { intros w' Hw'. specialize (Hrun _ Hw'). rewrite Hloop in Hrun.
      by destruct Hrun. }
    split.
    + split.
      * intros Hall. subst resolvedLocales.
        apply Forall_app in Hall as [_ Hall].
        by apply Forall_cons in Hall as [? _].
      * intros [w' Hw']. by destruct (Hno w').
    + intros w' Hw'. by destruct (Hno w').
Qed.

Lemma alexa_buildLanguageModel_returns_witness :
  let plugin := examplePlugin [] (VObj ∅) ∅ in
  let model := VObj {[ "invocation" := VStr "my test app" ]} in
  let w := worldWithModel "en" model in
  (Forall (λ l, is_Some (@alexaModelText exampleExternals model l))
     ["en-US"; "en-GB"]
   ↔ ∃ w', @Alexa.buildLanguageModel exampleExternals plugin exampleProject
             "en" ["en-US"; "en-GB"] w = (w', Ok tt))
  ∧ ∀ w', @Alexa.buildLanguageModel exampleExternals plugin exampleProject
            "en" ["en-US"; "en-GB"] w = (w', Ok tt) →
          files w'
          = @alexaModelFilesWritten exampleExternals model
              ["en-US"; "en-GB"] (files w)
          ∧ models w' = models w.
Proof.
  intros plugin model w.
  apply (@alexa_buildLanguageModel_returns exampleExternals plugin
           exampleProject "en" ["en-US"; "en-GB"] w model).
  vm_compute. reflexivity.
Defined.

(** X8.  [buildLanguageModel] of Alexa stops at the first resolved locale
    that gets no file.  The model files of the locales before it are
    written and stay, the locales after it are not looked at, and the error
    is a [JovoCliError]: the error for a converter that yields no file,
    which names the locale, the converter's error, under the name of the
    plugin if it was no [JovoCliError], or, for a first file whose content
    has no JSON text, the [TypeError] of [writeFileSync] for [undefined]
    data under the name of the plugin. *)
Theorem alexa_buildLanguageModel_first_failure `{Externals}
  (plugin : Plugin) (project : Project) (modelLocale : string)
  (before after : list string) (locale : string) (w : World)
  (model : jsval) :
  Alexa.getJovoModel plugin project modelLocale w = (w, Ok model) →
  Forall (λ l, is_Some (alexaModelText model l)) before →
  alexaModelText model locale = None →
  (∃ w',
     Alexa.buildLanguageModel plugin project modelLocale
       (before ++ locale :: after) w
     = (w', Throws (CliError (alexaBuildError plugin model locale)))
     ∧ files w' = alexaModelFilesWritten model before (files w)
     ∧ models w' = models w)
  ∧ (alexaExportNative model locale = Ok None
     ∨ alexaExportNative model locale = Ok (Some []) →
     alexaBuildError plugin model locale =
     {| message := "Could not build Alexa files for locale " +:+ dquote
                   +:+ locale +:+ dquote +:+ "!";
        module := plugin_name plugin;
        hint := None |})
  ∧ (∀ msg, alexaExportNative model locale = Throws (JsError msg) →
       alexaBuildError plugin model locale =
       {| message := msg; module := plugin_name plugin; hint := None |})
  ∧ (∀ file files,
       alexaExportNative model locale = Ok (Some (file :: files)) →
       alexaBuildError plugin model locale =
       {| message := "The " +:+ dquote +:+ "data" +:+ dquote +:+
                     " argument must be of type string or an instance of"
                     +:+ " Buffer, TypedArray, or DataView."
                     +:+ " Received undefined";
          module := plugin_name plugin;
          hint := None |}).
Proof.
  intros Hmodel Hbefore Hlocale. split; [|split; [|split]].
  - destruct (alexa_forEach_fails plugin model before after locale w
                Hbefore Hlocale) as (w1 & e & Hloop & Hfiles & Hmodels & He).
    exists w1. split; [|done].
    unfold Alexa.buildLanguageModel, mbind, M_bind, bind, tryCatch.
    rewrite Hmodel, Hloop. destruct e as [e|msg].
    + by subst e.
    + destruct He as (Hmsg & Hmod & Hhint). unfold throw.
      destruct (alexaBuildError plugin model locale). simpl in *.
      by subst.
  - unfold alexaBuildError. by intros [-> | ->].
  - unfold alexaBuildError. by intros msg ->.
  - unfold alexaBuildError. by intros file files ->.
Qed.

Lemma alexa_buildLanguageModel_first_failure_witness :
  let E :=
    withAlexaExport exampleExternals
      (λ model locale,
         if String.eqb locale "de-DE" then Ok (Some [])
         else exampleAlexaExport model locale) in
  let plugin := examplePlugin [] (VObj ∅) ∅ in
  let model := VObj {[ "invocation" := VStr "my test app" ]} in
  let w := worldWithModel "en" model in
  ∃ w',
    @Alexa.buildLanguageModel E plugin exampleProject "en"
      (["en-US"] ++ "de-DE" :: ["en-GB"]) w
    = (w', Throws (CliError (@alexaBuildError E plugin model "de-DE")))
    ∧ files w' = @alexaModelFilesWritten E model ["en-US"] (files w)
    ∧ models w' = models w.
Proof.
  intros E plugin model w.
  apply (@alexa_buildLanguageModel_first_failure E plugin exampleProject
           "en" ["en-US"] ["en-GB"] "de-DE" w model).
  - vm_compute. reflexivity.
  - constructor; [|constructor]. apply is_Some_alt. vm_compute. exact I.
  - reflexivity.
Defined.

(** X9.  An error [buildLanguageModel] of Alexa throws is a [JovoCliError],
    unless it is the error of loading the model, which is passed on as it
    is. *)
Theorem alexa_buildLanguageModel_errors `{Externals}
  (plugin : Plugin) (project : Project) (modelLocale : string)
  (resolvedLocales : list string) (w w' : World) (e : exn) :
  Alexa.buildLanguageModel plugin project modelLocale resolvedLocales w
  = (w', Throws e) →
  (∃ error, e = CliError error)
  ∨ Alexa.getJovoModel plugin project modelLocale w = (w', Throws e).
Proof.
  unfold Alexa.buildLanguageModel, mbind, M_bind, bind, tryCatch.
  destruct (Alexa.getJovoModel plugin project modelLocale w)
    as [w0 [model|e0]]; [|intros Heq; right; by simplify_eq].
  destruct (forEach resolvedLocales _ w0) as [w1 [[]|[e1|msg]]];
    unfold throw; intros ?; simplify_eq; left; eauto.
Qed.

Lemma alexa_buildLanguageModel_errors_witness :
  (∃ error,
     @modelNotFound exampleExternals "en" = CliError error)
  ∨ @Alexa.getJovoModel exampleExternals (examplePlugin [] (VObj ∅) ∅)
      exampleProject "en" emptyWorld
    = (emptyWorld, Throws (@modelNotFound exampleExternals "en")).
Proof.
  apply (@alexa_buildLanguageModel_errors exampleExternals
           (examplePlugin [] (VObj ∅) ∅) exampleProject "en" ["en-US"]
           emptyWorld emptyWorld).
  reflexivity.
Defined.

(** ** The model and its overrides *)

Lemma mergeArrayCustomizer_object (ov : jsval) (sps : gmap string jsval) :
  mergeArrayCustomizer ov (VObj sps) = VUndef.
Proof. by destruct ov. Qed.

Lemma mergeArrayCustomizer_scalar (ov sv : jsval) :
  isScalar sv = true → mergeArrayCustomizer ov sv = VUndef.
Proof. by destruct ov, sv. Qed.

(** A scalar the source holds at the end of a path through objects is in
    the merged value at that path, whatever the destination held. *)
Lemma baseGet_baseMergeValue_objects (c : customizer) (keys : path)
  (key : string) (ov sv v : jsval) :
  (∀ ov sps, c ov (VObj sps) = VUndef) →
  (∀ ov sv, isScalar sv = true → c ov sv = VUndef) →
  objectsAlong sv keys →
  isScalar v = true →
  baseGet sv (keys ++ [key]) = v →
  baseGet (baseMergeValue c ov sv) (keys ++ [key]) = v.
Proof.
  intros Hobj Hsc. revert ov sv.
  induction keys as [|k keys IH]; intros ov sv Halong Hv Hget.
  - destruct (objectsAlong_object _ _ Halong) as [sps ->].
    rewrite baseMergeValue_eq, Hobj.
    cbn [isUndef]. rewrite app_nil_l in Hget |- *.
    rewrite baseGet_cons in Hget |- *. cbn [baseGet] in *.
    rewrite getKey_baseMerge by (by destruct (isObject ov) eqn:E).
    rewrite getKey_ownProp in Hget.
    destruct (ownProp (VObj sps) key) as [x|]; simpl in Hget;
      [subst x|by subst v].
    rewrite baseMergeValue_eq, Hsc by done.
    by destruct v.
  - destruct (objectsAlong_object _ _ Halong) as [sps ->].
    rewrite baseMergeValue_eq, Hobj.
    cbn [isUndef]. rewrite <- app_comm_cons in Hget |- *.
    rewrite baseGet_cons in Hget |- *.
    cbn [objectsAlong] in Halong.
    rewrite getKey_baseMerge by (by destruct (isObject ov) eqn:E).
    pose proof (getKey_ownProp (VObj sps) k) as Hk.
    destruct (objectsAlong_object _ _ Halong) as [cps Hchild].
    rewrite Hchild in Hk.
    destruct (ownProp (VObj sps) k) as [child|]; simpl in Hk; [subst child|done].
    assert (∀ old, pick old (baseMergeValue c old (VObj cps))
                   = baseMergeValue c old (VObj cps)) as ->.
    { intros old. unfold pick. rewrite baseMergeValue_eq, Hobj.
      assert (isObject (baseMerge c (if isObject old then old else VObj ∅)
                          (VObj cps)) = true) as Hm.
      { apply isObject_baseMerge. by destruct (isObject old) eqn:E. }
      by destruct (baseMerge c _ (VObj cps)). }
    apply IH; [by rewrite <- Hchild|done|by rewrite <- Hchild].
Qed.

Lemma baseGet_mergeWith_objects (keys : path) (key : string)
  (object source v : jsval) :
  isObject object = true →
  objectsAlong source keys →
  isScalar v = true →
  baseGet source (keys ++ [key]) = v →
  baseGet (_mergeWith object source mergeArrayCustomizer) (keys ++ [key])
  = v.
Proof.
  intros Hobject Halong Hv Hget.
  pose proof (baseGet_baseMergeValue_objects mergeArrayCustomizer keys key
                object source v mergeArrayCustomizer_object
                mergeArrayCustomizer_scalar Halong Hv Hget) as Hm.
  destruct (objectsAlong_object _ _ Halong) as [sps ->].
  rewrite baseMergeValue_eq, mergeArrayCustomizer_object, Hobject in Hm.
  unfold _mergeWith. by rewrite Hobject.
Qed.

Lemma isObject_mergeWith (object source : jsval) (c : customizer) :
  isObject (_mergeWith object source c) = isObject object.
Proof.
  unfold _mergeWith. destruct (isObject object) eqn:E; [|done].
  by apply isObject_baseMerge.
Qed.

Lemma getKey_mergeWith_other (object source : jsval) (c : customizer)
  (k : string) :
  ownProp source k = None →
  getKey (_mergeWith object source c) k = getKey object k.
Proof.
  intros Hk. unfold _mergeWith. destruct (isObject object) eqn:E; [|done].
  by rewrite getKey_baseMerge, Hk.
Qed.

Section overrides.
Context `{Externals}.
Variable plugin : Plugin.
Variable project : Project.

Lemma alexa_getJovoModel_run (locale : string) (w : World) (model : jsval) :
  models w !! locale = Some model →
  Alexa.getJovoModel plugin project locale w =
  (w, Ok (_mergeWith
            (_mergeWith model
               (jsOr (getParameter project ["languageModel"; locale])
                  (VObj ∅)) mergeArrayCustomizer)
            (_get (config plugin) ["options"; "languageModel"; locale]
               (VObj ∅)) mergeArrayCustomizer)).
Proof.
  intros Hmodel.
  unfold Alexa.getJovoModel, project_getModel, mbind, M_bind, bind.
  by rewrite Hmodel.
Qed.

Lemma google_getModel_run (locale : string) (w : World) (model : jsval) :
  models w !! locale = Some model →
  Google.getModel plugin project locale w =
  (w, Ok (_mergeWith
            (_mergeWith model
               (jsOr (getParameter project ["languageModel"; locale])
                  (VObj ∅)) mergeArrayCustomizer)
            (_get (config plugin) ["languageModel"; locale] (VObj ∅))
            mergeArrayCustomizer)).
Proof.
  intros Hmodel.
  unfold Google.getModel, project_getModel, mbind, M_bind, bind.
  by rewrite Hmodel.
Qed.

End overrides.

(** The two overrides merged into a model, one after the other. *)
Lemma merged_overrides_win (model projectLevel pluginLevel : jsval)
  (keys : path) (key : string) (v : jsval) :
  isObject model = true →
  isScalar v = true →
  let merged :=
    _mergeWith (_mergeWith model projectLevel mergeArrayCustomizer)
      pluginLevel mergeArrayCustomizer in
  (objectsAlong pluginLevel keys →
   baseGet pluginLevel (keys ++ [key]) = v →
   baseGet merged (keys ++ [key]) = v)
  ∧ (ownProp pluginLevel (hd key keys) = None →
     objectsAlong projectLevel keys →
     baseGet projectLevel (keys ++ [key]) = v →
     baseGet merged (keys ++ [key]) = v).
Proof.
  intros Hmodel Hv merged. split.
  - intros Halong Hget. apply baseGet_mergeWith_objects; try done.
    by rewrite isObject_mergeWith.
  - intros Hnone Halong Hget.
    pose proof (baseGet_mergeWith_objects keys key model projectLevel v
                  Hmodel Halong Hv Hget) as Hm.
    unfold merged.
    destruct keys as [|k keys];
      [rewrite app_nil_l in Hm |- * | rewrite <- app_comm_cons in Hm |- *];
      rewrite baseGet_cons in Hm |- *;
      by rewrite getKey_mergeWith_other.
Qed.

(** X10.  In the model [getJovoModel] (Alexa) and [getModel] (Google) hand
    out, the language model of the plugin configuration has the last word:
    a scalar it holds at the end of a path through objects is in the model
    at that path.  Where the plugin configuration has nothing under the
    first key of the path, the same holds of the project's language
    model.  The file's own value stands only where neither speaks. *)
Theorem model_overrides_precedence `{Externals}
  (plugin : Plugin) (project : Project) (locale : string) (w : World)
  (model : jsval) (keys : path) (key : string) (v : jsval) :
  plainKey locale = true →
  models w !! locale = Some model →
  isObject model = true →
  isScalar v = true →
  let projectLevel :=
    jsOr (getParameter project ["languageModel"; locale]) (VObj ∅) in
  let wins := λ (pluginLevel : jsval) (load : M jsval),
    ∃ merged,
      load w = (w, Ok merged)
      ∧ (objectsAlong pluginLevel keys →
         baseGet pluginLevel (keys ++ [key]) = v →
         baseGet merged (keys ++ [key]) = v)
      ∧ (isObject pluginLevel = true →
         ownProp pluginLevel (hd key keys) = None →
         objectsAlong projectLevel keys →
         baseGet projectLevel (keys ++ [key]) = v →
         baseGet merged (keys ++ [key]) = v) in
  wins (_get (config plugin) ["options"; "languageModel"; locale] (VObj ∅))
    (Alexa.getJovoModel plugin project locale)
  ∧ wins (_get (config plugin) ["languageModel"; locale] (VObj ∅))
      (Google.getModel plugin project locale).
Proof.
  intros _ Hfile Hmodel Hv projectLevel wins. split.
  - eexists. split; [by apply alexa_getJovoModel_run|].
    destruct (merged_overrides_win model projectLevel
                (_get (config plugin) ["options"; "languageModel"; locale]
                   (VObj ∅)) keys key v Hmodel Hv) as [H1 H2].
    split; [done|]. intros _. apply H2.
  - eexists. split; [by apply google_getModel_run|].
    destruct (merged_overrides_win model projectLevel
                (_get (config plugin) ["languageModel"; locale] (VObj ∅))
                keys key v Hmodel Hv) as [H1 H2].
    split; [done|]. intros _. apply H2.
Qed.

Lemma model_overrides_precedence_witness :
  let plugin :=
    examplePlugin []
      (VObj {[ "options" := VObj {[ "languageModel" := VObj {[ "en" :=
                 VObj {[ "invocation" := VStr "plugin app" ]} ]} ]};
               "languageModel" := VObj {[ "en" :=
                 VObj {[ "invocation" := VStr "plugin app" ]} ]} ]}) ∅ in
  let project :=
    {| projectConfig :=
         VObj {[ "languageModel" := VObj {[ "en" :=
           VObj {[ "invocation" := VStr "project app" ]} ]} ]};
       projectName := "hello-world"; hasPlatform := true |} in
  let w := worldWithModel "en" (VObj {[ "invocation" := VStr "my app" ]}) in
  (∃ merged,
     @Alexa.getJovoModel exampleExternals plugin project "en" w
     = (w, Ok merged)
     ∧ baseGet merged ([] ++ ["invocation"]) = VStr "plugin app")
  ∧ (∃ merged,
       @Google.getModel exampleExternals plugin project "en" w
       = (w, Ok merged)
       ∧ baseGet merged ([] ++ ["invocation"]) = VStr "plugin app").
Proof.
  intros plugin project w.
  destruct (@model_overrides_precedence exampleExternals plugin project "en"
              w (VObj {[ "invocation" := VStr "my app" ]}) []
              "invocation" (VStr "plugin app")
              eq_refl eq_refl eq_refl eq_refl)
    as [(merged & Hrun & Hplugin & _) (merged' & Hrun' & Hplugin' & _)].
  split.
  - exists merged. split; [done|]. apply Hplugin; [exact I|reflexivity].
  - exists merged'. split; [done|]. apply Hplugin'; [exact I|reflexivity].
Defined.

(** X11.  The overrides take nothing away: a key of the model file under
    which neither the project's nor the plugin's language model has
    anything holds in the merged model what it holds in the file. *)
Theorem model_overrides_keep_other_keys `{Externals}
  (plugin : Plugin) (project : Project) (locale : string) (w : World)
  (model : jsval) (key : string) :
  plainKey locale = true →
  models w !! locale = Some model →
  let projectLevel :=
    jsOr (getParameter project ["languageModel"; locale]) (VObj ∅) in
  let keeps := λ (pluginLevel : jsval) (load : M jsval),
    isObject projectLevel = true →
    isObject pluginLevel = true →
    ownProp projectLevel key = None →
    ownProp pluginLevel key = None →
    ∃ merged, load w = (w, Ok merged) ∧ getKey merged key = getKey model key
  in
  keeps (_get (config plugin) ["options"; "languageModel"; locale] (VObj ∅))
    (Alexa.getJovoModel plugin project locale)
  ∧ keeps (_get (config plugin) ["languageModel"; locale] (VObj ∅))
      (Google.getModel plugin project locale).
Proof.
  intros _ Hfile projectLevel keeps. split.
  - intros _ _ Hproject Hplugin. eexists.
    split; [by apply alexa_getJovoModel_run|].
    by rewrite !getKey_mergeWith_other.
  - intros _ _ Hproject Hplugin. eexists.
    split; [by apply google_getModel_run|].
    by rewrite !getKey_mergeWith_other.
Qed.

Lemma model_overrides_keep_other_keys_witness :
  let plugin :=
    examplePlugin []
      (VObj {[ "options" := VObj {[ "languageModel" := VObj {[ "en" :=
                 VObj {[ "invocation" := VStr "plugin app" ]} ]} ]} ]}) ∅ in
  let model :=
    VObj {[ "invocation" := VStr "my app";
            "intents" := arr [VObj {[ "name" := VStr "HelloIntent" ]}] ]} in
  let w := worldWithModel "en" model in
  (∃ merged,
     @Alexa.getJovoModel exampleExternals plugin exampleProject "en" w
     = (w, Ok merged)
     ∧ getKey merged "intents" = getKey model "intents")
  ∧ (∃ merged,
       @Google.getModel exampleExternals plugin exampleProject "en" w
       = (w, Ok merged)
       ∧ getKey merged "intents" = getKey model "intents").
Proof.
  intros plugin model w.
  destruct (@model_overrides_keep_other_keys exampleExternals plugin
              exampleProject "en" w model "intents" eq_refl eq_refl)
    as [HA HG].
  split; [apply HA|apply HG]; reflexivity.
Defined.

(** ** Guarded writes *)

Lemma isObject_baseSet (o : jsval) (p : path) (v : jsval) :
  isObject (baseSet o p v) = isObject o.
Proof.
  destruct p as [|k [|k' p]]; [done|apply isObject_setKey|].
  cbn [baseSet]. apply isObject_setKey.
Qed.

Lemma isObject_set (o : jsval) (p : path) (v : jsval) :
  isObject (_set o p v) = isObject o.
Proof.
  unfold _set. destruct (isObject o) eqn:E; [|done].
  by rewrite isObject_baseSet.
Qed.

Lemma isObject_setIfMissing (o : jsval) (p : path) (v : jsval) :
  isObject (setIfMissing o p v) = isObject o.
Proof. unfold setIfMissing. destruct (negb _); [apply isObject_set|done]. Qed.

Lemma isObject_fresh (next : string) :
  isObject (if isIndex next then VArr [] ∅ else VObj ∅) = true.
Proof. by destruct (isIndex next). Qed.

Lemma has_cons (o : jsval) (k : string) (p : path) :
  p ≠ [] → _has o (k :: p) = hasKey o k && _has (getKey o k) p.
Proof. by destruct p. Qed.

(** What was written is there. *)
Lemma has_baseSet (o : jsval) (p : path) (v : jsval) :
  isObject o = true → p ≠ [] → _has (baseSet o p v) p = true.
Proof.
  revert o. induction p as [|k p IH]; intros o Ho Hp; [done|].
  destruct p as [|k' p].
  - cbn [baseSet _has]. by rewrite hasKey_setKey_eq.
  - rewrite baseSet_cons, has_cons by done.
    rewrite hasKey_setKey_eq, getKey_setKey_eq by done.
    rewrite andb_true_l.
    apply IH; [|done].
    destruct (isObject (getKey o k)) eqn:E; [done|apply isObject_fresh].
Qed.

Lemma baseGet_baseSet_eq (o : jsval) (p : path) (v : jsval) :
  isObject o = true → p ≠ [] → baseGet (baseSet o p v) p = v.
Proof.
  revert o. induction p as [|k p IH]; intros o Ho Hp; [done|].
  destruct p as [|k' p].
  - cbn [baseSet]. rewrite baseGet_cons. cbn [baseGet].
    by apply getKey_setKey_eq.
  - rewrite baseSet_cons, baseGet_cons by done.
    rewrite getKey_setKey_eq by done.
    apply IH; [|done].
    destruct (isObject (getKey o k)) eqn:E; [done|apply isObject_fresh].
Qed.

Lemma has_prefix_key (o : jsval) (k : string) (p : path) :
  _has o (k :: p) = true → hasKey o k = true.
Proof. simpl. by intros [? _]%andb_true_iff. Qed.

(** A write at a path that is missing leaves what is present present. *)
Lemma has_baseSet_mono (o : jsval) (p q : path) (v : jsval) :
  _has o p = false → _has o q = true → _has (baseSet o p v) q = true.
Proof.
  revert o q. induction p as [|k p IH]; intros o q Hp Hq; [done|].
  destruct q as [|kq q]; [done|].
  destruct (decide (k = kq)) as [<-|Hne].
  - pose proof (has_prefix_key _ _ _ Hq) as Hk.
    destruct p as [|k' p];
      [by cbn [_has] in Hp; rewrite Hk in Hp|].
    rewrite baseSet_cons by done.
    rewrite has_cons, Hk in Hp by done. rewrite andb_true_l in Hp.
    destruct q as [|kq' q].
    + cbn [_has]. rewrite andb_true_r. by apply hasKey_setKey_mono.
    + rewrite has_cons in Hq |- * by done.
      apply andb_true_iff in Hq as [_ Hq].
      rewrite hasKey_setKey_mono by done. rewrite andb_true_l.
      rewrite getKey_setKey_eq by (by apply hasKey_isObject in Hk).
      assert (isObject (getKey o k) = true) as ->.
      { by apply has_prefix_key, hasKey_isObject in Hq. }
      by apply IH.
  - assert (∀ x, _has (setKey o k x) (kq :: q) = true) as Hset.
    { intros x. destruct q as [|kq' q].
      - cbn [_has] in *. rewrite andb_true_r in *.
        by apply hasKey_setKey_mono.
      - rewrite has_cons in Hq |- * by done.
        apply andb_true_iff in Hq as [Hk Hq].
        by rewrite hasKey_setKey_mono, getKey_setKey_ne. }
    destruct p as [|k' p]; [apply Hset|].
    rewrite baseSet_cons by done. apply Hset.
Qed.

Lemma has_setIfMissing_mono (o : jsval) (p q : path) (v : jsval) :
  _has o q = true → _has (setIfMissing o p v) q = true.
Proof.
  intros Hq. unfold setIfMissing.
  destruct (_has o p) eqn:Hp; [done|]. simpl. unfold _set.
  destruct (isObject o); [|done]. by apply has_baseSet_mono.
Qed.

(** After a guarded write the path is present. *)
Lemma has_setIfMissing (o : jsval) (p : path) (v : jsval) :
  isObject o = true → p ≠ [] → _has (setIfMissing o p v) p = true.
Proof.
  intros Ho Hp. unfold setIfMissing.
  destruct (_has o p) eqn:E; [done|]. simpl. unfold _set. rewrite Ho.
  by apply has_baseSet.
Qed.

(** A guarded write leaves at its path what was there, or puts its value
    there. *)
Lemma baseGet_setIfMissing (o : jsval) (p : path) (v : jsval) :
  isObject o = true → p ≠ [] →
  baseGet (setIfMissing o p v) p = if _has o p then baseGet o p else v.
Proof.
  intros Ho Hp. unfold setIfMissing.
  destruct (_has o p) eqn:E; [done|]. simpl. unfold _set. rewrite Ho.
  by apply baseGet_baseSet_eq.
Qed.

Lemma baseGet_setIfMissing_diverge (o : jsval) (p q : path) (v : jsval) :
  diverge p q → baseGet (setIfMissing o q v) p = baseGet o p.
Proof.
  intros Hd. unfold setIfMissing. destruct (negb _); [|done].
  by apply baseGet_set_diverge.
Qed.

Lemma diverge_sym (p q : path) : diverge p q → diverge q p.
Proof.
  intros (c & k1 & k2 & p' & q' & -> & -> & Hne).
  by exists c, k2, k1, q', p'.
Qed.

(** Two paths that differ in their last key only. *)
Lemma diverge_last (c : path) (k1 k2 : string) :
  k1 ≠ k2 → diverge (c ++ [k1]) (c ++ [k2]).
Proof. intros Hne. by exists c, k1, k2, [], []. Qed.

(** A guarded write, under a condition or not, leaves a present value at a
    path that is the path of the write or parts ways with it. *)
Lemma guarded_set_present (cond : bool) (o : jsval) (g g' : path)
  (v : jsval) :
  _has o g = true →
  g' = g ∨ diverge g g' →
  baseGet (if cond && negb (_has o g') then _set o g' v else o) g
  = baseGet o g
  ∧ _has (if cond && negb (_has o g') then _set o g' v else o) g = true.
Proof.
  intros Hg Hrel.
  destruct (cond && negb (_has o g')) eqn:Hc; [|done].
  apply andb_true_iff in Hc as [_ Hc]. apply negb_true_iff in Hc.
  destruct Hrel as [->|Hd]; [congruence|].
  split; [by apply baseGet_set_diverge|].
  unfold _set. destruct (isObject o); [|done]. by apply has_baseSet_mono.
Qed.

Lemma guarded_set_diverge (cond : bool) (o : jsval) (g g' : path)
  (v : jsval) :
  diverge g g' →
  baseGet (if cond && negb (_has o g') then _set o g' v else o) g
  = baseGet o g.
Proof.
  intros Hd. destruct (cond && negb (_has o g')); [|done].
  by apply baseGet_set_diverge.
Qed.

Lemma isObject_guarded_set (cond : bool) (o : jsval) (g : path) (v : jsval) :
  isObject (if cond && negb (_has o g) then _set o g v else o) = isObject o.
Proof. destruct (cond && negb (_has o g)); [apply isObject_set|done]. Qed.

Lemma setIfMissing_guarded (o : jsval) (g : path) (v : jsval) :
  setIfMissing o g v = if true && negb (_has o g) then _set o g v else o.
Proof. done. Qed.

(** ** The project files of Alexa *)

Lemma alexa_paths_related (locale locale' : string) :
  diverge Alexa.endpointPath Alexa.skillIdPath
  ∧ diverge Alexa.endpointPath (Alexa.publishingInformationPath locale)
  ∧ diverge Alexa.endpointPath (Alexa.privacyAndCompliancePath locale)
  ∧ diverge Alexa.skillIdPath (Alexa.publishingInformationPath locale)
  ∧ diverge Alexa.skillIdPath (Alexa.privacyAndCompliancePath locale)
  ∧ diverge (Alexa.publishingInformationPath locale)
      (Alexa.privacyAndCompliancePath locale')
  ∧ (locale ≠ locale' →
     diverge (Alexa.publishingInformationPath locale)
       (Alexa.publishingInformationPath locale'))
  ∧ (locale ≠ locale' →
     diverge (Alexa.privacyAndCompliancePath locale)
       (Alexa.privacyAndCompliancePath locale')).
Proof.
  repeat split.
  - by eexists [], "skill-package/", ".ask/", _, _.
  - by eexists ["skill-package/"; "skill.json"; "manifest"], "apis",
      "publishingInformation", _, _.
  - by eexists ["skill-package/"; "skill.json"; "manifest"], "apis",
      "privacyAndCompliance", _, _.
  - by eexists [], ".ask/", "skill-package/", _, _.
  - by eexists [], ".ask/", "skill-package/", _, _.
  - by eexists ["skill-package/"; "skill.json"; "manifest"],
      "publishingInformation", "privacyAndCompliance", _, _.
  - intros Hne.
    by exists ["skill-package/"; "skill.json"; "manifest";
               "publishingInformation"; "locales"], locale, locale', [], [].
  - intros Hne.
    by exists ["skill-package/"; "skill.json"; "manifest";
               "privacyAndCompliance"; "locales"], locale, locale', [], [].
Qed.

(** The paths of the generated values of Alexa are the same or part
    ways. *)
Lemma alexaGeneratedPaths_related (plugin : Plugin) (ctx : Context)
  (g g' : path) :
  g ∈ alexaGeneratedPaths plugin ctx →
  g' ∈ alexaGeneratedPaths plugin ctx →
  g' = g ∨ diverge g g'.
Proof.
  assert (∀ h, h ∈ alexaGeneratedPaths plugin ctx →
               h = Alexa.endpointPath ∨ h = Alexa.skillIdPath
               ∨ (∃ l, h = Alexa.publishingInformationPath l)
               ∨ (∃ l, h = Alexa.privacyAndCompliancePath l)) as Hshape.
  { intros h Hh. unfold alexaGeneratedPaths in Hh.
    apply elem_of_cons in Hh as [->|Hh]; [by left|].
    apply elem_of_cons in Hh as [->|Hh]; [by right; left|].
    apply list_elem_of_In, in_flat_map in Hh as (l & _ & Hh).
    apply list_elem_of_In in Hh.
    apply elem_of_cons in Hh as [->|Hh]; [right; right; left; by exists l|].
    apply list_elem_of_singleton in Hh as ->.
    right; right; right; by exists l. }
  intros Hg Hg'.
  assert (∀ l l', Alexa.publishingInformationPath l'
                  = Alexa.publishingInformationPath l
                  ∨ diverge (Alexa.publishingInformationPath l)
                      (Alexa.publishingInformationPath l')) as Hpub.
  { intros l l'. destruct (decide (l = l')) as [->|Hne]; [by left|].
    right. by apply alexa_paths_related. }
  assert (∀ l l', Alexa.privacyAndCompliancePath l'
                  = Alexa.privacyAndCompliancePath l
                  ∨ diverge (Alexa.privacyAndCompliancePath l)
                      (Alexa.privacyAndCompliancePath l')) as Hpriv.
  { intros l l'. destruct (decide (l = l')) as [->|Hne]; [by left|].
    right. by apply alexa_paths_related. }
  pose proof (proj1 (alexa_paths_related "" "")) as H1.
  pose proof (λ l, proj1 (proj2 (alexa_paths_related l l))) as H2.
  pose proof (λ l, proj1 (proj2 (proj2 (alexa_paths_related l l)))) as H3.
  pose proof (λ l, proj1 (proj2 (proj2 (proj2 (alexa_paths_related l l)))))
    as H4.
  pose proof (λ l, proj1 (proj2 (proj2 (proj2 (proj2
                     (alexa_paths_related l l)))))) as H5.
  pose proof (λ l l', proj1 (proj2 (proj2 (proj2 (proj2 (proj2
                        (alexa_paths_related l l'))))))) as H6.
  destruct (Hshape g Hg) as [->|[->|[[l ->]|[l ->]]]];
    destruct (Hshape g' Hg') as [->|[->|[[l' ->]|[l' ->]]]];
    first [ by left | apply Hpub | apply Hpriv
          | right; first [ apply H1 | apply H2 | apply H3 | apply H4
                         | apply H5 | apply H6 ]; done
          | right; apply diverge_sym;
            first [ apply H1 | apply H2 | apply H3 | apply H4
                  | apply H5 | apply H6 ]; done ].
Qed.

Section alexa_files.
Context `{Externals}.
Variable plugin : Plugin.
Variable project : Project.
Variable ctx : Context.

Lemma alexa_localeFiles_isObject (skillName locale : string) (o : jsval) :
  isObject (Alexa.localeFiles skillName o locale) = isObject o.
Proof. unfold Alexa.localeFiles. by rewrite !isObject_setIfMissing. Qed.

Lemma alexa_locales_isObject (skillName : string) (locales : list string)
  (o : jsval) :
  isObject (fold_left (Alexa.localeFiles skillName) locales o) = isObject o.
Proof.
  revert o. induction locales as [|l locales IH]; intros o; [done|].
  cbn [fold_left]. by rewrite IH, alexa_localeFiles_isObject.
Qed.

Lemma alexa_localeFiles_has (skillName locale : string) (o : jsval)
  (q : path) :
  _has o q = true → _has (Alexa.localeFiles skillName o locale) q = true.
Proof.
  intros Hq. unfold Alexa.localeFiles. by do 2 apply has_setIfMissing_mono.
Qed.

Lemma alexa_locales_has (skillName : string) (locales : list string)
  (o : jsval) (q : path) :
  _has o q = true →
  _has (fold_left (Alexa.localeFiles skillName) locales o) q = true.
Proof.
  revert o. induction locales as [|l locales IH]; intros o Hq; [done|].
  cbn [fold_left]. by apply IH, alexa_localeFiles_has.
Qed.

(** One round of the loop leaves a present value at a generated path. *)
Lemma alexa_localeFiles_present (skillName locale : string) (o : jsval)
  (g : path) :
  _has o g = true →
  Alexa.publishingInformationPath locale = g
  ∨ diverge g (Alexa.publishingInformationPath locale) →
  Alexa.privacyAndCompliancePath locale = g
  ∨ diverge g (Alexa.privacyAndCompliancePath locale) →
  baseGet (Alexa.localeFiles skillName o locale) g = baseGet o g.
Proof.
  intros Hg Hpub Hpriv. unfold Alexa.localeFiles.
  rewrite !setIfMissing_guarded.
  destruct (guarded_set_present true o g
              (Alexa.publishingInformationPath locale)
              (Alexa.publishingInformation skillName) Hg Hpub) as [Hv Hh].
  destruct (guarded_set_present true _ g
              (Alexa.privacyAndCompliancePath locale)
              Alexa.privacyAndCompliance Hh Hpriv) as [Hv' _].
  by rewrite Hv', Hv.
Qed.

Lemma alexa_locales_present (skillName : string) (locales : list string)
  (o : jsval) (g : path) :
  _has o g = true →
  Forall (λ locale,
            (Alexa.publishingInformationPath locale = g
             ∨ diverge g (Alexa.publishingInformationPath locale))
            ∧ (Alexa.privacyAndCompliancePath locale = g
               ∨ diverge g (Alexa.privacyAndCompliancePath locale)))
    locales →
  baseGet (fold_left (Alexa.localeFiles skillName) locales o) g
  = baseGet o g.
Proof.
  intros Hg Hall. revert o Hg.
  induction Hall as [|l locales [Hpub Hpriv] _ IH]; intros o Hg; [done|].
  cbn [fold_left]. rewrite IH by (by apply alexa_localeFiles_has).
  by apply alexa_localeFiles_present.
Qed.

(** One round of the loop puts the sample publishing information and
    privacy entry of its locale where there was none, and changes those of
    no locale otherwise. *)
Lemma alexa_localeFiles_values (skillName locale l : string) (o : jsval) :
  isObject o = true →
  (baseGet (Alexa.localeFiles skillName o locale)
     (Alexa.publishingInformationPath l)
   = Alexa.publishingInformation skillName
   ∨ baseGet (Alexa.localeFiles skillName o locale)
       (Alexa.publishingInformationPath l)
     = baseGet o (Alexa.publishingInformationPath l))
  ∧ (baseGet (Alexa.localeFiles skillName o locale)
       (Alexa.privacyAndCompliancePath l)
     = Alexa.privacyAndCompliance
     ∨ baseGet (Alexa.localeFiles skillName o locale)
         (Alexa.privacyAndCompliancePath l)
       = baseGet o (Alexa.privacyAndCompliancePath l)).
Proof.
  intros Ho. unfold Alexa.localeFiles.
  pose proof (alexa_paths_related l locale) as (_ & _ & _ & _ & _ & Hpp & Hpub & Hpriv).
  pose proof (alexa_paths_related locale l) as (_ & _ & _ & _ & _ & Hpp' & _).
  split.
  - rewrite baseGet_setIfMissing_diverge by done.
    destruct (decide (l = locale)) as [->|Hne].
    + rewrite baseGet_setIfMissing by done.
      destruct (_has o _); [by right|by left].
    + right. by apply baseGet_setIfMissing_diverge, Hpub.
  - destruct (decide (l = locale)) as [->|Hne].
    + rewrite baseGet_setIfMissing
        by (by rewrite ?isObject_setIfMissing).
      destruct (_has _ _); [|by left]. right.
      by apply baseGet_setIfMissing_diverge, diverge_sym.
    + right. rewrite baseGet_setIfMissing_diverge by (by apply Hpriv).
      by apply baseGet_setIfMissing_diverge, diverge_sym.
Qed.

Lemma alexa_locales_values (skillName : string) (locales : list string)
  (l : string) (o : jsval) :
  isObject o = true →
  (baseGet (fold_left (Alexa.localeFiles skillName) locales o)
     (Alexa.publishingInformationPath l)
   = Alexa.publishingInformation skillName
   ∨ baseGet (fold_left (Alexa.localeFiles skillName) locales o)
       (Alexa.publishingInformationPath l)
     = baseGet o (Alexa.publishingInformationPath l))
  ∧ (baseGet (fold_left (Alexa.localeFiles skillName) locales o)
       (Alexa.privacyAndCompliancePath l)
     = Alexa.privacyAndCompliance
     ∨ baseGet (fold_left (Alexa.localeFiles skillName) locales o)
         (Alexa.privacyAndCompliancePath l)
       = baseGet o (Alexa.privacyAndCompliancePath l)).
Proof.
  revert o. induction locales as [|l0 locales IH]; intros o Ho.
  - split; by right.
  - cbn [fold_left].
    destruct (IH (Alexa.localeFiles skillName o l0))
      as [Hpub Hpriv]; [by rewrite alexa_localeFiles_isObject|].
    destruct (alexa_localeFiles_values skillName l0 l o Ho) as [Hpub0 Hpriv0].
    split.
    + destruct Hpub as [-> | ->]; [by left|done].
    + destruct Hpriv as [-> | ->]; [by left|done].
Qed.

Lemma alexa_locales_complete (skillName : string) (locales : list string)
  (l : string) (o : jsval) :
  isObject o = true →
  l ∈ locales →
  _has (fold_left (Alexa.localeFiles skillName) locales o)
    (Alexa.publishingInformationPath l) = true
  ∧ _has (fold_left (Alexa.localeFiles skillName) locales o)
      (Alexa.privacyAndCompliancePath l) = true.
Proof.
  revert o. induction locales as [|l0 locales IH]; intros o Ho Hl.
  - by apply elem_of_nil in Hl.
  - cbn [fold_left]. apply elem_of_cons in Hl as [->|Hl].
    + split; apply alexa_locales_has; unfold Alexa.localeFiles.
      * apply has_setIfMissing_mono. by apply has_setIfMissing.
      * apply has_setIfMissing; [by rewrite isObject_setIfMissing|done].
    + apply IH; [by rewrite alexa_localeFiles_isObject|done].
Qed.

End alexa_files.

Lemma has_set_other_key (o : jsval) (k1 k2 : string) (p q : path)
  (v : jsval) :
  k1 ≠ k2 → arrayIndex k1 = None →
  _has (_set o (k2 :: q) v) (k1 :: p) = _has o (k1 :: p).
Proof.
  intros Hne Hk1. unfold _set. destruct (isObject o) eqn:Ho; [|done].
  assert (∀ x, _has (setKey o k2 x) (k1 :: p) = _has o (k1 :: p)) as Hset.
  { intros x.
    assert (hasKey (setKey o k2 x) k1 = hasKey o k1) as Hk.
    { destruct o as [| | | | |xs ps|ps]; try done; simpl.
      - rewrite Hk1. destruct (arrayIndex k2) as [i|]; simpl.
        + destruct (decide (i < length xs)); simpl; by rewrite Hk1.
        + rewrite Hk1. by rewrite lookup_insert_ne.
      - by rewrite lookup_insert_ne. }
    destruct p as [|k p]; cbn [_has]; rewrite Hk; [done|].
    by rewrite getKey_setKey_ne. }
  destruct q as [|k q]; [apply Hset|].
  rewrite baseSet_cons by done. apply Hset.
Qed.

Lemma alexa_locales_noop `{Externals} (skillName : string)
  (locales : list string) (o : jsval) :
  Forall (λ l, _has o (Alexa.publishingInformationPath l) = true
               ∧ _has o (Alexa.privacyAndCompliancePath l) = true) locales →
  fold_left (Alexa.localeFiles skillName) locales o = o.
Proof.
  induction 1 as [|l locales [Hpub Hpriv] _ IH]; [done|].
  cbn [fold_left]. unfold Alexa.localeFiles at 2.
  by rewrite (setIfMissing_present _ _ _ Hpub), (setIfMissing_present _ _ _ Hpriv).
Qed.

(** X12.  A value that is present at the path of a generated value of Alexa
    (the endpoint, the skill id, the publishing information or the privacy
    entry of a resolved locale) stays as it is, whatever it is: an object
    there is not filled up, and the path is still present in the end. *)
Theorem alexa_project_files_keep_present `{Externals}
  (plugin : Plugin) (project : Project) (ctx : Context) (g : path) :
  let files :=
    normalizeFileObject (_get (config plugin) ["files"] (VObj ∅)) in
  let base :=
    if hasPlatform project then files else _merge alexaDefaultFiles files in
  Forall (λ locale, plainKey locale = true)
    (flat_map (getResolvedLocales plugin) (locales ctx)) →
  g ∈ alexaGeneratedPaths plugin ctx →
  _has base g = true →
  baseGet (Alexa.createAlexaProjectFiles plugin project ctx) g
  = baseGet base g
  ∧ _has (Alexa.createAlexaProjectFiles plugin project ctx) g = true.
Proof.
  intros files base _ Hg Hhas.
  unfold Alexa.createAlexaProjectFiles. fold files. fold base.
  set (endpoint := Alexa.getPluginEndpoint plugin project).
  set (skillId := _get (config plugin) ["options"; "skillId"] VUndef).
  assert (Alexa.endpointPath ∈ alexaGeneratedPaths plugin ctx) as Hep
    by apply list_elem_of_here.
  assert (Alexa.skillIdPath ∈ alexaGeneratedPaths plugin ctx) as Hsp
    by apply list_elem_of_further, list_elem_of_here.
  destruct (guarded_set_present (negb (String.eqb endpoint "")) base g
              Alexa.endpointPath (Alexa.endpointValue endpoint) Hhas
              (alexaGeneratedPaths_related plugin ctx _ _ Hg Hep))
    as [Hv1 Hh1].
  set (pf1 := if negb (String.eqb endpoint "")
                 && negb (_has base Alexa.endpointPath)
              then _set base Alexa.endpointPath (Alexa.endpointValue endpoint)
              else base) in *.
  destruct (guarded_set_present (truthy skillId) pf1 g
              Alexa.skillIdPath skillId Hh1
              (alexaGeneratedPaths_related plugin ctx _ _ Hg Hsp))
    as [Hv2 Hh2].
  set (pf2 := if truthy skillId && negb (_has pf1 Alexa.skillIdPath)
              then _set pf1 Alexa.skillIdPath skillId else pf1) in *.
  split; [|by apply alexa_locales_has].
  rewrite alexa_locales_present; [congruence|done|].
  apply Forall_forall. intros l Hl.
  split; apply (alexaGeneratedPaths_related plugin ctx); try done;
    unfold alexaGeneratedPaths; do 2 apply list_elem_of_further;
    apply list_elem_of_In, in_flat_map; exists l;
    (split; [by apply list_elem_of_In|]); [by left|right; by left].
Qed.

Lemma alexa_project_files_keep_present_witness :
  let plugin :=
    examplePlugin []
      (VObj {[ "files" :=
                 filesWithPublishingInformation "en-US" "Hallo Welt" ]}) ∅ in
  let ctx := exampleContext ["en-US"] in
  let result :=
    @Alexa.createAlexaProjectFiles exampleExternals plugin exampleProject
      ctx in
  baseGet result (Alexa.publishingInformationPath "en-US")
  = baseGet (filesWithPublishingInformation "en-US" "Hallo Welt")
      (Alexa.publishingInformationPath "en-US")
  ∧ _has result (Alexa.publishingInformationPath "en-US") = true.
Proof.
  intros plugin ctx result.
  apply (@alexa_project_files_keep_present exampleExternals plugin
           exampleProject ctx (Alexa.publishingInformationPath "en-US")).
  - repeat constructor.
  - vm_compute. do 2 right. left.
  - reflexivity.
Defined.

(** X13.  The project files of Alexa are complete: when the base they start
    from is an object, they hold, for every resolved locale, publishing
    information and a privacy entry, and each of the two is the sample
    value generated with the name of the project, or what the base held at
    its path. *)
Theorem alexa_project_files_locales `{Externals}
  (plugin : Plugin) (project : Project) (ctx : Context) (locale : string) :
  let files :=
    normalizeFileObject (_get (config plugin) ["files"] (VObj ∅)) in
  let base :=
    if hasPlatform project then files else _merge alexaDefaultFiles files in
  let result := Alexa.createAlexaProjectFiles plugin project ctx in
  Forall (λ locale, plainKey locale = true)
    (flat_map (getResolvedLocales plugin) (locales ctx)) →
  isObject base = true →
  locale ∈ flat_map (getResolvedLocales plugin) (locales ctx) →
  _has result (Alexa.publishingInformationPath locale) = true
  ∧ _has result (Alexa.privacyAndCompliancePath locale) = true
  ∧ (baseGet result (Alexa.publishingInformationPath locale)
     = Alexa.publishingInformation (projectName project)
     ∨ baseGet result (Alexa.publishingInformationPath locale)
       = baseGet base (Alexa.publishingInformationPath locale))
  ∧ (baseGet result (Alexa.privacyAndCompliancePath locale)
     = Alexa.privacyAndCompliance
     ∨ baseGet result (Alexa.privacyAndCompliancePath locale)
       = baseGet base (Alexa.privacyAndCompliancePath locale)).
Proof.
  intros files base result _ Hbase Hlocale.
  unfold result, Alexa.createAlexaProjectFiles. fold files. fold base.
  set (endpoint := Alexa.getPluginEndpoint plugin project).
  set (skillId := _get (config plugin) ["options"; "skillId"] VUndef).
  set (pf1 := if negb (String.eqb endpoint "")
                 && negb (_has base Alexa.endpointPath)
              then _set base Alexa.endpointPath (Alexa.endpointValue endpoint)
              else base).
  set (pf2 := if truthy skillId && negb (_has pf1 Alexa.skillIdPath)
              then _set pf1 Alexa.skillIdPath skillId else pf1).
  assert (isObject pf2 = true) as Hpf2.
  { unfold pf2, pf1. by rewrite !isObject_guarded_set. }
  pose proof (alexa_paths_related locale locale)
    as (_ & He1 & He2 & Hs1 & Hs2 & _).
  assert (∀ g, diverge Alexa.endpointPath g → diverge Alexa.skillIdPath g →
               baseGet pf2 g = baseGet base g) as Hsame.
  { intros g Hge Hgs. unfold pf2, pf1.
    rewrite guarded_set_diverge by (by apply diverge_sym).
    by rewrite guarded_set_diverge by (by apply diverge_sym). }
  destruct (alexa_locales_complete (projectName project) _ locale pf2
              Hpf2 Hlocale) as [Hh1 Hh2].
  destruct (alexa_locales_values (projectName project)
              (flat_map (getResolvedLocales plugin) (locales ctx))
              locale pf2 Hpf2) as [Hv1 Hv2].
  rewrite !Hsame in * by done. done.
Qed.

Lemma alexa_project_files_locales_witness :
  let plugin := examplePlugin [] (VObj ∅) {[ "en" := ["en-US"; "en-GB"] ]} in
  let ctx := exampleContext ["en"] in
  let result :=
    @Alexa.createAlexaProjectFiles exampleExternals plugin freshProject ctx
  in
  _has result (Alexa.publishingInformationPath "en-GB") = true
  ∧ _has result (Alexa.privacyAndCompliancePath "en-GB") = true
  ∧ (baseGet result (Alexa.publishingInformationPath "en-GB")
     = Alexa.publishingInformation "hello-world"
     ∨ baseGet result (Alexa.publishingInformationPath "en-GB")
       = baseGet (VObj ∅) (Alexa.publishingInformationPath "en-GB"))
  ∧ (baseGet result (Alexa.privacyAndCompliancePath "en-GB")
     = Alexa.privacyAndCompliance
     ∨ baseGet result (Alexa.privacyAndCompliancePath "en-GB")
       = baseGet (VObj ∅) (Alexa.privacyAndCompliancePath "en-GB")).
Proof.
  intros plugin ctx result.
  apply (@alexa_project_files_locales exampleExternals plugin freshProject
           ctx "en-GB").
  - repeat constructor.
  - reflexivity.
  - vm_compute. right. left.
Defined.

Lemma alexa_locales_diverge `{Externals} (skillName : string)
  (locales : list string) (o : jsval) (g : path) :
  (∀ l, diverge g (Alexa.publishingInformationPath l)) →
  (∀ l, diverge g (Alexa.privacyAndCompliancePath l)) →
  baseGet (fold_left (Alexa.localeFiles skillName) locales o) g
  = baseGet o g.
Proof.
  intros Hpub Hpriv. revert o.
  induction locales as [|l locales IH]; intros o; [done|].
  cbn [fold_left]. rewrite IH. unfold Alexa.localeFiles.
  by rewrite !baseGet_setIfMissing_diverge.
Qed.

(** X14.  The endpoint and the skill id of the project files of Alexa.
    Without an endpoint nothing is generated at the endpoint path.  With
    one and nothing at that path, the files hold there the endpoint as
    [uri], with the certificate type [Wildcard], or [null] for an endpoint
    that starts with [arn].  A skill id of the configuration is put at its
    path when nothing is there. *)
Theorem alexa_project_files_endpoint `{Externals}
  (plugin : Plugin) (project : Project) (ctx : Context) :
  let files :=
    normalizeFileObject (_get (config plugin) ["files"] (VObj ∅)) in
  let base :=
    if hasPlatform project then files else _merge alexaDefaultFiles files in
  let result := Alexa.createAlexaProjectFiles plugin project ctx in
  let endpoint := Alexa.getPluginEndpoint plugin project in
  let skillId := _get (config plugin) ["options"; "skillId"] VUndef in
  Forall (λ locale, plainKey locale = true)
    (flat_map (getResolvedLocales plugin) (locales ctx)) →
  isObject base = true →
  (endpoint = "" →
   baseGet result Alexa.endpointPath = baseGet base Alexa.endpointPath)
  ∧ (endpoint ≠ "" → _has base Alexa.endpointPath = false →
     baseGet result Alexa.endpointPath
     = VObj {[ "sslCertificateType" :=
                 (if String.prefix "arn" endpoint then VNull
                  else VStr "Wildcard");
               "uri" := VStr endpoint ]})
  ∧ (truthy skillId = true → _has base Alexa.skillIdPath = false →
     baseGet result Alexa.skillIdPath = skillId)
  ∧ (truthy skillId = false →
     baseGet result Alexa.skillIdPath = baseGet base Alexa.skillIdPath).
Proof.
  intros files base result endpoint skillId _ Hbase.
  unfold result, Alexa.createAlexaProjectFiles.
  fold files. fold base. fold endpoint. fold skillId.
  set (pf1 := if negb (String.eqb endpoint "")
                 && negb (_has base Alexa.endpointPath)
              then _set base Alexa.endpointPath (Alexa.endpointValue endpoint)
              else base).
  set (pf2 := if truthy skillId && negb (_has pf1 Alexa.skillIdPath)
              then _set pf1 Alexa.skillIdPath skillId else pf1).
  pose proof (λ l, alexa_paths_related l l) as Hrel.
  assert (baseGet (fold_left (Alexa.localeFiles (projectName project))
                     (flat_map (getResolvedLocales plugin) (locales ctx))
                     pf2) Alexa.endpointPath
          = baseGet pf1 Alexa.endpointPath) as He.
  { rewrite alexa_locales_diverge;
      [|intros l; apply (Hrel l)|intros l; apply (Hrel l)].
    unfold pf2. apply guarded_set_diverge, (Hrel ""). }
  assert (baseGet (fold_left (Alexa.localeFiles (projectName project))
                     (flat_map (getResolvedLocales plugin) (locales ctx))
                     pf2) Alexa.skillIdPath
          = baseGet pf2 Alexa.skillIdPath) as Hs.
  { apply alexa_locales_diverge; intros l; apply (Hrel l). }
  assert (isObject pf1 = true) as Hpf1.
  { unfold pf1. by rewrite isObject_guarded_set. }
  assert (_has pf1 Alexa.skillIdPath = _has base Alexa.skillIdPath) as Hhas.
  { unfold pf1. destruct (negb (String.eqb endpoint "")
                          && negb (_has base Alexa.endpointPath)); [|done].
    by apply has_set_other_key. }
  rewrite He, Hs. repeat split.
  - intros Hempty. unfold pf1. by rewrite Hempty.
  - intros Hendpoint Hmissing. unfold pf1.
    apply String.eqb_neq in Hendpoint. rewrite Hendpoint, Hmissing.
    cbn [negb andb]. unfold _set. rewrite Hbase, baseGet_baseSet_eq by done.
    unfold Alexa.endpointValue. by destruct (String.prefix "arn" endpoint).
  - intros Hskill Hmissing. unfold pf2. rewrite Hskill, Hhas, Hmissing.
    cbn [negb andb]. unfold _set. by rewrite Hpf1, baseGet_baseSet_eq.
  - intros Hskill. unfold pf2. rewrite Hskill. cbn [andb].
    unfold pf1. apply guarded_set_diverge, diverge_sym, (Hrel "").
Qed.

Lemma alexa_project_files_endpoint_witness :
  let plugin :=
    examplePlugin []
      (VObj {[ "options" :=
                 VObj {[ "endpoint" := VStr "arn:aws:lambda:skill";
                         "skillId" := VStr "amzn1.ask.skill.config" ]} ]})
      ∅ in
  let ctx := exampleContext ["en-US"] in
  let result :=
    @Alexa.createAlexaProjectFiles exampleExternals plugin freshProject ctx
  in
  baseGet result Alexa.endpointPath
  = VObj {[ "sslCertificateType" := VNull;
            "uri" := VStr "arn:aws:lambda:skill" ]}
  ∧ baseGet result Alexa.skillIdPath = VStr "amzn1.ask.skill.config".
Proof.
  intros plugin ctx result.
  destruct (@alexa_project_files_endpoint exampleExternals plugin
              freshProject ctx) as (_ & Hendpoint & Hskill & _).
  - repeat constructor.
  - reflexivity.
  - split; [by apply Hendpoint|by apply Hskill].
Defined.

(** X15.  Asking again for locales that are already covered changes nothing
    in the project files of Alexa: the entries of a locale are generated
    once. *)
Theorem alexa_project_files_repeated_locales `{Externals}
  (plugin : Plugin) (project : Project) (ctx ctx' : Context)
  (more : list string) :
  let files :=
    normalizeFileObject (_get (config plugin) ["files"] (VObj ∅)) in
  let base :=
    if hasPlatform project then files else _merge alexaDefaultFiles files in
  Forall (λ locale, plainKey locale = true)
    (flat_map (getResolvedLocales plugin) (locales ctx)) →
  isObject base = true →
  locales ctx' = locales ctx ++ more →
  Forall (λ l, l ∈ flat_map (getResolvedLocales plugin) (locales ctx))
    (flat_map (getResolvedLocales plugin) more) →
  Alexa.createAlexaProjectFiles plugin project ctx'
  = Alexa.createAlexaProjectFiles plugin project ctx.
Proof.
  intros files base _ Hbase Hlocales Hmore.
  unfold Alexa.createAlexaProjectFiles. fold files. fold base.
  rewrite Hlocales, flat_map_app, fold_left_app.
  apply alexa_locales_noop.
  eapply Forall_impl; [exact Hmore|]. intros l Hl. cbv beta in Hl.
  apply alexa_locales_complete; [|done].
  by rewrite !isObject_guarded_set.
Qed.

Lemma alexa_project_files_repeated_locales_witness :
  let plugin := examplePlugin [] (VObj ∅) {[ "en" := ["en-US"; "en-GB"] ]} in
  @Alexa.createAlexaProjectFiles exampleExternals plugin freshProject
    (exampleContext ["en"; "en-GB"; "en"])
  = @Alexa.createAlexaProjectFiles exampleExternals plugin freshProject
      (exampleContext ["en"]).
Proof.
  intros plugin.
  apply (@alexa_project_files_repeated_locales exampleExternals plugin
           freshProject (exampleContext ["en"])
           (exampleContext ["en"; "en-GB"; "en"]) ["en-GB"; "en"]).
  - repeat constructor.
  - reflexivity.
  - reflexivity.
  - repeat constructor; vm_compute; tauto.
Defined.

(** ** The project files of Google *)

Section google_files.
Context `{Externals}.
Variable plugin : Plugin.
Variable project : Project.
Variable ctx : Context.

Lemma google_getModel_world (locale : string) (w : World) :
  (Google.getModel plugin project locale w).1 = w.
Proof.
  unfold Google.getModel, project_getModel, mbind, M_bind, bind.
  by destruct (models w !! locale).
Qed.

Lemma google_getInvocationName_world (locale : string) (w : World) :
  (Google.getInvocationName plugin project locale w).1 = w.
Proof.
  unfold Google.getInvocationName, mbind, M_bind, bind.
  pose proof (google_getModel_world locale w) as Hw.
  destruct (Google.getModel plugin project locale w) as [w1 [model|e]];
    simpl in Hw; subst w1; [|done].
  destruct (getKey model "invocation"); try done;
    by destruct (negb _).
Qed.

Lemma google_getInvocationName_model (locale : string) (w w' : World)
  (name : jsval) :
  Google.getInvocationName plugin project locale w = (w', Ok name) →
  is_Some (models w !! locale).
Proof.
  unfold Google.getInvocationName, Google.getModel, project_getModel,
    mbind, M_bind, bind.
  destruct (models w !! locale); [by eexists|done].
Qed.

(** One round of the inner loop: the invocation name of the requested
    locale is looked up, and the writes are made with it. *)
Lemma google_localeSettings_writes (locale resolvedLocale : string)
  (projectFiles : jsval) (w : World) :
  Google.localeSettings plugin project ctx locale projectFiles resolvedLocale
    w
  = match Google.getInvocationName plugin project locale w with
    | (_, Ok invocationName) =>
        (w, Ok (googleLocaleWrites ctx resolvedLocale invocationName
                  projectFiles))
    | (_, Throws e) => (w, Throws e)
    end.
Proof.
  rewrite google_localeSettings_run.
  pose proof (google_getInvocationName_world locale w) as Hw.
  by destruct (Google.getInvocationName plugin project locale w)
    as [w1 [name|e]]; simpl in Hw; subst w1.
Qed.

(** The inner loop, when it returns. *)
Lemma google_inner_loop (locale : string) (resolved : list string)
  (projectFiles result : jsval) (w w' : World) :
  foldM (Google.localeSettings plugin project ctx locale) projectFiles
    resolved w = (w', Ok result) →
  w' = w
  ∧ (resolved = [] ∧ result = projectFiles
     ∨ ∃ name,
         Google.getInvocationName plugin project locale w = (w, Ok name)
         ∧ result
           = googleResolvedWritten ctx name resolved
               projectFiles).
Proof.
  revert projectFiles. induction resolved as [|r resolved IH];
    intros projectFiles Hrun.
  - cbn in Hrun. unfold ret in Hrun. simplify_eq. split; [done|by left].
  - cbn [foldM] in Hrun. unfold mbind, M_bind, bind in Hrun.
    rewrite google_localeSettings_writes in Hrun.
    pose proof (google_getInvocationName_world locale w) as Hw.
    destruct (Google.getInvocationName plugin project locale w)
      as [w1 [name|e]] eqn:Hname; simpl in Hw; subst w1; [|done].
    destruct (IH _ Hrun) as [-> Hres]. split; [done|]. right.
    exists name. split; [done|]. cbn [fold_left].
    destruct Hres as [[-> ->]|(name' & Hname' & ->)]; [done|].
    by simplify_eq.
Qed.

End google_files.

Section google_loops.
Context `{Externals}.
Variable plugin : Plugin.
Variable project : Project.
Variable ctx : Context.

(** The loop over the requested locales, when it returns: the world is
    what it was, every requested locale that resolves to a locale has an
    invocation name, and the project files are the writes made with these
    names. *)
Lemma google_outer_loop (locales : list string)
  (projectFiles result : jsval) (w w' : World) :
  foldM
    (λ projectFiles locale,
       foldM (Google.localeSettings plugin project ctx locale) projectFiles
         (getResolvedLocales plugin locale))
    projectFiles locales w = (w', Ok result) →
  w' = w
  ∧ result
    = googleLocalesWritten plugin ctx (googleInvocationOf plugin project w)
        locales projectFiles
  ∧ ∀ locale, locale ∈ locales → getResolvedLocales plugin locale ≠ [] →
      Google.getInvocationName plugin project locale w
      = (w, Ok (googleInvocationOf plugin project w locale)).
Proof.
  revert projectFiles. induction locales as [|l locales IH];
    intros projectFiles Hrun.
  - cbn in Hrun. unfold ret in Hrun. simplify_eq.
    split; [done|]. split; [done|]. intros locale Hl.
    by apply elem_of_nil in Hl.
  - cbn [foldM] in Hrun. unfold mbind, M_bind, bind in Hrun.
    destruct (foldM (Google.localeSettings plugin project ctx l)
                projectFiles (getResolvedLocales plugin l) w)
      as [w1 [pf1|e]] eqn:Hinner; [|done].
    destruct (google_inner_loop plugin project ctx _ _ _ _ _ _ Hinner)
      as [-> Hres].
    destruct (IH _ Hrun) as (-> & -> & Hnames).
    split; [done|].
    assert (getResolvedLocales plugin l ≠ [] →
            Google.getInvocationName plugin project l w
            = (w, Ok (googleInvocationOf plugin project w l))) as Hl.
    { intros Hne. destruct Hres as [[Hnil _]|(name & Hname & _)]; [done|].
      unfold googleInvocationOf. by rewrite Hname. }
    split.
    + unfold googleLocalesWritten. cbn [fold_left]. f_equal.
      destruct Hres as [[-> ->]|(name & Hname & ->)]; [done|].
      unfold googleInvocationOf. by rewrite Hname.
    + intros locale Hlocale Hne.
      apply elem_of_cons in Hlocale as [->|Hlocale]; [by apply Hl|].
      by apply Hnames.
Qed.

Lemma google_createGoogleProjectFiles_run (w w' : World) (result : jsval) :
  Google.createGoogleProjectFiles plugin project ctx w = (w', Ok result) →
  let files :=
    normalizeFileObject (_get (config plugin) ["files"] (VObj ∅)) in
  let base :=
    if hasPlatform project then files else _merge googleDefaultFiles files in
  let endpoint := Google.getPluginEndpoint plugin project in
  w' = w
  ∧ result
    = googleLocalesWritten plugin ctx (googleInvocationOf plugin project w)
        (locales ctx)
        (if negb (String.eqb endpoint "")
            && negb (_has base Google.webhookPath)
         then _set base Google.webhookPath
                (Google.defaultHandler plugin project)
         else base)
  ∧ ∀ locale, locale ∈ locales ctx →
      getResolvedLocales plugin locale ≠ [] →
      Google.getInvocationName plugin project locale w
      = (w, Ok (googleInvocationOf plugin project w locale)).
Proof.
  intros Hrun files base endpoint.
  unfold Google.createGoogleProjectFiles in Hrun.
  by apply google_outer_loop in Hrun.
Qed.

End google_loops.

(** X16.  [createGoogleProjectFiles] needs the invocation name, and so the
    model file, of every requested locale that resolves to a locale: when
    it returns, each of them has one, and nothing on disk has changed.  A
    first requested locale without model file ends it with the error of
    the missing model. *)
Theorem google_project_files_need_model `{Externals}
  (plugin : Plugin) (project : Project) (ctx : Context) (w : World) :
  (∀ w' result,
     Google.createGoogleProjectFiles plugin project ctx w = (w', Ok result) →
     w' = w
     ∧ ∀ locale, locale ∈ locales ctx →
         getResolvedLocales plugin locale ≠ [] →
         is_Some (models w !! locale)
         ∧ ∃ name, Google.getInvocationName plugin project locale w
                   = (w, Ok name))
  ∧ (∀ locale rest,
       locales ctx = locale :: rest →
       getResolvedLocales plugin locale ≠ [] →
       models w !! locale = None →
       Google.createGoogleProjectFiles plugin project ctx w
       = (w, Throws (modelNotFound locale))).
Proof.
  split.
  - intros w' result Hrun.
    destruct (google_createGoogleProjectFiles_run plugin project ctx _ _ _
                Hrun) as (-> & _ & Hnames).
    split; [done|]. intros locale Hlocale Hne.
    specialize (Hnames locale Hlocale Hne).
    split; [|by eexists].
    by eapply google_getInvocationName_model.
  - intros locale rest Hlocales Hne Hmodel.
    unfold Google.createGoogleProjectFiles. rewrite Hlocales.
    cbn [foldM]. unfold mbind, M_bind, bind.
    destruct (getResolvedLocales plugin locale) as [|r rs]; [done|].
    cbn [foldM]. unfold mbind, M_bind, bind.
    rewrite google_localeSettings_writes.
    unfold Google.getInvocationName, Google.getModel, project_getModel,
      mbind, M_bind, bind.
    by rewrite Hmodel.
Qed.

Example google_project_files_without_model :
  @Google.createGoogleProjectFiles exampleExternals
    (examplePlugin [] (VObj ∅) ∅) exampleProject (exampleContext ["en-US"])
    emptyWorld
  = (emptyWorld,
     Throws (JsError "Could not find model file for locale: en-US")).
Proof. reflexivity. Qed.

Lemma append_last_ne (r s : string) (c d : ascii) :
  c ≠ d → r +:+ String c "" ≠ s +:+ String d "".
Proof.
  intros Hne. revert s. induction r as [|a r IH]; intros [|b s] Heq.
  - by injection Heq.
  - injection Heq as _ Heq. by destruct s.
  - injection Heq as _ Heq. by destruct r.
  - injection Heq as _ Heq. by apply (IH s).
Qed.

Lemma locale_folder_not_settings (r : string) : r +:+ "/" ≠ "settings.yaml".
Proof. by apply (append_last_ne r "settings.yam" "/" "l"). Qed.

Lemma locale_folder_inj (r r' : string) : r +:+ "/" = r' +:+ "/" → r = r'.
Proof.
  revert r'. induction r as [|a r IH]; intros [|b r'] Heq; try done.
  - injection Heq as _ Heq. by destruct r'.
  - injection Heq as _ Heq. by destruct r.
  - injection Heq as -> Heq. by rewrite (IH r').
Qed.

Section google_paths.
Variable ctx : Context.

Lemma google_settingsPath_cases (r : string) :
  Google.settingsPath ctx r
  = if jsval_eqb (VStr r) (defaultLocale ctx)
    then ["settings/"; "settings.yaml"]
    else ["settings/"; r +:+ "/"; "settings.yaml"].
Proof. unfold Google.settingsPath. by destruct (jsval_eqb _ _). Qed.

Lemma google_settings_webhook (r : string) (s : path) :
  diverge (Google.settingsPath ctx r ++ s) Google.webhookPath.
Proof.
  rewrite google_settingsPath_cases.
  destruct (jsval_eqb _ _); by eexists [], "settings/", "webhooks/", _, _.
Qed.

(** The settings of two resolved locales are in different places. *)
Lemma google_settings_diverge (r r' : string) (s s' : path) :
  r ≠ r' →
  diverge (Google.settingsPath ctx r ++ s) (Google.settingsPath ctx r' ++ s').
Proof.
  intros Hne. rewrite !google_settingsPath_cases.
  destruct (jsval_eqb (VStr r) (defaultLocale ctx)) eqn:Hr;
    destruct (jsval_eqb (VStr r') (defaultLocale ctx)) eqn:Hr'.
  - apply jsval_eqb_eq in Hr, Hr'. congruence.
  - eexists ["settings/"], "settings.yaml", (r' +:+ "/"), _, _.
    repeat split. intros Heq. by apply (locale_folder_not_settings r').
  - eexists ["settings/"], (r +:+ "/"), "settings.yaml", _, _.
    repeat split. apply locale_folder_not_settings.
  - eexists ["settings/"], (r +:+ "/"), (r' +:+ "/"), _, _.
    repeat split. intros Heq. by apply Hne, locale_folder_inj.
Qed.

Lemma google_settings_keys (r : string) (k k' : string) (s s' : path) :
  k ≠ k' →
  diverge (Google.settingsPath ctx r ++ k :: s)
    (Google.settingsPath ctx r ++ k' :: s').
Proof. intros Hne. by exists (Google.settingsPath ctx r), k, k', s, s'. Qed.

Lemma google_settings_not_nil (r : string) (s : path) :
  Google.settingsPath ctx r ++ s ≠ [].
Proof. rewrite google_settingsPath_cases. by destruct (jsval_eqb _ _). Qed.

Lemma googleLocaleWrites_isObject (r : string) (name o : jsval) :
  isObject (googleLocaleWrites ctx r name o) = isObject o.
Proof.
  unfold googleLocaleWrites. rewrite !isObject_setIfMissing.
  destruct (jsval_eqb _ _); [|done]. by rewrite !isObject_setIfMissing.
Qed.

Lemma googleLocaleWrites_has (r : string) (name o : jsval) (q : path) :
  _has o q = true → _has (googleLocaleWrites ctx r name o) q = true.
Proof.
  intros Hq. unfold googleLocaleWrites.
  do 2 apply has_setIfMissing_mono.
  destruct (jsval_eqb _ _); [|done]. by do 2 apply has_setIfMissing_mono.
Qed.

(** After the round of a resolved locale its settings are there. *)
Lemma googleLocaleWrites_complete (r : string) (name o : jsval) :
  isObject o = true →
  let settingsPath := Google.settingsPath ctx r in
  let result := googleLocaleWrites ctx r name o in
  _has result ((settingsPath ++ ["localizedSettings"]) ++ ["displayName"])
  = true
  ∧ _has result
      ((settingsPath ++ ["localizedSettings"]) ++ ["pronunciation"])
    = true
  ∧ (VStr r = defaultLocale ctx →
     _has result (settingsPath ++ ["defaultLocale"]) = true
     ∧ _has result (settingsPath ++ ["projectId"]) = true).
Proof.
  intros Ho settingsPath result. unfold result, googleLocaleWrites.
  fold settingsPath.
  set (pf := if jsval_eqb (VStr r) (defaultLocale ctx) then _ else o).
  assert (isObject pf = true) as Hpf.
  { unfold pf. destruct (jsval_eqb _ _); [|done].
    by rewrite !isObject_setIfMissing. }
  split; [|split].
  - apply has_setIfMissing_mono, has_setIfMissing; [done|].
    apply snoc_not_nil.
  - apply has_setIfMissing; [by rewrite isObject_setIfMissing|].
    apply snoc_not_nil.
  - intros Hdefault. apply jsval_eqb_eq in Hdefault.
    unfold pf. rewrite Hdefault. split.
    + do 3 apply has_setIfMissing_mono.
      apply has_setIfMissing; [done|apply snoc_not_nil].
    + do 2 apply has_setIfMissing_mono.
      apply has_setIfMissing;
        [by rewrite isObject_setIfMissing|apply snoc_not_nil].
Qed.

(** The round of a resolved locale changes nothing at a path that parts
    ways with the settings of that locale. *)
Lemma googleLocaleWrites_diverge (r : string) (name o : jsval) (p : path) :
  (∀ s, diverge p (Google.settingsPath ctx r ++ s)) →
  baseGet (googleLocaleWrites ctx r name o) p = baseGet o p.
Proof.
  intros Hd. unfold googleLocaleWrites.
  rewrite <- !app_assoc.
  rewrite !baseGet_setIfMissing_diverge by apply Hd.
  destruct (jsval_eqb _ _); [|done].
  by rewrite !baseGet_setIfMissing_diverge by apply Hd.
Qed.

(** The round of a resolved locale leaves the display name and the
    pronunciation of a locale as they are, or sets them to the invocation
    name. *)
Lemma googleLocaleWrites_values (r r0 : string) (name o : jsval)
  (key : string) :
  isObject o = true →
  key = "displayName" ∨ key = "pronunciation" →
  let p := (Google.settingsPath ctx r ++ ["localizedSettings"]) ++ [key] in
  baseGet (googleLocaleWrites ctx r0 name o) p = baseGet o p
  ∨ (r0 = r ∧ baseGet (googleLocaleWrites ctx r0 name o) p = name).
Proof.
  intros Ho Hkey p.
  destruct (decide (r0 = r)) as [->|Hne].
  - unfold googleLocaleWrites.
    set (sp := Google.settingsPath ctx r) in *.
    set (pf := if jsval_eqb (VStr r) (defaultLocale ctx) then _ else o).
    assert (isObject pf = true) as Hpf.
    { unfold pf. destruct (jsval_eqb _ _); [|done].
      by rewrite !isObject_setIfMissing. }
    assert (baseGet pf p = baseGet o p) as Hsame.
    { unfold pf, p. destruct (jsval_eqb _ _); [|done].
      rewrite <- !app_assoc.
      rewrite !baseGet_setIfMissing_diverge; [done| |];
        by apply google_settings_keys. }
    destruct Hkey as [-> | ->].
    + rewrite baseGet_setIfMissing_diverge
        by (unfold p; apply diverge_last; done).
      unfold p. rewrite baseGet_setIfMissing by (done || apply snoc_not_nil).
      fold p. destruct (_has pf p); [by left|right; done].
    + unfold p.
      rewrite baseGet_setIfMissing
        by (by rewrite ?isObject_setIfMissing || apply snoc_not_nil).
      fold p. destruct (_has _ p); [|right; done]. left.
      rewrite baseGet_setIfMissing_diverge; [done|].
      unfold p. by apply diverge_last.
  - left. apply googleLocaleWrites_diverge. intros s. unfold p.
    rewrite <- !app_assoc. apply google_settings_diverge. congruence.
Qed.

End google_paths.

Section google_written.
Variable plugin : Plugin.
Variable ctx : Context.
Variable nameOf : string → jsval.

Lemma google_inner_isObject (name : jsval) (rs : list string) (o : jsval) :
  isObject (googleResolvedWritten ctx name rs o) = isObject o.
Proof.
  unfold googleResolvedWritten.
  revert o. induction rs as [|r rs IH]; intros o; [done|].
  cbn [fold_left]. by rewrite IH, googleLocaleWrites_isObject.
Qed.

Lemma google_inner_has (name : jsval) (rs : list string) (o : jsval)
  (q : path) :
  _has o q = true → _has (googleResolvedWritten ctx name rs o) q = true.
Proof.
  unfold googleResolvedWritten.
  revert o. induction rs as [|r rs IH]; intros o Hq; [done|].
  cbn [fold_left]. by apply IH, googleLocaleWrites_has.
Qed.

Lemma google_inner_diverge (name : jsval) (rs : list string) (o : jsval)
  (p : path) :
  (∀ r s, r ∈ rs → diverge p (Google.settingsPath ctx r ++ s)) →
  baseGet (googleResolvedWritten ctx name rs o) p = baseGet o p.
Proof.
  unfold googleResolvedWritten.
  revert o. induction rs as [|r rs IH]; intros o Hd; [done|].
  cbn [fold_left]. rewrite IH.
  - apply googleLocaleWrites_diverge. intros s. apply Hd, list_elem_of_here.
  - intros r' s Hr'. by apply Hd, list_elem_of_further.
Qed.

Lemma google_inner_values (name : jsval) (rs : list string) (o : jsval)
  (r key : string) :
  isObject o = true →
  key = "displayName" ∨ key = "pronunciation" →
  let p := (Google.settingsPath ctx r ++ ["localizedSettings"]) ++ [key] in
  baseGet (googleResolvedWritten ctx name rs o) p = baseGet o p
  ∨ (r ∈ rs ∧ baseGet (googleResolvedWritten ctx name rs o) p = name).
Proof.
  intros Ho Hkey p. unfold googleResolvedWritten. revert o Ho.
  induction rs as [|r0 rs IH]; intros o Ho; [by left|].
  cbn [fold_left].
  destruct (IH (googleLocaleWrites ctx r0 name o)) as [Hsame|[Hr Hname]];
    [by rewrite googleLocaleWrites_isObject| |].
  - fold p in Hsame. rewrite Hsame.
    destruct (googleLocaleWrites_values ctx r r0 name o key Ho Hkey)
      as [Hv|[-> Hv]]; fold p in Hv.
    + by left.
    + right. split; [apply list_elem_of_here|done].
  - right. split; [by apply list_elem_of_further|done].
Qed.

Lemma google_inner_complete (name : jsval) (rs : list string) (o : jsval)
  (r : string) :
  isObject o = true →
  r ∈ rs →
  let settingsPath := Google.settingsPath ctx r in
  let result := googleResolvedWritten ctx name rs o in
  _has result ((settingsPath ++ ["localizedSettings"]) ++ ["displayName"])
  = true
  ∧ _has result
      ((settingsPath ++ ["localizedSettings"]) ++ ["pronunciation"])
    = true
  ∧ (VStr r = defaultLocale ctx →
     _has result (settingsPath ++ ["defaultLocale"]) = true
     ∧ _has result (settingsPath ++ ["projectId"]) = true).
Proof.
  intros Ho Hr settingsPath result. unfold result. clear result.
  unfold googleResolvedWritten.
  revert o Ho. induction rs as [|r0 rs IH]; intros o Ho.
  - by apply elem_of_nil in Hr.
  - cbn [fold_left]. apply elem_of_cons in Hr as [->|Hr].
    + destruct (googleLocaleWrites_complete ctx r0 name o Ho)
        as (H1 & H2 & H3).
      split; [by apply google_inner_has|].
      split; [by apply google_inner_has|].
      intros Hd. destruct (H3 Hd). split; by apply google_inner_has.
    + apply IH; [done|by rewrite googleLocaleWrites_isObject].
Qed.

Lemma google_written_isObject (locales : list string) (o : jsval) :
  isObject (googleLocalesWritten plugin ctx nameOf locales o) = isObject o.
Proof.
  unfold googleLocalesWritten. revert o.
  induction locales as [|l locales IH]; intros o; [done|].
  cbn [fold_left]. by rewrite IH, google_inner_isObject.
Qed.

Lemma google_written_has (locales : list string) (o : jsval) (q : path) :
  _has o q = true →
  _has (googleLocalesWritten plugin ctx nameOf locales o) q = true.
Proof.
  unfold googleLocalesWritten. revert o.
  induction locales as [|l locales IH]; intros o Hq; [done|].
  cbn [fold_left]. by apply IH, google_inner_has.
Qed.

Lemma google_written_diverge (locales : list string) (o : jsval)
  (p : path) :
  (∀ l r s, l ∈ locales → r ∈ getResolvedLocales plugin l →
            diverge p (Google.settingsPath ctx r ++ s)) →
  baseGet (googleLocalesWritten plugin ctx nameOf locales o) p
  = baseGet o p.
Proof.
  unfold googleLocalesWritten. revert o.
  induction locales as [|l locales IH]; intros o Hd; [done|].
  cbn [fold_left]. rewrite IH.
  - apply google_inner_diverge. intros r s Hr.
    apply (Hd l); [apply list_elem_of_here|done].
  - intros l' r s Hl'. by apply Hd, list_elem_of_further.
Qed.

Lemma google_written_values (locales : list string) (o : jsval)
  (r key : string) :
  isObject o = true →
  key = "displayName" ∨ key = "pronunciation" →
  let p := (Google.settingsPath ctx r ++ ["localizedSettings"]) ++ [key] in
  let result := googleLocalesWritten plugin ctx nameOf locales o in
  baseGet result p = baseGet o p
  ∨ ∃ l, l ∈ locales ∧ r ∈ getResolvedLocales plugin l
         ∧ baseGet result p = nameOf l.
Proof.
  intros Ho Hkey p result. unfold result, googleLocalesWritten.
  clear result. revert o Ho.
  induction locales as [|l locales IH]; intros o Ho; [by left|].
  cbn [fold_left].
  destruct (IH (googleResolvedWritten ctx (nameOf l) (getResolvedLocales plugin l) o))
    as [Hsame|(l' & Hl' & Hr & Hname)];
    [by rewrite google_inner_isObject| |].
  - rewrite Hsame.
    destruct (google_inner_values (nameOf l) (getResolvedLocales plugin l)
                o r key Ho Hkey) as [Hv|[Hr Hv]]; fold p in Hv.
    + by left.
    + right. exists l. split; [apply list_elem_of_here|done].
  - right. exists l'. split; [by apply list_elem_of_further|done].
Qed.

Lemma google_written_complete (locales : list string) (o : jsval)
  (l r : string) :
  isObject o = true →
  l ∈ locales → r ∈ getResolvedLocales plugin l →
  let settingsPath := Google.settingsPath ctx r in
  let result := googleLocalesWritten plugin ctx nameOf locales o in
  _has result ((settingsPath ++ ["localizedSettings"]) ++ ["displayName"])
  = true
  ∧ _has result
      ((settingsPath ++ ["localizedSettings"]) ++ ["pronunciation"])
    = true
  ∧ (VStr r = defaultLocale ctx →
     _has result (settingsPath ++ ["defaultLocale"]) = true
     ∧ _has result (settingsPath ++ ["projectId"]) = true).
Proof.
  intros Ho Hl Hr settingsPath result. unfold result, googleLocalesWritten.
  clear result. revert o Ho.
  induction locales as [|l0 locales IH]; intros o Ho.
  - by apply elem_of_nil in Hl.
  - cbn [fold_left]. apply elem_of_cons in Hl as [->|Hl].
    + destruct (google_inner_complete (nameOf l0)
                  (getResolvedLocales plugin l0) o r Ho Hr)
        as (H1 & H2 & H3).
      pose proof (google_written_has locales) as Hmono.
      unfold googleLocalesWritten in Hmono.
      split; [by apply Hmono|]. split; [by apply Hmono|].
      intros Hd. destruct (H3 Hd). split; by apply Hmono.
    + apply IH; [done|by rewrite google_inner_isObject].
Qed.

End google_written.

(** X17.  The project files of Google, when they are made, hold the minimal
    settings of every resolved locale: a display name and a pronunciation,
    each the invocation name of a requested locale that resolves to it or
    what the base held at its path, and for the default locale a default
    locale and a project id too. *)
Theorem google_project_files_settings `{Externals}
  (plugin : Plugin) (project : Project) (ctx : Context) (w w' : World)
  (result : jsval) (locale resolvedLocale : string) :
  let files :=
    normalizeFileObject (_get (config plugin) ["files"] (VObj ∅)) in
  let base :=
    if hasPlatform project then files else _merge googleDefaultFiles files in
  let settingsPath := Google.settingsPath ctx resolvedLocale in
  let localizedSettings := settingsPath ++ ["localizedSettings"] in
  Forall (λ locale, plainKey locale = true)
    (locales ctx ++ flat_map (getResolvedLocales plugin) (locales ctx)) →
  isObject base = true →
  Google.createGoogleProjectFiles plugin project ctx w = (w', Ok result) →
  locale ∈ locales ctx →
  resolvedLocale ∈ getResolvedLocales plugin locale →
  _has result (localizedSettings ++ ["displayName"]) = true
  ∧ _has result (localizedSettings ++ ["pronunciation"]) = true
  ∧ (VStr resolvedLocale = defaultLocale ctx →
     _has result (settingsPath ++ ["defaultLocale"]) = true
     ∧ _has result (settingsPath ++ ["projectId"]) = true)
  ∧ ∀ key, key = "displayName" ∨ key = "pronunciation" →
      baseGet result (localizedSettings ++ [key])
      = baseGet base (localizedSettings ++ [key])
      ∨ ∃ l, l ∈ locales ctx
             ∧ resolvedLocale ∈ getResolvedLocales plugin l
             ∧ Google.getInvocationName plugin project l w
               = (w, Ok (baseGet result (localizedSettings ++ [key]))).
Proof.
  intros files base settingsPath localizedSettings _ Hbase Hrun Hlocale Hr.
  destruct (google_createGoogleProjectFiles_run plugin project ctx _ _ _
              Hrun) as (-> & Hresult & Hnames).
  fold files in Hresult. fold base in Hresult.
  set (endpoint := Google.getPluginEndpoint plugin project) in *.
  set (pf1 := if negb (String.eqb endpoint "")
                 && negb (_has base Google.webhookPath)
              then _set base Google.webhookPath
                     (Google.defaultHandler plugin project)
              else base) in *.
  assert (isObject pf1 = true) as Hpf1.
  { unfold pf1. by rewrite isObject_guarded_set. }
  pose proof (google_written_complete plugin ctx
                (googleInvocationOf plugin project w) (locales ctx) pf1
                locale resolvedLocale Hpf1 Hlocale Hr) as Hc.
  cbv zeta in Hc. rewrite <- Hresult in Hc. destruct Hc as (H1 & H2 & H3).
  split; [done|]. split; [done|]. split; [done|].
  intros key Hkey.
  pose proof (google_written_values plugin ctx
                (googleInvocationOf plugin project w) (locales ctx) pf1
                resolvedLocale key Hpf1 Hkey) as Hv.
  cbv zeta in Hv. rewrite <- Hresult in Hv.
  fold settingsPath in Hv. fold localizedSettings in Hv.
  destruct Hv as [Hsame|(l & Hl & Hrl & Hname)].
  - left. rewrite Hsame. unfold pf1.
    apply guarded_set_diverge. unfold localizedSettings.
    rewrite <- app_assoc. apply google_settings_webhook.
  - right. exists l. split; [done|]. split; [done|].
    rewrite Hname. apply Hnames; [done|].
    intros Hnil. rewrite Hnil in Hrl. by apply elem_of_nil in Hrl.
Qed.

Lemma google_project_files_settings_witness :
  let plugin := examplePlugin [] (VObj ∅) {[ "en" := ["en-US"; "en-GB"] ]} in
  let ctx :=
    {| command := "build"; locales := ["en"]; platforms := [];
       flags := exampleFlags; defaultLocale := VStr "en-US";
       projectId := VStr "my-project" |} in
  let w := worldWithModel "en" (VObj {[ "invocation" := VStr "my app" ]}) in
  let run :=
    @Google.createGoogleProjectFiles exampleExternals plugin freshProject
      ctx w in
  let result := match run.2 with Ok result => result | Throws _ => VUndef end
  in
  let settingsPath := Google.settingsPath ctx "en-US" in
  let localizedSettings := settingsPath ++ ["localizedSettings"] in
  run = (w, Ok result)
  ∧ _has result (localizedSettings ++ ["displayName"]) = true
  ∧ _has result (localizedSettings ++ ["pronunciation"]) = true
  ∧ (VStr "en-US" = defaultLocale ctx →
     _has result (settingsPath ++ ["defaultLocale"]) = true
     ∧ _has result (settingsPath ++ ["projectId"]) = true)
  ∧ ∀ key, key = "displayName" ∨ key = "pronunciation" →
      baseGet result (localizedSettings ++ [key])
      = baseGet (VObj ∅) (localizedSettings ++ [key])
      ∨ ∃ l, l ∈ locales ctx
             ∧ "en-US" ∈ getResolvedLocales plugin l
             ∧ @Google.getInvocationName exampleExternals plugin
                 freshProject l w
               = (w, Ok (baseGet result (localizedSettings ++ [key]))).
Proof.
  intros plugin ctx w run result settingsPath localizedSettings.
  assert (run = (w, Ok result)) as Hrun by (vm_compute; reflexivity).
  split; [exact Hrun|].
  apply (@google_project_files_settings exampleExternals plugin freshProject
           ctx w w result "en" "en-US").
  - repeat constructor.
  - vm_compute. reflexivity.
  - exact Hrun.
  - apply list_elem_of_here.
  - vm_compute. apply list_elem_of_here.
Defined.

(** X18.  When the default locale is none of the resolved locales, the main
    settings file is left as the base has it: no default locale and no
    project id is generated. *)
Theorem google_project_files_default_elsewhere `{Externals}
  (plugin : Plugin) (project : Project) (ctx : Context) (w w' : World)
  (result : jsval) (rest : path) :
  let files :=
    normalizeFileObject (_get (config plugin) ["files"] (VObj ∅)) in
  let base :=
    if hasPlatform project then files else _merge googleDefaultFiles files in
  Forall (λ locale, plainKey locale = true)
    (locales ctx ++ flat_map (getResolvedLocales plugin) (locales ctx)) →
  Forall (λ resolvedLocale, VStr resolvedLocale ≠ defaultLocale ctx)
    (flat_map (getResolvedLocales plugin) (locales ctx)) →
  Google.createGoogleProjectFiles plugin project ctx w = (w', Ok result) →
  baseGet result (["settings/"; "settings.yaml"] ++ rest)
  = baseGet base (["settings/"; "settings.yaml"] ++ rest).
Proof.
  intros files base _ Hdefault Hrun.
  destruct (google_createGoogleProjectFiles_run plugin project ctx _ _ _
              Hrun) as (-> & -> & _).
  fold files. fold base.
  rewrite google_written_diverge.
  - apply guarded_set_diverge.
    by eexists [], "settings/", "webhooks/", _, _.
  - intros l r s Hl Hr.
    assert (r ∈ flat_map (getResolvedLocales plugin) (locales ctx)) as Hin.
    { apply list_elem_of_In, in_flat_map. exists l.
      by rewrite <- !list_elem_of_In. }
    rewrite Forall_forall in Hdefault. specialize (Hdefault r Hin).
    rewrite google_settingsPath_cases.
    destruct (jsval_eqb (VStr r) (defaultLocale ctx)) eqn:E;
      [by apply jsval_eqb_eq in E|].
    eexists ["settings/"], "settings.yaml", (r +:+ "/"), _, _.
    repeat split. intros Heq. by apply (locale_folder_not_settings r).
Qed.

Lemma google_project_files_default_elsewhere_witness :
  let plugin := examplePlugin [] (VObj ∅) ∅ in
  let ctx :=
    {| command := "build"; locales := ["de-DE"]; platforms := [];
       flags := exampleFlags; defaultLocale := VStr "en-US";
       projectId := VStr "my-project" |} in
  let w :=
    worldWithModel "de-DE" (VObj {[ "invocation" := VStr "meine app" ]}) in
  let run :=
    @Google.createGoogleProjectFiles exampleExternals plugin freshProject
      ctx w in
  let result := match run.2 with Ok result => result | Throws _ => VUndef end
  in
  run = (w, Ok result)
  ∧ baseGet result (["settings/"; "settings.yaml"] ++ ["projectId"])
    = baseGet (VObj ∅) (["settings/"; "settings.yaml"] ++ ["projectId"]).
Proof.
  intros plugin ctx w run result.
  assert (run = (w, Ok result)) as Hrun by (vm_compute; reflexivity).
  split; [exact Hrun|].
  apply (@google_project_files_default_elsewhere exampleExternals plugin
           freshProject ctx w w).
  - repeat constructor.
  - repeat constructor. discriminate.
  - exact Hrun.
Defined.

(** ** The interaction model of Google *)

Section google_model.
Context `{Externals}.
Variable plugin : Plugin.
Variable project : Project.
Variable ctx : Context.

Lemma google_ensureDir_run (p : path) (w : World) :
  ∃ w1, Google.ensureDir p w = (w1, Ok tt)
        ∧ files w1 = files w ∧ models w1 = models w.
Proof.
  unfold Google.ensureDir, existsSync, mbind, M_bind, bind.
  destruct (negb _); by eexists.
Qed.

(** A file that is built: the actions are the registered ones, and the
    models of the project are not touched. *)
Lemma google_buildFile_ok (actions actions' : jsval)
  (file : NativeFileInformation) (w w' : World) :
  Google.buildFile actions file w = (w', Ok actions') →
  actions' = googleRegistered actions file ∧ models w' = models w.
Proof.
  unfold Google.buildFile, googleRegistered.
  destruct (pop (nf_path file)) as [[filePath fileName]|].
  - unfold mbind, M_bind, bind.
    destruct (google_ensureDir_run (googlePlatformPath ++ filePath) w)
      as (w1 & -> & _ & Hm).
    destruct (content file); unfold writeFileSync, ret, throw; simpl;
      intros ?; simplify_eq. by rewrite <- Hm.
  - unfold mbind, M_bind, bind.
    by destruct (google_ensureDir_run googlePlatformPath w) as (w1 & -> & _).
Qed.

Lemma google_buildFiles_ok (files : list NativeFileInformation)
  (actions actions' : jsval) (w w' : World) :
  foldM Google.buildFile actions files w = (w', Ok actions') →
  actions' = fold_left googleRegistered files actions
  ∧ models w' = models w.
Proof.
  revert actions w. induction files as [|file files IH];
    intros actions w Hrun.
  - cbn in Hrun. unfold ret in Hrun. by simplify_eq.
  - cbn [foldM] in Hrun. unfold mbind, M_bind, bind in Hrun.
    destruct (Google.buildFile actions file w) as [w1 [a1|e]] eqn:Hfile;
      [|done].
    apply google_buildFile_ok in Hfile as [-> Hm].
    destruct (IH _ _ Hrun) as [-> Hm']. split; [done|congruence].
Qed.

(** A locale that is built: the last file written is the actions file. *)
Lemma google_buildLocale_ok (model : jsval) (locale : string)
  (modelFiles : list NativeFileInformation) (w w' : World) :
  googleExportNative model locale (defaultLocale ctx) = Ok (Some modelFiles) →
  Google.buildLocale plugin ctx model locale w = (w', Ok tt) →
  files w' !! (googlePlatformPath ++ ["actions"; "actions.yaml"])
  = Some (YamlText
            (_merge (fold_left googleRegistered modelFiles Google.mainActions)
               (Google.getProjectActions plugin)))
  ∧ models w' = models w.
Proof.
  intros Hexport.
  unfold Google.buildLocale, mbind, M_bind, bind, lift. rewrite Hexport.
  destruct (foldM Google.buildFile Google.mainActions modelFiles w)
    as [w1 [actions|e]] eqn:Hfiles; [|done].
  apply google_buildFiles_ok in Hfiles as [-> Hm].
  destruct (google_ensureDir_run (googlePlatformPath ++ ["actions"]) w1)
    as (w2 & -> & _ & Hm2).
  unfold writeFileSync. simpl. intros ?; simplify_eq. simpl.
  rewrite <- app_assoc. rewrite lookup_insert_eq. split; [done|congruence].
Qed.

End google_model.

(** The custom actions that are registered: [MAIN] and the intents. *)
Lemma googleRegistered_custom (files : list NativeFileInformation)
  (custom : gmap string jsval) :
  ∃ custom',
    fold_left googleRegistered files (VObj {[ "custom" := VObj custom ]})
    = VObj {[ "custom" := VObj custom' ]}
    ∧ ∀ k, custom' !! k =
           if decide (k ∈ googleIntentNames files) then Some (VObj ∅)
           else custom !! k.
Proof.
  revert custom. induction files as [|file files IH]; intros custom.
  - exists custom. split; [done|]. intros k.
    destruct (decide _) as [Hk|]; [by apply elem_of_nil in Hk|done].
  - cbn [fold_left]. unfold googleRegistered at 2.
    unfold googleIntentNames. cbn [flat_map]. fold (googleIntentNames files).
    destruct (pop (nf_path file)) as [[filePath fileName]|].
    + destruct (bool_decide ("intents" ∈ filePath)).
      * simpl. rewrite lookup_singleton_eq. simpl.
        rewrite insert_singleton_eq.
        destruct (IH (<[replaceFirst ".yaml" "" fileName := VObj ∅]> custom))
          as (custom' & -> & Hk).
        exists custom'. split; [done|]. intros k. rewrite Hk.
        destruct (decide (k = replaceFirst ".yaml" "" fileName)) as [->|Hne].
        -- rewrite lookup_insert_eq.
           rewrite (decide_True (P := _ ∈ _ :: _)) by apply list_elem_of_here.
           by destruct (decide _).
        -- rewrite lookup_insert_ne by done.
           destruct (decide (k ∈ googleIntentNames files)) as [Hk'|Hk'].
           ++ by rewrite decide_True by (by apply list_elem_of_further).
           ++ rewrite decide_False; [done|].
              intros [?|?]%elem_of_cons; done.
      * simpl. apply IH.
    + simpl. apply IH.
Qed.

Section google_model_loop.
Context `{Externals}.
Variable plugin : Plugin.
Variable project : Project.
Variable ctx : Context.

Lemma google_buildLocale_models (model : jsval) (locale : string)
  (w w' : World) :
  Google.buildLocale plugin ctx model locale w = (w', Ok tt) →
  models w' = models w.
Proof.
  intros Hrun.
  destruct (googleExportNative model locale (defaultLocale ctx))
    as [[modelFiles|]|e] eqn:Hexport.
  - by destruct (google_buildLocale_ok plugin ctx model locale modelFiles
                   w w' Hexport Hrun).
  - unfold Google.buildLocale, mbind, M_bind, bind, lift in Hrun.
    by rewrite Hexport in Hrun.
  - unfold Google.buildLocale, mbind, M_bind, bind, lift in Hrun.
    by rewrite Hexport in Hrun.
Qed.

Lemma google_forEach_models (model : jsval) (locales : list string)
  (w w' : World) :
  forEach locales (Google.buildLocale plugin ctx model) w = (w', Ok tt) →
  models w' = models w.
Proof.
  revert w. induction locales as [|l locales IH]; intros w Hrun.
  - cbn in Hrun. unfold ret in Hrun. by simplify_eq.
  - cbn [forEach] in Hrun. unfold mbind, M_bind, bind in Hrun.
    destruct (Google.buildLocale plugin ctx model l w) as [w1 [[]|e]]
      eqn:Hl; [|done].
    apply google_buildLocale_models in Hl. apply IH in Hrun. congruence.
Qed.

End google_model_loop.

(** X19.  [buildLanguageModel] of Google writes the actions file once for
    every resolved locale, each time anew: when it returns, the file holds
    the actions of the last resolved locale, merged with the actions of the
    configuration.  These actions are [actions.intent.MAIN] and one action
    for every file of that locale below [intents], under the name of the
    file without its first [.yaml]; the model files of the project are
    what they were. *)
Theorem google_buildLanguageModel_actions `{Externals}
  (plugin : Plugin) (project : Project) (ctx : Context)
  (modelLocale : string) (before : list string) (locale : string)
  (w : World) (model : jsval) (modelFiles : list NativeFileInformation) :
  Google.getModel plugin project modelLocale w = (w, Ok model) →
  googleExportNative model locale (defaultLocale ctx) = Ok (Some modelFiles) →
  let out :=
    Google.buildLanguageModel plugin project ctx modelLocale
      (before ++ [locale]) w in
  out.2 = Ok tt →
  ∃ custom,
    files out.1 !! (googlePlatformPath ++ ["actions"; "actions.yaml"])
    = Some (YamlText (_merge (VObj {[ "custom" := VObj custom ]})
                        (Google.getProjectActions plugin)))
    ∧ (∀ k, custom !! k =
            if decide (k = "actions.intent.MAIN"
                       ∨ k ∈ googleIntentNames modelFiles)
            then Some (VObj ∅) else None)
    ∧ models out.1 = models w.
Proof.
  intros Hmodel Hexport out. unfold out. clear out.
  destruct (Google.buildLanguageModel plugin project ctx modelLocale
              (before ++ [locale]) w) as [w' r] eqn:Hrun.
  simpl. intros ->.
  unfold Google.buildLanguageModel, mbind, M_bind, bind in Hrun.
  rewrite Hmodel, forEach_app in Hrun.
  destruct (forEach before (Google.buildLocale plugin ctx model) w)
    as [w1 [[]|e]] eqn:Hbefore; [|done].
  apply google_forEach_models in Hbefore.
  cbn [forEach] in Hrun. unfold mbind, M_bind, bind in Hrun.
  destruct (Google.buildLocale plugin ctx model locale w1) as [w2 [[]|e]]
    eqn:Hlocale; [|done].
  unfold ret in Hrun. simplify_eq.
  destruct (google_buildLocale_ok plugin ctx model locale modelFiles w1 w'
              Hexport Hlocale) as [Hfile Hmodels].
  destruct (googleRegistered_custom modelFiles
              {[ "actions.intent.MAIN" := VObj ∅ ]})
    as (custom & Hcustom & Hkeys).
  exists custom. unfold Google.mainActions in Hfile.
  rewrite Hcustom in Hfile. split; [done|]. split; [|congruence].
  intros k. rewrite Hkeys.
  destruct (decide (k ∈ googleIntentNames modelFiles)) as [Hk|Hk].
  - by rewrite decide_True by (by right).
  - destruct (decide (k = "actions.intent.MAIN")) as [->|Hne].
    + rewrite lookup_singleton_eq. by rewrite decide_True by (by left).
    + rewrite lookup_singleton_ne by done.
      by rewrite decide_False by (by intros [?|?]).
Qed.

Lemma google_buildLanguageModel_actions_witness :
  let plugin := examplePlugin [] (VObj ∅) ∅ in
  let ctx := exampleContext ["en"] in
  let model :=
    VObj {[ "invocation" := VStr "my test app";
            "intents" := arr [VObj {[ "name" := VStr "HelloWorldIntent" ]}] ]}
  in
  let modelFiles :=
    [ {| nf_path := ["custom"; "intents"; "HelloWorldIntent.yaml"];
         content := VStr "trainingPhrases: []" |} ] in
  let w := worldWithModel "en" model in
  let out :=
    @Google.buildLanguageModel exampleExternals plugin exampleProject ctx
      "en" (["en-US"] ++ ["en-GB"]) w in
  ∃ custom,
    files out.1 !! (@googlePlatformPath exampleExternals
                    ++ ["actions"; "actions.yaml"])
    = Some (YamlText (_merge (VObj {[ "custom" := VObj custom ]})
                        (Google.getProjectActions plugin)))
    ∧ (∀ k, custom !! k =
            if decide (k = "actions.intent.MAIN"
                       ∨ k ∈ googleIntentNames modelFiles)
            then Some (VObj ∅) else None)
    ∧ models out.1 = models w.
Proof.
  intros plugin ctx model modelFiles w out.
  apply (@google_buildLanguageModel_actions exampleExternals plugin
           exampleProject ctx "en" ["en-US"] "en-GB" w model modelFiles).
  - vm_compute. reflexivity.
  - vm_compute. reflexivity.
  - vm_compute. reflexivity.
Defined.

(** ** The default locale and the invocation name of Google *)

(** X20.  A configured default locale is what [getDefaultLocale] returns,
    whatever the locales are and whether it is one of them; the one of the
    settings file of the configuration goes before the one of the plugin
    configuration.  Without a configured default locale, a call without
    locales raises the error on the missing default locale, and a call with
    no locale at all returns [undefined]. *)
Theorem getDefaultLocale_configured (plugin : Plugin)
  (locales : option (list string)) :
  let ofSettings :=
    _get (config plugin)
      ["files"; "settings/"; "settings.yaml"; "defaultLocale"] VUndef in
  let ofPlugin := _get (config plugin) ["defaultLocale"] VUndef in
  (truthy ofSettings = true →
   Google.getDefaultLocale plugin locales = Ok ofSettings)
  ∧ (truthy ofSettings = false → truthy ofPlugin = true →
     Google.getDefaultLocale plugin locales = Ok ofPlugin)
  ∧ (truthy ofSettings = false → truthy ofPlugin = false →
     Google.getDefaultLocale plugin None
     = Throws (CliError
         {| message := "Could not find a default locale.";
            module := plugin_name plugin;
            hint := Some ("Try adding the property " +:+ dquote +:+
                          "defaultLocale" +:+ dquote +:+
                          " to your project.js.") |})
     ∧ Google.getDefaultLocale plugin (Some []) = Ok VUndef).
Proof.
  intros ofSettings ofPlugin. unfold Google.getDefaultLocale, jsOr.
  fold ofSettings. fold ofPlugin.
  split; [|split].
  - intros Hs. rewrite Hs. rewrite Hs. by destruct locales.
  - intros Hs Hp. rewrite Hs, Hp. by destruct locales.
  - intros Hs Hp. by rewrite Hs, Hp.
Qed.

Example getDefaultLocale_configured_elsewhere :
  Google.getDefaultLocale
    (examplePlugin [] (VObj {[ "defaultLocale" := VStr "fr-FR" ]}) ∅)
    (Some ["en-US"; "de-DE"])
  = Ok (VStr "fr-FR").
Proof. reflexivity. Qed.

Section invocation.
Context `{Externals}.
Variable plugin : Plugin.
Variable project : Project.

Lemma google_getInvocationName_run (locale : string) (w : World)
  (merged : jsval) :
  Google.getModel plugin project locale w = (w, Ok merged) →
  Google.getInvocationName plugin project locale w =
  (w, match getKey merged "invocation" with
      | VNull => Throws (JsError "Cannot read properties of null")
      | (VObj _ | VArr _ _) as invocation =>
          if truthy (getKey invocation (plugin_name plugin))
          then Ok (getKey invocation (plugin_name plugin))
          else Throws (CliError (Google.noInvocationName plugin locale))
      | invocation => Ok invocation
      end).
Proof.
  intros Hmodel. unfold Google.getInvocationName, mbind, M_bind, bind.
  rewrite Hmodel.
  destruct (getKey merged "invocation"); try done;
    by destruct (truthy _).
Qed.

End invocation.

(** X21.  The invocation name Google uses for a locale.  An invocation string
    of the plugin's language model in the configuration is the name; where
    the plugin has none, an invocation string of the project's language
    model is; where neither has one, the invocation of the model file
    counts: a string is the name, and a map gives the name it holds for the
    plugin, or raises the error that names the locale when it holds
    none. *)
Theorem google_invocation_name `{Externals}
  (plugin : Plugin) (project : Project) (locale : string) (w : World)
  (model : jsval) :
  plainKey locale = true →
  models w !! locale = Some model →
  isObject model = true →
  let projectLevel :=
    jsOr (getParameter project ["languageModel"; locale]) (VObj ∅) in
  let pluginLevel :=
    _get (config plugin) ["languageModel"; locale] (VObj ∅) in
  (∀ name, objectsAlong pluginLevel [] →
     getKey pluginLevel "invocation" = VStr name →
     Google.getInvocationName plugin project locale w = (w, Ok (VStr name)))
  ∧ (∀ name, isObject pluginLevel = true →
       ownProp pluginLevel "invocation" = None →
       objectsAlong projectLevel [] →
       getKey projectLevel "invocation" = VStr name →
       Google.getInvocationName plugin project locale w
       = (w, Ok (VStr name)))
  ∧ (isObject pluginLevel = true → isObject projectLevel = true →
     ownProp pluginLevel "invocation" = None →
     ownProp projectLevel "invocation" = None →
     (∀ name, getKey model "invocation" = VStr name →
        Google.getInvocationName plugin project locale w
        = (w, Ok (VStr name)))
     ∧ (isObject (getKey model "invocation") = true →
        Google.getInvocationName plugin project locale w
        = (w, if truthy (getKey (getKey model "invocation")
                           (plugin_name plugin))
              then Ok (getKey (getKey model "invocation")
                         (plugin_name plugin))
              else Throws (CliError
                     {| message := "Can't find invocation name for locale "
                                   +:+ locale +:+ ".";
                        module := plugin_name plugin;
                        hint := None |})))).
Proof.
  intros _ Hfile Hmodel projectLevel pluginLevel.
  pose proof (google_getModel_run plugin project locale w model Hfile)
    as Hrun.
  fold projectLevel in Hrun. fold pluginLevel in Hrun.
  pose proof (google_getInvocationName_run plugin project locale w _ Hrun)
    as Hname.
  split; [|split].
  - intros name Halong Hget. rewrite Hname.
    destruct (merged_overrides_win model projectLevel pluginLevel []
                "invocation" (VStr name) Hmodel eq_refl) as [H1 _].
    rewrite app_nil_l, !baseGet_cons in H1. cbn [baseGet] in H1.
    by rewrite H1.
  - intros name _ Hnone Halong Hget. rewrite Hname.
    destruct (merged_overrides_win model projectLevel pluginLevel []
                "invocation" (VStr name) Hmodel eq_refl) as [_ H2].
    rewrite app_nil_l, !baseGet_cons in H2. cbn [baseGet] in H2.
    by rewrite H2.
  - intros _ _ Hplugin Hproject.
    assert (getKey (_mergeWith
                      (_mergeWith model projectLevel mergeArrayCustomizer)
                      pluginLevel mergeArrayCustomizer) "invocation"
            = getKey model "invocation") as Hsame.
    { by rewrite !getKey_mergeWith_other. }
    rewrite Hsame in Hname. split.
    + intros name Hget. by rewrite Hname, Hget.
    + intros Hobject. rewrite Hname.
      by destruct (getKey model "invocation").
Qed.

Lemma google_invocation_name_witness :
  let plugin :=
    examplePlugin []
      (VObj {[ "languageModel" := VObj {[ "en" :=
                 VObj {[ "invocation" := VStr "plugin app" ]} ]} ]}) ∅ in
  let w := worldWithModel "en" (VObj {[ "invocation" := VStr "my app" ]}) in
  @Google.getInvocationName exampleExternals plugin exampleProject "en" w
  = (w, Ok (VStr "plugin app")).
Proof.
  intros plugin w.
  destruct (@google_invocation_name exampleExternals plugin exampleProject
              "en" w (VObj {[ "invocation" := VStr "my app" ]})
              eq_refl eq_refl eq_refl) as [Hplugin _].
  apply Hplugin; [exact I|reflexivity].
Defined.

(** ** Validation and the order of the handlers *)

Section validation_passes.
Context `{Externals}.
Variable plugin : Plugin.

Lemma alexa_validateResolvedLocales_passes (resolved : list string) :
  Alexa.validateResolvedLocales plugin resolved = Ok tt
  ↔ Forall (λ l, l ∈ supportedLocales plugin) resolved.
Proof.
  split; [|apply alexa_validateResolvedLocales_ok].
  induction resolved as [|l resolved IH]; [done|]. simpl.
  case_bool_decide; [|done]. intros Hrest. constructor; [done|by apply IH].
Qed.

Lemma google_checkLocales_passes (locales rest : list string) :
  Google.checkLocales plugin locales rest = Ok tt
  ↔ Forall (λ l, Google.checkLocale plugin locales l = Ok tt) rest.
Proof.
  induction rest as [|l rest IH]; [done|]. simpl.
  destruct (Google.checkLocale plugin locales l) as [[]|e] eqn:Hl.
  - rewrite IH. split; [by constructor|].
    by intros [_ ?]%Forall_cons.
  - split; [done|]. intros [Hl' _]%Forall_cons. congruence.
Qed.

End validation_passes.

(** X22.  Validation passes exactly when every resolved locale is fine: on
    Alexa when each is in the list of supported locales of the plugin; on
    Google when each is in the list of supported locales and the first two
    characters of each, if they are a supported locale, are among the
    resolved locales too. *)
Theorem validateLocales_passes `{Externals} (plugin : Plugin)
  (ctx : Context) :
  let resolved := flat_map (getResolvedLocales plugin) (locales ctx) in
  (Alexa.validateLocales plugin ctx = Ok tt
   ↔ Forall (λ l, l ∈ supportedLocales plugin) resolved)
  ∧ (Google.validateLocales plugin ctx = Ok tt
     ↔ Forall (λ l, l ∈ SUPPORTED_LOCALES
                    ∧ (String.substring 0 2 l ∈ SUPPORTED_LOCALES →
                       String.substring 0 2 l ∈ resolved)) resolved).
Proof.
  intros resolved. split.
  - unfold Alexa.validateLocales. rewrite alexa_validateLocalesOf_flat.
    apply alexa_validateResolvedLocales_passes.
  - unfold Google.validateLocales. fold resolved.
    rewrite google_checkLocales_passes.
    apply Forall_iff. intros l.
    pose proof (google_checkLocale_cases plugin resolved l) as Hcase.
    cbv zeta in Hcase. rewrite Hcase.
    destruct (decide (String.substring 0 2 l ∈ SUPPORTED_LOCALES
                      ∧ String.substring 0 2 l ∉ resolved))
      as [[Hg Hn]|Hg].
    + split; [done|]. intros [_ Hin]. by destruct Hn; apply Hin.
    + destruct (decide (l ∈ SUPPORTED_LOCALES)) as [Hl|Hl].
      * split; [|done]. intros _. split; [done|]. intros Hs.
        destruct (decide (String.substring 0 2 l ∈ resolved)); [done|].
        destruct Hg. by split.
      * split; [done|]. by intros [? _].
Qed.

Example validateLocales_generic_alone :
  let E := exampleExternalsFor ["en"; "en-US"] in
  @Google.validateLocales E (examplePlugin [] (VObj ∅) ∅)
    (exampleContext ["en"]) = Ok tt
  ∧ @Google.validateLocales E (examplePlugin [] (VObj ∅) ∅)
      (exampleContext ["en-US"]) ≠ Ok tt.
Proof. split; [reflexivity|discriminate]. Qed.

(** X23.  [--clean] comes before validation: with it, a build that fails on
    its locales has deleted the platform folder all the same.  On Google
    the project id comes first: a build without one stops before anything
    is deleted. *)
Theorem clean_before_validation `{Externals} (plugin : Plugin)
  (ctx : Context) (build : list (M unit)) (w : World) (e : exn) :
  clean (flags ctx) = true →
  (Alexa.validateLocales plugin ctx = Throws e →
   ∃ w', runBuild (Alexa.beforeBuild plugin ctx) build w = (w', Throws e)
         ∧ files w' = filter (λ kv, ¬ alexaPlatformPath `prefix_of` kv.1)
                        (files w)
         ∧ ∀ p, alexaPlatformPath `prefix_of` p → files w' !! p = None)
  ∧ (Google.validateLocales plugin ctx = Throws e →
     ∀ ctx', Google.updatePluginContext plugin ctx = Ok ctx' →
       ∃ w', runBuild (Google.beforeBuild plugin ctx) build w
             = (w', Throws e)
             ∧ files w' = filter (λ kv, ¬ googlePlatformPath `prefix_of` kv.1)
                            (files w)
             ∧ ∀ p, googlePlatformPath `prefix_of` p → files w' !! p = None)
  ∧ (∀ e', Google.updatePluginContext plugin ctx = Throws e' →
       runBuild (Google.beforeBuild plugin ctx) build w = (w, Throws e')).
Proof.
  intros Hclean.
  assert (∀ (P : path) (fs : gmap path fileData) p,
            P `prefix_of` p →
            filter (λ kv, ¬ P `prefix_of` kv.1) fs !! p = None) as Hgone.
  { intros P fs p Hp. apply map_lookup_filter_None. right.
    intros x _ Hx. by apply Hx. }
  split; [|split].
  - intros He.
    exists {| files := filter (λ kv, ¬ alexaPlatformPath `prefix_of` kv.1)
                         (files w);
              dirs := filter (λ d, ¬ alexaPlatformPath `prefix_of` d)
                        (dirs w);
              models := models w |}.
    split; [|split; [reflexivity|]].
    + unfold runBuild, Alexa.beforeBuild, Alexa.checkForCleanBuild.
      rewrite Hclean. cbn [emit]. unfold mbind, M_bind, bind, lift.
      unfold deleteFolderRecursive. by rewrite He.
    + intros p Hp. by apply Hgone.
  - intros He ctx' Hctx.
    exists {| files := filter (λ kv, ¬ googlePlatformPath `prefix_of` kv.1)
                         (files w);
              dirs := filter (λ d, ¬ googlePlatformPath `prefix_of` d)
                        (dirs w);
              models := models w |}.
    split; [|split; [reflexivity|]].
    + unfold runBuild, Google.beforeBuild, Google.checkForCleanBuild.
      rewrite Hclean, Hctx. cbn [emit]. unfold mbind, M_bind, bind, lift.
      unfold deleteFolderRecursive. by rewrite He.
    + intros p Hp. by apply Hgone.
  - intros e' Hctx.
    unfold runBuild, Google.beforeBuild. rewrite Hctx. cbn [emit].
    by unfold mbind, M_bind, bind, lift.
Qed.

Lemma clean_before_validation_witness :
  let plugin := examplePlugin ["en-US"] (VObj ∅) ∅ in
  let ctx :=
    {| command := "build"; locales := ["de-DE"]; platforms := [];
       flags := {| clean := true; force := false; flag_locale := None;
                   flag_platform := None; flag_project_id := VUndef |};
       defaultLocale := VUndef; projectId := VUndef |} in
  let w :=
    {| files := {[ ["build"; "platform.alexa"; "skill-package";
                    "skill.json"] := JsonText (VObj ∅) ]};
       dirs := ∅; models := ∅ |} in
  ∃ w',
    runBuild (@Alexa.beforeBuild exampleExternals plugin ctx) [] w
    = (w', Throws (CliError (@Alexa.unsupportedLocale exampleExternals plugin
                               "de-DE")))
    ∧ files w' !! ["build"; "platform.alexa"; "skill-package"; "skill.json"]
      = None.
Proof.
  intros plugin ctx w.
  destruct (@clean_before_validation exampleExternals plugin ctx [] w
              (CliError (@Alexa.unsupportedLocale exampleExternals plugin
                           "de-DE")) eq_refl) as [HA _].
  destruct (HA eq_refl) as (w' & Hrun & _ & Hgone).
  exists w'. split; [done|]. apply Hgone.
  by exists ["skill-package"; "skill.json"].
Defined.

(** ** The reverse build of a locale *)

(** X24.  The reverse build of a locale writes no file and no directory and
    touches the model file of no other locale; when it throws, nothing at
    all has changed. *)
Theorem alexa_buildReverseLocale_frame `{Externals} (plugin : Plugin)
  (locale : string) (w : World) :
  let out := Alexa.buildReverseLocale plugin locale w in
  files out.1 = files w
  ∧ dirs out.1 = dirs w
  ∧ (∀ l, l ≠ locale → models out.1 !! l = models w !! l)
  ∧ (∀ e, out.2 = Throws e → out.1 = w).
Proof.
  unfold Alexa.buildReverseLocale, Alexa.getPlatformModel, readFileSync,
    project_getModel, tryCatch, mbind, M_bind, bind, lift, ret, throw.
  destruct (files w !! alexaModelPath locale) as [[v|v|s]|]; try done.
  simpl.
  destruct (alexaImportNative _ locale) as [nativeData|e]; [|done].
  destruct (models w !! locale) as [modelFile|];
    destruct (truthy nativeData); simpl; repeat split; try done;
    intros l Hl; by rewrite lookup_insert_ne.
Qed.

(** X25.  The reverse build of a locale that has a model file merges the
    native data into it: every scalar of the native data is in the saved
    model at its path, and a key of the model file under which the native
    data has nothing keeps its value. *)
Theorem buildReverse_into_existing_model `{Externals}
  (plugin : Plugin) (locale : string) (w : World)
  (platformModel nativeData modelFile : jsval) :
  files w !! alexaModelPath locale = Some (JsonText platformModel) →
  alexaImportNative [ {| nf_path := []; content := platformModel |} ] locale
  = Ok nativeData →
  isObject nativeData = true →
  models w !! locale = Some modelFile →
  isObject modelFile = true →
  ∃ saved,
    Alexa.buildReverseLocale plugin locale w
    = ({| files := files w; dirs := dirs w;
          models := <[locale := saved]> (models w) |}, Ok tt)
    ∧ (∀ p x, isScalar x = true → p ≠ [] →
         baseGet nativeData p = x → baseGet saved p = x)
    ∧ (∀ key, ownProp nativeData key = None →
         getKey saved key = getKey modelFile key).
Proof.
  intros Hfile Himport Hnative Hmodel Hobject.
  exists (_merge modelFile nativeData). split; [|split].
  - unfold Alexa.buildReverseLocale, Alexa.getPlatformModel, readFileSync,
      project_getModel, tryCatch, mbind, M_bind, bind, lift, ret.
    rewrite Hfile. simpl. rewrite Himport, Hmodel.
    assert (truthy nativeData = true) as -> by (by destruct nativeData).
    done.
  - intros p x Hx Hp Hget. by apply baseGet_merge_source.
  - intros key Hkey. unfold _merge. by apply getKey_mergeWith_other.
Qed.

Lemma buildReverse_into_existing_model_witness :
  let plugin := examplePlugin [] (VObj ∅) ∅ in
  let platformModel :=
    VObj {[ "interactionModel" := VObj {[ "languageModel" :=
      VObj {[ "invocationName" := VStr "my new app";
              "intents" :=
                arr [VObj {[ "name" := VStr "HelloWorldIntent" ]}] ]} ]} ]} in
  let modelFile :=
    VObj {[ "invocation" := VStr "my old app";
            "inputTypes" := arr [VObj {[ "name" := VStr "myCityType" ]}] ]}
  in
  let w :=
    {| files := {[ @alexaModelPath exampleExternals "en-US" :=
                     JsonText platformModel ]};
       dirs := ∅;
       models := {[ "en-US" := modelFile ]} |} in
  ∃ saved,
    @Alexa.buildReverseLocale exampleExternals plugin "en-US" w
    = ({| files := files w; dirs := dirs w;
          models := <["en-US" := saved]> (models w) |}, Ok tt)
    ∧ baseGet saved ["invocation"] = VStr "my new app"
    ∧ getKey saved "inputTypes" = getKey modelFile "inputTypes".
Proof.
  intros plugin platformModel modelFile w.
  destruct (@buildReverse_into_existing_model exampleExternals plugin
              "en-US" w platformModel
              (VObj {[ "invocation" := VStr "my new app";
                       "intents" :=
                         arr [VObj {[ "name" :=
                                        VStr "HelloWorldIntent" ]}] ]})
              modelFile)
    as (saved & Hrun & Hscalars & Hkeys);
    [reflexivity | vm_compute; reflexivity | reflexivity | reflexivity
    | reflexivity |].
  exists saved. split; [done|]. split.
  - by apply Hscalars.
  - by apply Hkeys.
Defined.

(** ** Present values in the project files of Google *)

Ltac in_list :=
  solve [repeat first [apply list_elem_of_here | apply list_elem_of_further]].

Section google_present.
Variable plugin : Plugin.
Variable ctx : Context.

(** The places of the generated settings of a resolved locale. *)
Lemma google_suffix_related (r : string) (s s' : path) :
  s ∈ [["defaultLocale"]; ["projectId"];
       ["localizedSettings"; "displayName"];
       ["localizedSettings"; "pronunciation"]] →
  s' ∈ [["defaultLocale"]; ["projectId"];
        ["localizedSettings"; "displayName"];
        ["localizedSettings"; "pronunciation"]] →
  Google.settingsPath ctx r ++ s' = Google.settingsPath ctx r ++ s
  ∨ diverge (Google.settingsPath ctx r ++ s) (Google.settingsPath ctx r ++ s').
Proof.
  intros Hs Hs'.
  repeat (apply elem_of_cons in Hs as [->|Hs]);
    [| | | |by apply elem_of_nil in Hs];
    (repeat (apply elem_of_cons in Hs' as [->|Hs']);
     [| | | |by apply elem_of_nil in Hs']);
    first [ by left
          | right; by apply google_settings_keys
          | right;
            by eexists (Google.settingsPath ctx r ++ ["localizedSettings"]),
                 "displayName", "pronunciation", [], [];
            rewrite <- !app_assoc
          | right;
            by eexists (Google.settingsPath ctx r ++ ["localizedSettings"]),
                 "pronunciation", "displayName", [], [];
            rewrite <- !app_assoc ].
Qed.

Lemma google_targets_related (r r' : string) (s s' : path) :
  s ∈ [["defaultLocale"]; ["projectId"];
       ["localizedSettings"; "displayName"];
       ["localizedSettings"; "pronunciation"]] →
  s' ∈ [["defaultLocale"]; ["projectId"];
        ["localizedSettings"; "displayName"];
        ["localizedSettings"; "pronunciation"]] →
  Google.settingsPath ctx r' ++ s' = Google.settingsPath ctx r ++ s
  ∨ diverge (Google.settingsPath ctx r ++ s)
      (Google.settingsPath ctx r' ++ s').
Proof.
  intros Hs Hs'. destruct (decide (r = r')) as [<-|Hne].
  - by apply google_suffix_related.
  - right. by apply google_settings_diverge.
Qed.

(** A round of the loop leaves a present value at the place of a generated
    value as it is. *)
Lemma googleLocaleWrites_present (r0 : string) (name o : jsval) (g : path) :
  _has o g = true →
  (∀ s', s' ∈ [["defaultLocale"]; ["projectId"];
               ["localizedSettings"; "displayName"];
               ["localizedSettings"; "pronunciation"]] →
         Google.settingsPath ctx r0 ++ s' = g
         ∨ diverge g (Google.settingsPath ctx r0 ++ s')) →
  baseGet (googleLocaleWrites ctx r0 name o) g = baseGet o g
  ∧ _has (googleLocaleWrites ctx r0 name o) g = true.
Proof.
  intros Hg Hrel. unfold googleLocaleWrites.
  rewrite <- !app_assoc. rewrite !setIfMissing_guarded.
  set (sp := Google.settingsPath ctx r0) in *.
  assert (∀ o', _has o' g = true → baseGet o' g = baseGet o g →
            ∀ q v, q ∈ [["defaultLocale"]; ["projectId"];
                        ["localizedSettings"; "displayName"];
                        ["localizedSettings"; "pronunciation"]] →
              baseGet (if true && negb (_has o' (sp ++ q))
                       then _set o' (sp ++ q) v else o') g = baseGet o g
              ∧ _has (if true && negb (_has o' (sp ++ q))
                      then _set o' (sp ++ q) v else o') g = true) as Hstep.
  { intros o' Ho' Hv q v Hq.
    destruct (guarded_set_present true o' g (sp ++ q) v Ho' (Hrel q Hq))
      as [Hv1 Hh1].
    split; [congruence|done]. }
  destruct (jsval_eqb (VStr r0) (defaultLocale ctx)).
  - destruct (Hstep o Hg eq_refl ["defaultLocale"] (defaultLocale ctx))
      as [Hv1 Hh1]; [in_list|].
    destruct (Hstep _ Hh1 Hv1 ["projectId"] (projectId ctx))
      as [Hv2 Hh2]; [in_list|].
    destruct (Hstep _ Hh2 Hv2 ["localizedSettings"; "displayName"] name)
      as [Hv3 Hh3]; [in_list|].
    by apply (Hstep _ Hh3 Hv3 ["localizedSettings"; "pronunciation"] name);
      in_list.
  - destruct (Hstep o Hg eq_refl ["localizedSettings"; "displayName"] name)
      as [Hv3 Hh3]; [in_list|].
    by apply (Hstep _ Hh3 Hv3 ["localizedSettings"; "pronunciation"] name);
      in_list.
Qed.

Lemma google_written_present (nameOf : string → jsval)
  (locales : list string) (o : jsval) (g : path) :
  _has o g = true →
  (∀ r0 s', s' ∈ [["defaultLocale"]; ["projectId"];
                  ["localizedSettings"; "displayName"];
                  ["localizedSettings"; "pronunciation"]] →
            Google.settingsPath ctx r0 ++ s' = g
            ∨ diverge g (Google.settingsPath ctx r0 ++ s')) →
  baseGet (googleLocalesWritten plugin ctx nameOf locales o) g = baseGet o g
  ∧ _has (googleLocalesWritten plugin ctx nameOf locales o) g = true.
Proof.
  intros Hg Hrel. unfold googleLocalesWritten.
  assert (∀ name rs o', _has o' g = true →
            baseGet (googleResolvedWritten ctx name
                       rs o') g = baseGet o' g
            ∧ _has (googleResolvedWritten ctx name
                      rs o') g = true) as Hinner.
  { intros name rs. unfold googleResolvedWritten.
    induction rs as [|r rs IH]; intros o' Ho'; [done|].
    cbn [fold_left].
    destruct (googleLocaleWrites_present r name o' g Ho' (Hrel r))
      as [Hv Hh].
    destruct (IH _ Hh) as [Hv' Hh']. split; [congruence|done]. }
  revert o Hg. induction locales as [|l locales IH]; intros o Hg; [done|].
  cbn [fold_left].
  destruct (Hinner (nameOf l) (getResolvedLocales plugin l) o Hg)
    as [Hv Hh].
  destruct (IH _ Hh) as [Hv' Hh']. split; [congruence|done].
Qed.

End google_present.

(** X26.  A value that is present at the place of a generated value of
    Google (the webhook, or the default locale, the project id, the display
    name or the pronunciation of a resolved locale) stays as it is,
    whatever it is, when the project files are made. *)
Theorem google_project_files_keep_present `{Externals}
  (plugin : Plugin) (project : Project) (ctx : Context) (w w' : World)
  (result : jsval) (g : path) :
  let files :=
    normalizeFileObject (_get (config plugin) ["files"] (VObj ∅)) in
  let base :=
    if hasPlatform project then files else _merge googleDefaultFiles files in
  Forall (λ locale, plainKey locale = true)
    (locales ctx ++ flat_map (getResolvedLocales plugin) (locales ctx)) →
  g = Google.webhookPath
  ∨ (∃ resolvedLocale s,
       g = Google.settingsPath ctx resolvedLocale ++ s
       ∧ s ∈ [["defaultLocale"]; ["projectId"];
              ["localizedSettings"; "displayName"];
              ["localizedSettings"; "pronunciation"]]) →
  _has base g = true →
  Google.createGoogleProjectFiles plugin project ctx w = (w', Ok result) →
  baseGet result g = baseGet base g ∧ _has result g = true.
Proof.
  intros files base _ Hg Hhas Hrun.
  destruct (google_createGoogleProjectFiles_run plugin project ctx _ _ _
              Hrun) as (-> & -> & _).
  fold files. fold base.
  set (endpoint := Google.getPluginEndpoint plugin project).
  destruct (guarded_set_present (negb (String.eqb endpoint "")) base g
              Google.webhookPath (Google.defaultHandler plugin project)
              Hhas) as [Hv1 Hh1].
  { destruct Hg as [->|(r & s & -> & _)]; [by left|].
    right. apply google_settings_webhook. }
  destruct (google_written_present plugin ctx
              (googleInvocationOf plugin project w) (locales ctx) _ g Hh1)
    as [Hv2 Hh2]; [|split; [congruence|done]].
  intros r0 s' Hs'.
  destruct Hg as [->|(r & s & -> & Hs)].
  - right. apply diverge_sym, google_settings_webhook.
  - by apply google_targets_related.
Qed.

Lemma google_project_files_keep_present_witness :
  let files :=
    VObj {[ "settings/" := VObj {[ "settings.yaml" :=
              VObj {[ "projectId" := VStr "user-project" ]} ]} ]} in
  let plugin := examplePlugin [] (VObj {[ "files" := files ]}) ∅ in
  let ctx :=
    {| command := "build"; locales := ["en-US"]; platforms := [];
       flags := exampleFlags; defaultLocale := VStr "en-US";
       projectId := VStr "flag-project" |} in
  let w :=
    worldWithModel "en-US" (VObj {[ "invocation" := VStr "my app" ]}) in
  let run :=
    @Google.createGoogleProjectFiles exampleExternals plugin exampleProject
      ctx w in
  let result := match run.2 with Ok result => result | Throws _ => VUndef end
  in
  let g := Google.settingsPath ctx "en-US" ++ ["projectId"] in
  run = (w, Ok result)
  ∧ baseGet result g = baseGet files g
  ∧ _has result g = true.
Proof.
  intros files plugin ctx w run result g.
  assert (run = (w, Ok result)) as Hrun by (vm_compute; reflexivity).
  split; [exact Hrun|].
  apply (@google_project_files_keep_present exampleExternals plugin
           exampleProject ctx w w result g).
  - repeat constructor.
  - right. exists "en-US", ["projectId"]. split; [reflexivity|]. in_list.
  - vm_compute. reflexivity.
  - exact Hrun.
Defined.
